(** * Verification of the request-dispatch core of the Swift client (swift.go)

    A shallow embedding of the Go package [swift]: the metadata/header
    codec, the status classifier, the session fields of [Connection], the
    retrying dispatcher [Connection.storage] and the object transfer
    operations built on it, then the listings and the remaining account,
    container and object operations.

    Conventions
    - Go [string]s are byte strings: Rocq [string] (a list of 8-bit [ascii]).
    - Go [int]/[int64] are [Z].
    - Go [map[string]string] is [gmap string string]; [http.Header]
      ([map[string][]string]) is [gmap string (list string)].
    - A Go [error] is [option error], [None] being [nil].
    - Iterating a Go map ([for k, v := range m]) visits every entry once in
      an unspecified order: a loop over a map is embedded as a fold over an
      explicit visiting order [l], and [ranges m l] says that [l] is one of
      the orders the runtime may pick. *)

From Stdlib Require Import ZArith Ascii String List Bool Lia.
From stdpp Require Import base option list gmap strings fin_maps pretty.
From Equations Require Import Equations.

Local Open Scope string_scope.
Local Open Scope Z_scope.

(** ** Bytes and strings *)

Definition byteval (c : ascii) : nat := nat_of_ascii c.

(** ['A' <= c && c <= 'Z'] *)
Definition isUpperByte (c : ascii) : bool :=
  (65 <=? byteval c)%nat && (byteval c <=? 90)%nat.

(** ['a' <= c && c <= 'z'] *)
Definition isLowerByte (c : ascii) : bool :=
  (97 <=? byteval c)%nat && (byteval c <=? 122)%nat.

Definition isDigitByte (c : ascii) : bool :=
  (48 <=? byteval c)%nat && (byteval c <=? 57)%nat.

(** [c += 'a' - 'A'] on an upper-case letter. *)
Definition toLowerByte (c : ascii) : ascii :=
  if isUpperByte c then ascii_of_nat (byteval c + 32) else c.

(** [c -= 'a' - 'A'] on a lower-case letter. *)
Definition toUpperByte (c : ascii) : ascii :=
  if isLowerByte c then ascii_of_nat (byteval c - 32) else c.

(** [c < utf8.RuneSelf] *)
Definition isASCIIByte (c : ascii) : bool := (byteval c <? 128)%nat.

Fixpoint string_forall (f : ascii -> bool) (s : string) : bool :=
  match s with
  | EmptyString => true
  | String c s' => f c && string_forall f s'
  end.

Fixpoint string_map (f : ascii -> ascii) (s : string) : string :=
  match s with
  | EmptyString => EmptyString
  | String c s' => String (f c) (string_map f s')
  end.

(** [s[n:]] for [n <= len(s)]. *)
Fixpoint string_drop (n : nat) (s : string) : string :=
  match n, s with
  | O, _ => s
  | S n', String _ s' => string_drop n' s'
  | S _, EmptyString => EmptyString
  end.

(** [strings.HasPrefix(s, prefix)] *)
Fixpoint HasPrefix (s pre : string) : bool :=
  match pre, s with
  | EmptyString, _ => true
  | String a pre', String b s' => if ascii_dec a b then HasPrefix s' pre' else false
  | String _ _, EmptyString => false
  end.

(** *** Go library: [net/textproto]

    [validHeaderFieldByte] accepts the RFC 7230 token bytes: letters,
    digits and [!#$%&'*+-.^_`|~]. *)
Definition validHeaderFieldByte (c : ascii) : bool :=
  isUpperByte c || isLowerByte c || isDigitByte c ||
  existsb (fun n => (n =? byteval c)%nat)
          [33; 35; 36; 37; 38; 39; 42; 43; 45; 46; 94; 95; 96; 124; 126]%nat.

(** The rewriting loop of [canonicalMIMEHeaderKey]: first letter and every
    letter after a dash upper case, every other letter lower case. *)
Definition canonByte (upper : bool) (c : ascii) : ascii :=
  if upper && isLowerByte c then toUpperByte c
  else if negb upper && isUpperByte c then toLowerByte c
  else c.

Definition isDash (c : ascii) : bool := (byteval c =? 45)%nat.

Fixpoint canonLoop (upper : bool) (s : string) : string :=
  match s with
  | EmptyString => EmptyString
  | String c s' =>
      let c' := canonByte upper c in
      String c' (canonLoop (isDash c') s')
  end.

(** [http.CanonicalHeaderKey] ([textproto.CanonicalMIMEHeaderKey]): a key
    containing a space or any other byte that is not a header token byte is
    returned without modification; otherwise it is rewritten by the loop
    above. *)
Definition CanonicalHeaderKey (s : string) : string :=
  if string_forall validHeaderFieldByte s then canonLoop true s else s.

(** *** Go library functions taken as parameters

    What the package calls in the Go library and this development does not
    define is gathered in one record.
    - [unicodeToLower]: the path [strings.Map(unicode.ToLower, s)] that
      [strings.ToLower] takes for a string with a byte above 0x7f;
    - [md5_Sum]: the digest [hash.Sum(nil)] of an [md5.New()] hash that was
      written the given bytes;
    - [strconv_Quote]: the quoting used in the text of a [strconv.NumError];
    - [Values_Encode]: [url.Values.Encode];
    - [NewRequest_err]: the error of [http.NewRequest(method, url, _)], if
      any (unknown method, unparsable URL);
    - [rangeOrder]: the order in which [range] visits a header map. *)
Record GoLib := mkGoLib {
  unicodeToLower : string -> string;
  md5_Sum : string -> string;
  strconv_Quote : string -> string;
  Values_Encode : gmap string (list string) -> string;
  NewRequest_err : string -> string -> option string;
  rangeOrder : gmap string string -> list (string * string)
}.

(** [strings.ToLower]: ASCII-only strings take the byte-wise path. *)
Definition ToLower (lib : GoLib) (s : string) : string :=
  if string_forall isASCIIByte s then string_map toLowerByte s
  else unicodeToLower lib s.

(** [strconv.Itoa] / the [%d] verb. *)
Definition Itoa (n : Z) : string := pretty n.

(** ** Errors and the classifier tables *)

Record Error := newError { StatusCode : Z; Text : string }.

#[global] Instance Error_eq_dec : EqDecision Error.
Proof. solve_decision. Defined.

(** A Go [error] value: an [*Error] of this package, or an error passed on
    from a library function (transport, [io], [strconv]), kept by its text. *)
Inductive error :=
| Swift (e : Error)
| Library (msg : string).

#[global] Instance error_eq_dec : EqDecision error.
Proof. solve_decision. Defined.

Coercion Swift : Error >-> error.

Definition AuthorizationFailed : Error := newError 401 "Authorization Failed".
Definition ContainerNotFound : Error := newError 404 "Container Not Found".
Definition ContainerNotEmpty : Error := newError 409 "Container Not Empty".
Definition ObjectNotFound : Error := newError 404 "Object Not Found".
Definition ObjectCorrupted : Error := newError 422 "Object Corrupted".

(** [type errorMap map[int]error]; a [nil] table is [None].  Every table of
    the package holds non-nil [*Error] values. *)
Abbreviation errorMap := (option (gmap Z Error)).

Definition authErrorMap : errorMap :=
  Some {[ 401 := AuthorizationFailed ]}.

Definition containerErrorMap : errorMap :=
  Some (<[ 404 := ContainerNotFound ]> {[ 409 := ContainerNotEmpty ]}).

Definition objectErrorMap : errorMap :=
  Some (<[ 404 := ObjectNotFound ]> {[ 422 := ObjectCorrupted ]}).

(** ** HTTP values

    [http.Header] of a request under construction maps a canonical key to
    the list of values added so far.  A parsed response never holds a key
    without a value, so a response header keeps the first value apart from
    the others: [values[0]] in [readHeaders] is always defined. *)
Abbreviation Headers := (gmap string string).
Abbreviation Metadata := (gmap string string).
Abbreviation http_Header := (gmap string (list string)).
Abbreviation resp_Header_t := (gmap string (string * list string)).

(** [http.Header.Add]: append under the canonical key. *)
Definition Header_Add (h : http_Header) (key value : string) : http_Header :=
  let key := CanonicalHeaderKey key in
  <[ key := (default [] (h !! key) ++ [value])%list ]> h.

(** [http.Header.Set]: replace under the canonical key. *)
Definition Header_Set (h : http_Header) (key value : string) : http_Header :=
  <[ CanonicalHeaderKey key := [value] ]> h.

(** [http.Header.Get]: the first value under the canonical key, or [""]. *)
Definition Header_Get (h : http_Header) (key : string) : string :=
  match h !! CanonicalHeaderKey key with
  | Some (v :: _) => v
  | _ => ""
  end.

(** [http.Header.Get] on a response. *)
Definition resp_Get (h : resp_Header_t) (key : string) : string :=
  match h !! CanonicalHeaderKey key with
  | Some (v, _) => v
  | None => ""
  end.

(** A response body: the chunks that successive [Read] calls still have to
    deliver, how the stream ends ([None] is [io.EOF]), what [Close]
    returns, and whether [Close] has been called. *)
Record Body := mkBody {
  chunks : list string;
  readErr : option error;
  closeErr : option error;
  closed : bool
}.

(** [resp.Body.Close()] *)
Definition Body_Close (b : Body) : Body * option error :=
  (mkBody (chunks b) (readErr b) (closeErr b) true, closeErr b).

Record Response := mkResponse {
  resp_StatusCode : Z;
  resp_Status : string;
  resp_Header : resp_Header_t;
  resp_Body : Body
}.

Definition Response_Close (r : Response) : Response * option error :=
  let '(b, e) := Body_Close (resp_Body r) in
  (mkResponse (resp_StatusCode r) (resp_Status r) (resp_Header r) b, e).

(** The reader attached to a request: the caller's [contents] itself, or
    [io.TeeReader(contents, hash)]. *)
Inductive ReqBody := Contents | TeeContents.

Record Request := mkRequest {
  req_Method : string;
  req_URL : string;
  req_Header : http_Header;
  req_Body : option ReqBody
}.

(** ** ErrorClassifier: [Connection.parseHeaders] *)

Definition newErrorf_HTTP (code : Z) (status : string) : Error :=
  newError code ("HTTP Error: " ++ Itoa code ++ ": " ++ status).

Definition parseHeaders (resp : Response) (em : errorMap) : option error :=
  let code := resp_StatusCode resp in
  match em ≫= (fun tbl => tbl !! code) with
  | Some err => Some (Swift err)
  | None =>
      if (code <? 200) || (code >? 299)
      then Some (Swift (newErrorf_HTTP code (resp_Status resp)))
      else None
  end.

(** [readHeaders]: every key with its first value.  The map is written at
    pairwise distinct keys, so the visiting order is immaterial. *)
Definition readHeaders (resp : Response) : Headers :=
  fst <$> resp_Header resp.

(** ** MetadataCodec *)

(** [l] is an order in which [for k, v := range m] may visit [m]. *)
Definition ranges {A} (m : gmap string A) (l : list (string * A)) : Prop :=
  l ≡ₚ map_to_list m.

(** The body of a loop that files each entry of a map under a key computed
    from its own key, or skips it: the shape of both loops of the codec. *)
Definition range_step {V} (f : string -> option string) (m : gmap string V)
    (kv : string * V) : gmap string V :=
  match f kv.1 with
  | Some k' => <[ k' := kv.2 ]> m
  | None => m
  end.

Section Codec.
Variable lib : GoLib.

(** Body of the loop of [Headers.Metadata]. *)
Definition Metadata_step (metaPrefix : string) (m : Metadata)
    (kv : string * string) : Metadata :=
  let '(key, value) := kv in
  if HasPrefix key metaPrefix
  then <[ ToLower lib (string_drop (String.length metaPrefix) key) := value ]> m
  else m.

(** [Headers.Metadata(metaPrefix)], visiting the headers in [order]. *)
Definition Headers_Metadata (order : list (string * string))
    (metaPrefix : string) : Metadata :=
  let metaPrefix := CanonicalHeaderKey metaPrefix in
  foldl (Metadata_step metaPrefix) ∅ order.

(** Body of the loop of [Metadata.Headers]. *)
Definition Headers_step (metaPrefix : string) (h : Headers)
    (kv : string * string) : Headers :=
  let '(key, value) := kv in
  let key := CanonicalHeaderKey (metaPrefix ++ key) in
  <[ key := value ]> h.

(** [Metadata.Headers(metaPrefix)], visiting the metadata in [order]. *)
Definition Metadata_Headers (order : list (string * string))
    (metaPrefix : string) : Headers :=
  foldl (Headers_step metaPrefix) ∅ order.

Definition AccountMetadata order := Headers_Metadata order "X-Account-Meta-".
Definition ContainerMetadata order := Headers_Metadata order "X-Container-Meta-".
Definition ObjectMetadata order := Headers_Metadata order "X-Object-Meta-".
Definition AccountHeaders order := Metadata_Headers order "X-Account-Meta-".
Definition ContainerHeaders order := Metadata_Headers order "X-Container-Meta-".
Definition ObjectHeaders order := Metadata_Headers order "X-Object-Meta-".

(** The metadata [m] with every key lower-cased, as the round-trip law
    words it. *)
Definition lowerKeyed (m : Metadata) : Metadata :=
  list_to_map ((fun kv : string * string => (ToLower lib kv.1, kv.2)) <$> map_to_list m).

(** The key under which [Headers.Metadata] files a header, if any. *)
Definition metaKey (cp key : string) : option string :=
  if HasPrefix key cp
  then Some (ToLower lib (string_drop (String.length cp) key))
  else None.

(** No two keys of [m] have the same lower-case form. *)
Definition caseDistinct (m : Metadata) : Prop :=
  forall k1 k2, k1 ∈ dom m -> k2 ∈ dom m ->
                ToLower lib k1 = ToLower lib k2 -> k1 = k2.

Definition lowerCaseKeys (m : Metadata) : Prop :=
  forall k, k ∈ dom m -> ToLower lib k = k.

(** Every key can be told from the prefix once canonical: either the
    prefix is already canonical, or the key is made of token bytes. *)
Definition prefixFits (p : string) (m : Metadata) : Prop :=
  CanonicalHeaderKey p = p \/
  forall k, k ∈ dom m -> string_forall validHeaderFieldByte k = true.
End Codec.

(** ** Connection and session *)

Definition DefaultUserAgent : string := "goswift/1.0".
Definition DefaultRetries : Z := 3.

(** The fields [tr] and [client] are created by [Authenticate] on first
    use and then only passed to the transport, which is the [World] below. *)
Record Connection := mkConnection {
  UserName : string;
  ApiKey : string;
  AuthUrl : string;
  Retries : Z;
  UserAgent : string;
  storageUrl : string;
  authToken : string
}.

Definition nonEmpty (s : string) : bool := negb (String.eqb s "").

(** [c.storageUrl != "" && c.authToken != ""] *)
Definition Authenticated (c : Connection) : bool :=
  nonEmpty (storageUrl c) && nonEmpty (authToken c).

Definition setSession (c : Connection) (url token : string) : Connection :=
  mkConnection (UserName c) (ApiKey c) (AuthUrl c) (Retries c) (UserAgent c)
               url token.

Definition UnAuthenticate (c : Connection) : Connection :=
  setSession c "" "".

(** The defaults [Authenticate] fills in. *)
Definition setDefaults (c : Connection) : Connection :=
  mkConnection (UserName c) (ApiKey c) (AuthUrl c)
               (if Retries c =? 0 then DefaultRetries else Retries c)
               (if String.eqb (UserAgent c) "" then DefaultUserAgent else UserAgent c)
               (storageUrl c) (authToken c).

(** ** Transport and world

    [c.client.Do(req)] is answered by a transport, an arbitrary state
    machine: from its state and the request it gives its next state and a
    reply, which says how many bytes of the request body it read and either
    a transport error or a response.  With an error [Do] returns no
    response, but for a redirect check that failed: [refused] is the
    response it returns then, and is not looked at when [outcome] is a
    response. *)
Record Reply := mkReplyWith {
  consumed : nat;
  outcome : error + Response;
  refused : option Response
}.

(** A reply that is an error with no response, or a response. *)
Abbreviation mkReply n o := (mkReplyWith n o None).

Fixpoint string_take (n : nat) (s : string) : string :=
  match n, s with
  | S n', String c s' => String c (string_take n' s')
  | _, _ => EmptyString
  end.

(** Everything outside the [Connection] that a call changes: the transport
    state [net]; the unread bytes [contents] of the caller's upload reader
    and the bytes [hashed] written so far into the [md5] state of the
    running [ObjectPut]; and three observation counters: handshake requests
    sent, [CloseIdleConnections] calls, [Body.Close] calls, with the log of
    requests sent. *)
Record World (T : Type) := mkWorld {
  net : T;
  contents : string;
  hashed : string;
  handshakes : nat;
  idleFlushes : nat;
  closes : nat;
  sent : list Request
}.
Arguments mkWorld {T}.
Arguments net {T}.
Arguments contents {T}.
Arguments hashed {T}.
Arguments handshakes {T}.
Arguments idleFlushes {T}.
Arguments closes {T}.
Arguments sent {T}.

(** [storageOpts] *)
Record storageOpts := mkStorageOpts {
  container : string;
  objectName : string;
  operation : string;
  parameters : option (gmap string (list string));
  headers : option Headers;
  opt_errorMap : errorMap;
  noResponse : bool;
  body : option ReqBody;
  retries : Z
}.

(** [retries := p.retries; if retries == 0 { retries = c.Retries }]: the
    retry budget [storage] works with. *)
Definition retryBudget (p : storageOpts) (c : Connection) : Z :=
  if retries p =? 0 then Retries c else retries p.

(** The three results of [storage]. *)
Record storageRet := mkRet {
  ret_resp : option Response;
  ret_headers : option Headers;
  ret_err : option error
}.

Definition inspect {A} (a : A) : {b : A | a = b} := exist _ a eq_refl.

Section Dispatcher.
Context (lib : GoLib) {T : Type} (RoundTrip : T -> Request -> T * Reply).

Definition CloseIdleConnections (w : World T) : World T :=
  mkWorld (net w) (contents w) (hashed w) (handshakes w)
          (S (idleFlushes w)) (closes w) (sent w).

Definition countClose (w : World T) : World T :=
  mkWorld (net w) (contents w) (hashed w) (handshakes w)
          (idleFlushes w) (S (closes w)) (sent w).

Definition countHandshake (w : World T) : World T :=
  mkWorld (net w) (contents w) (hashed w) (S (handshakes w))
          (idleFlushes w) (closes w) (sent w).

(** [c.client.Do(req)]: the transport answers, having read [consumed]
    bytes through the request's reader; a tee reader copies what is read
    into the hash. *)
Definition client_Do (w : World T) (req : Request)
    : World T * (error + Response) :=
  let '(n, reply) := RoundTrip (net w) req in
  let k := Nat.min (consumed reply) (String.length (contents w)) in
  let '(rest, hashed') :=
    match req_Body req with
    | None => (contents w, hashed w)
    | Some Contents => (string_drop k (contents w), hashed w)
    | Some TeeContents =>
        (string_drop k (contents w), hashed w ++ string_take k (contents w))
    end in
  (mkWorld n rest hashed' (handshakes w) (idleFlushes w) (closes w)
           (sent w ++ [req])%list,
   outcome reply).

(** The response [c.client.Do(req)] returns when it returns an error:
    [nil], or the response of a failed redirect check, whose body
    [net/http] has closed already. *)
Definition client_Do_refused (w : World T) (req : Request) : option Response :=
  (fun r => (Response_Close r).1) <$> refused (RoundTrip (net w) req).2.

(** [http.NewRequest(method, url, body)] with an empty header. *)
Definition NewRequest (method url : string) (b : option ReqBody)
    : error + Request :=
  match NewRequest_err lib method url with
  | Some msg => inl (Library msg)
  | None => inr (mkRequest method url ∅ b)
  end.

Definition setHeader (req : Request) (h : http_Header) : Request :=
  mkRequest (req_Method req) (req_URL req) h (req_Body req).

Definition noToken : Error :=
  newError 0 "Response didn't have storage url and auth token".

(** The deferred function of [Authenticate]: close the body, keep the
    first error, flush the idle connections. *)
Definition Authenticate_deferred (c : Connection) (w : World T)
    (resp : Response) (err : option error)
    : Connection * World T * option error :=
  let '(_, cerr) := Response_Close resp in
  let err := match err with None => cerr | Some _ => err end in
  (c, CloseIdleConnections (countClose w), err).

(** The three headers [Authenticate] sets on its request. *)
Definition handshakeHeader (h : http_Header) (c : Connection) : http_Header :=
  let h := Header_Set h "User-Agent" (UserAgent c) in
  let h := Header_Set h "X-Auth-Key" (ApiKey c) in
  Header_Set h "X-Auth-User" (UserName c).

(** The request [Authenticate] sends for a connection with its defaults set. *)
Definition handshakeRequest (c : Connection) : Request :=
  mkRequest "GET" (AuthUrl c) (handshakeHeader ∅ c) None.

(** [Connection.Authenticate] *)
Definition Authenticate (c : Connection) (w : World T)
    : Connection * World T * option error :=
  let c := setDefaults c in
  let w := CloseIdleConnections w in
  match NewRequest "GET" (AuthUrl c) None with
  | inl err => (c, w, Some err)
  | inr req =>
      let req := setHeader req (handshakeHeader (req_Header req) c) in
      let '(w, r) := client_Do (countHandshake w) req in
      match r with
      | inl err => (c, w, Some err)
      | inr resp =>
          match parseHeaders resp authErrorMap with
          | Some err => Authenticate_deferred c w resp (Some err)
          | None =>
              let c := setSession c (resp_Get (resp_Header resp) "X-Storage-Url")
                                    (resp_Get (resp_Header resp) "X-Auth-Token") in
              if negb (Authenticated c)
              then Authenticate_deferred c w resp (Some (Swift noToken))
              else Authenticate_deferred c w resp None
          end
      end
  end.

(** The URL [storage] builds: storage URL, container, object, query. *)
Definition storage_url (c : Connection) (p : storageOpts) : string :=
  let url := storageUrl c in
  let url :=
    if nonEmpty (container p) then
      let url := url ++ "/" ++ container p in
      if nonEmpty (objectName p) then url ++ "/" ++ objectName p else url
    else url in
  match parameters p with
  | Some v =>
      let encoded := Values_Encode lib v in
      if nonEmpty encoded then url ++ "?" ++ encoded else url
  | None => url
  end.

(** The header [storage] gives the request: the caller's headers added
    one by one, then the two headers of the package. *)
Definition callerHeaders (order : list (string * string)) : http_Header :=
  foldl (fun h kv => Header_Add h kv.1 kv.2) ∅ order.

Definition storage_headers (c : Connection) (p : storageOpts) : http_Header :=
  let h := match headers p with
           | Some hs => callerHeaders (rangeOrder lib hs)
           | None => ∅
           end in
  let h := Header_Add h "User-Agent" DefaultUserAgent in
  Header_Add h "X-Auth-Token" (authToken c).

(** The request [storage] sends for an authenticated connection. *)
Definition storage_request (c : Connection) (p : storageOpts) : Request :=
  mkRequest (operation p) (storage_url c p) (storage_headers c p) (body p).

(** One turn of the loop of [storage], up to and including
    [c.client.Do(req)].  [last] is the named result [resp] as the previous
    turn left it.  [inl (resp, err)] is an early [return] with the named
    results as they are then: the returns after [Authenticate] and
    [http.NewRequest] leave [resp] as it was, the one after [Do] comes
    after [resp, err = c.client.Do(req)]. *)
Definition storage_attempt (p : storageOpts) (c : Connection) (w : World T)
    (last : option Response)
    : Connection * World T * (option Response * error + Response) :=
  let '(c, w, aerr) :=
    if negb (Authenticated c) then Authenticate c w else (c, w, None) in
  match aerr with
  | Some err => (c, w, inl (last, err))
  | None =>
      match NewRequest (operation p) (storage_url c p) (body p) with
      | inl err => (c, w, inl (last, err))
      | inr req =>
          let req := setHeader req (storage_headers c p) in
          let '(w', r) := client_Do w req in
          match r with
          | inl err => (c, w', inl (client_Do_refused w req, err))
          | inr resp => (c, w', inr resp)
          end
      end
  end.

(** The loop of [storage].  [last] is the named result [resp] as the
    previous turn left it; [inl (resp, err)] is an early [return] of the
    turn, [inr resp] is the [break]. *)
Equations? storage_loop (p : storageOpts) (retries : Z) (c : Connection)
    (w : World T) (last : option Response)
    : Connection * World T * (option Response * error + Response)
    by wf (Z.to_nat retries) lt :=
  storage_loop p retries c w last with storage_attempt p c w last := {
    | (c1, w1, inl early) := (c1, w1, inl early);
    | (c1, w1, inr resp)
        with inspect ((resp_StatusCode resp =? 401) && (retries >? 0)) := {
        | exist _ true _ :=
            storage_loop p (retries - 1) (UnAuthenticate c1) (countClose w1)
                         (Some (Response_Close resp).1);
        | exist _ false _ := (c1, w1, inr resp) } }.
Proof. apply andb_prop in e as [_ H]. lia. Qed.

(** [Connection.storage] *)
Definition storage (p : storageOpts) (c : Connection) (w : World T)
    : Connection * World T * storageRet :=
  let retries := retryBudget p c in
  match storage_loop p retries c w None with
  | (c, w, inl (resp, err)) => (c, w, mkRet resp None (Some err))
  | (c, w, inr resp) =>
      match parseHeaders resp (opt_errorMap p) with
      | Some err => (c, countClose w, mkRet None None (Some err))
      | None =>
          let headers := readHeaders resp in
          if noResponse p then
            let '(resp', cerr) := Response_Close resp in
            match cerr with
            | Some err => (c, countClose w, mkRet None None (Some err))
            | None => (c, countClose w, mkRet (Some resp') (Some headers) None)
            end
          else (c, w, mkRet (Some resp) (Some headers) None)
      end
  end.
End Dispatcher.

(** ** Numbers in headers *)

(** [strconv.ErrSyntax] and [strconv.ErrRange] *)
Inductive numErr := ErrSyntax | ErrRange.

Definition numErr_text (e : numErr) : string :=
  match e with
  | ErrSyntax => "invalid syntax"
  | ErrRange => "value out of range"
  end.

Definition maxUint64 : Z := 2 ^ 64 - 1.

(** The digit loop of [strconv.ParseUint(s, 10, 64)], [acc] being the
    value so far: a byte that is no digit ends it with a syntax error and
    0; a value that no longer fits 64 bits ends it with a range error and
    the largest value, whatever follows. *)
Fixpoint parseDigits (s : string) (acc : Z) : Z * option numErr :=
  match s with
  | EmptyString => (acc, None)
  | String c s' =>
      if isDigitByte c then
        if maxUint64 / 10 + 1 <=? acc then (maxUint64, Some ErrRange)
        else
          let n1 := acc * 10 + Z.of_nat (byteval c - 48) in
          if maxUint64 <? n1 then (maxUint64, Some ErrRange)
          else parseDigits s' n1
      else (0, Some ErrSyntax)
  end.

(** [strconv.ParseInt(s, 10, 64)]: an optional sign and at least one
    decimal digit.  Gives the value and the reason of the [NumError], if
    any: 0 with a syntax error, the nearest [int64] when out of range. *)
Definition ParseInt (s : string) : Z * option string :=
  let '(neg, digits) :=
    match s with
    | String "+" s' => (false, s')
    | String "-" s' => (true, s')
    | _ => (false, s)
    end in
  match digits with
  | EmptyString => (0, Some (numErr_text ErrSyntax))
  | _ =>
      match parseDigits digits 0 with
      | (_, Some ErrSyntax) => (0, Some (numErr_text ErrSyntax))
      | (un, _) =>
          let cutoff := 2 ^ 63 in
          if negb neg && (cutoff <=? un)
          then (cutoff - 1, Some (numErr_text ErrRange))
          else if neg && (cutoff <? un)
          then (- cutoff, Some (numErr_text ErrRange))
          else (if neg : bool then - un else un, None)
      end
  end.

Section Operations.
Context (lib : GoLib) {T : Type} (RoundTrip : T -> Request -> T * Reply).

(** [getInt64FromHeader] *)
Definition getInt64FromHeader (resp : Response) (header : string)
    : Z * option error :=
  let value := resp_Get (resp_Header resp) header in
  let '(result, perr) := ParseInt value in
  match perr with
  | None => (result, None)
  | Some reason =>
      (result, Some (Swift (newError 0
         ("Bad Header '" ++ header ++ "': '" ++ value ++ "': " ++
          "strconv.ParseInt: parsing " ++ strconv_Quote lib value ++ ": " ++
          reason))))
  end.

(** [fmt.Sprintf("%x", digest)] *)
Definition hexDigit (n : nat) : ascii :=
  if (n <? 10)%nat then ascii_of_nat (48 + n) else ascii_of_nat (87 + n).

Fixpoint hex (s : string) : string :=
  match s with
  | EmptyString => EmptyString
  | String c s' =>
      String (hexDigit (byteval c / 16)) (String (hexDigit (byteval c mod 16)) (hex s'))
  end.

Definition calculatedMd5 (written : string) : string :=
  hex (md5_Sum lib written).

(** *** Account and container operations *)

Record Account_t := mkAccount {
  BytesUsed : Z;
  Containers : Z;
  Objects : Z
}.

Definition Account_opts : storageOpts :=
  mkStorageOpts "" "" "HEAD" None None containerErrorMap true None 0.

(** [Connection.Account] *)
Definition Account (c : Connection) (w : World T)
    : Connection * World T * (Account_t * option Headers * option error) :=
  let '(c, w, r) := storage lib RoundTrip Account_opts c w in
  match ret_err r, ret_resp r with
  | Some err, _ => (c, w, (mkAccount 0 0 0, ret_headers r, Some err))
  | None, None => (c, w, (mkAccount 0 0 0, ret_headers r, None))
  | None, Some resp =>
      let '(bytes, e1) := getInt64FromHeader resp "X-Account-Bytes-Used" in
      match e1 with
      | Some err => (c, w, (mkAccount bytes 0 0, ret_headers r, Some err))
      | None =>
          let '(conts, e2) := getInt64FromHeader resp "X-Account-Container-Count" in
          match e2 with
          | Some err => (c, w, (mkAccount bytes conts 0, ret_headers r, Some err))
          | None =>
              let '(objs, e3) := getInt64FromHeader resp "X-Account-Object-Count" in
              (c, w, (mkAccount bytes conts objs, ret_headers r, e3))
          end
      end
  end.

Definition AccountUpdate_opts (h : option Headers) : storageOpts :=
  mkStorageOpts "" "" "POST" None h containerErrorMap true None 0.

(** [Connection.AccountUpdate] *)
Definition AccountUpdate (h : option Headers) (c : Connection) (w : World T)
    : Connection * World T * option error :=
  let '(c, w, r) := storage lib RoundTrip (AccountUpdate_opts h) c w in
  (c, w, ret_err r).

Definition ContainerDelete_opts (container : string) : storageOpts :=
  mkStorageOpts container "" "DELETE" None None containerErrorMap true None 0.

(** [Connection.ContainerDelete] *)
Definition ContainerDelete (container : string) (c : Connection) (w : World T)
    : Connection * World T * option error :=
  let '(c, w, r) := storage lib RoundTrip (ContainerDelete_opts container) c w in
  (c, w, ret_err r).

Definition ObjectDelete_opts (container objectName : string) : storageOpts :=
  mkStorageOpts container objectName "DELETE" None None objectErrorMap false None 0.

(** [Connection.ObjectDelete] *)
Definition ObjectDelete (container objectName : string) (c : Connection)
    (w : World T) : Connection * World T * option error :=
  let '(c, w, r) := storage lib RoundTrip (ObjectDelete_opts container objectName) c w in
  (c, w, ret_err r).

Definition ObjectUpdate_opts (container objectName : string)
    (h : option Headers) : storageOpts :=
  mkStorageOpts container objectName "POST" None h objectErrorMap true None 0.

(** [Connection.ObjectUpdate] *)
Definition ObjectUpdate (container objectName : string) (h : option Headers)
    (c : Connection) (w : World T) : Connection * World T * option error :=
  let '(c, w, r) := storage lib RoundTrip (ObjectUpdate_opts container objectName h) c w in
  (c, w, ret_err r).
End Operations.

(** ** ChecksumGuard: uploads and downloads *)

(** The caller's sink, an [io.Writer]: the bytes it has accepted and its
    behaviour, which from those bytes and the next block says how many
    bytes of the block it accepts and the error of the [Write], if any. *)
Record Writer := mkWriter {
  sunk : string;
  policy : string -> string -> nat * option error
}.

Definition Writer_Write (d : Writer) (p : string) : Writer * nat * option error :=
  let '(n, e) := policy d (sunk d) p in
  let n := Nat.min n (String.length p) in
  (mkWriter (sunk d ++ string_take n p) (policy d), n, e).

Definition ErrShortWrite : error := Library "short write".

(** [io.MultiWriter(contents, hash).Write]: the sink first, the hash only
    after the sink took the whole block. *)
Definition MultiWriter_Write (d : Writer * string) (p : string)
    : (Writer * string) * nat * option error :=
  let '(d', n, e) := Writer_Write d.1 p in
  match e with
  | Some err => ((d', d.2), n, Some err)
  | None =>
      if (n =? String.length p)%nat
      then ((d', d.2 ++ p), String.length p, None)
      else ((d', d.2), n, Some ErrShortWrite)
  end.

Definition plain_Write (d : Writer * string) (p : string)
    : (Writer * string) * nat * option error :=
  let '(d', n, e) := Writer_Write d.1 p in ((d', d.2), n, e).

(** [io.Copy(dst, src)]: read block after block until the source ends;
    stop at the first failed or short [Write].  Gives the destination, the
    blocks left unread, [written] and [err]. *)
Fixpoint io_Copy {D} (write : D -> string -> D * nat * option error)
    (dst : D) (blocks : list string) (ending : option error) (written : Z)
    : D * list string * Z * option error :=
  match blocks with
  | [] => (dst, [], written, ending)
  | block :: rest =>
      if (String.length block =? 0)%nat
      then io_Copy write dst rest ending written
      else
        let '(dst', nw, ew) := write dst block in
        let written := written + Z.of_nat nw in
        match ew with
        | Some err => (dst', rest, written, Some err)
        | None =>
            if (nw =? String.length block)%nat
            then io_Copy write dst' rest ending written
            else (dst', rest, written, Some ErrShortWrite)
        end
  end.

(** [checkClose(c, &err)] *)
Definition checkClose (cerr err : option error) : option error :=
  match err with
  | None => cerr
  | Some _ => err
  end.

Section Transfers.
Context (lib : GoLib) {T : Type} (RoundTrip : T -> Request -> T * Reply).

(** The header map [ObjectPut] hands to [storage]. *)
Definition ObjectPut_headers (Hash contentType : string)
    (h : option Headers) : Headers :=
  let contentType :=
    if nonEmpty contentType then contentType else "application/octet-stream" in
  let extraHeaders : Headers :=
    default ∅ h ∪ {[ "Content-Type" := contentType ]} in
  if nonEmpty Hash then <[ "Etag" := Hash ]> extraHeaders else extraHeaders.

(** [checkHash] after [if Hash != "" { ...; checkHash = false }]. *)
Definition ObjectPut_checkHash (checkHash : bool) (Hash : string) : bool :=
  if nonEmpty Hash then false else checkHash.

Definition ObjectPut_opts (container objectName : string) (checkHash : bool)
    (Hash contentType : string) (h : option Headers) : storageOpts :=
  mkStorageOpts container objectName "PUT" None
    (Some (ObjectPut_headers Hash contentType h)) objectErrorMap true
    (Some (if ObjectPut_checkHash checkHash Hash then TeeContents else Contents))
    0.

(** [hash := md5.New()] with the caller's reader [contents] in place. *)
Definition ObjectPut_begin (data : string) (w : World T) : World T :=
  mkWorld (net w) data "" (handshakes w) (idleFlushes w) (closes w) (sent w).

(** [Connection.ObjectPut]; [data] is what the reader [contents] holds. *)
Definition ObjectPut (container objectName : string) (data : string)
    (checkHash : bool) (Hash contentType : string) (h : option Headers)
    (c : Connection) (w : World T)
    : Connection * World T * (option Headers * option error) :=
  let '(c, w, r) :=
    storage lib RoundTrip
      (ObjectPut_opts container objectName checkHash Hash contentType h)
      c (ObjectPut_begin data w) in
  match ret_err r, ret_resp r with
  | Some err, _ => (c, w, (ret_headers r, Some err))
  | None, None => (c, w, (ret_headers r, None))
  | None, Some resp =>
      if ObjectPut_checkHash checkHash Hash then
        let receivedMd5 := ToLower lib (resp_Get (resp_Header resp) "Etag") in
        if String.eqb receivedMd5 (calculatedMd5 lib (hashed w))
        then (c, w, (ret_headers r, None))
        else (c, w, (ret_headers r, Some (Swift ObjectCorrupted)))
      else (c, w, (ret_headers r, None))
  end.

Definition ObjectGet_opts (container objectName : string)
    (h : option Headers) : storageOpts :=
  mkStorageOpts container objectName "GET" None h objectErrorMap false None 0.

(** What [ObjectGet] does with the open response, before the deferred
    [checkClose]: copy, compare the digest, compare the length. *)
Definition ObjectGet_transfer (resp : Response) (sink : Writer)
    (checkHash : bool) : Writer * list string * option error :=
  let '(dst, unread, written, cerr) :=
    io_Copy (if checkHash then MultiWriter_Write else plain_Write)
            (sink, "") (chunks (resp_Body resp)) (readErr (resp_Body resp)) 0 in
  match cerr with
  | Some err => (dst.1, unread, Some err)
  | None =>
      if checkHash &&
         negb (String.eqb (ToLower lib (resp_Get (resp_Header resp) "Etag"))
                          (calculatedMd5 lib dst.2))
      then (dst.1, unread, Some (Swift ObjectCorrupted))
      else if nonEmpty (resp_Get (resp_Header resp) "Content-Length") then
        match getInt64FromHeader lib resp "Content-Length" with
        | (_, Some err) => (dst.1, unread, Some err)
        | (objectLength, None) =>
            if objectLength =? written
            then (dst.1, unread, None)
            else (dst.1, unread, Some (Swift ObjectCorrupted))
        end
      else (dst.1, unread, None)
  end.

(** [Connection.ObjectGet]; also gives the sink and the response as the
    call leaves them. *)
Definition ObjectGet (container objectName : string) (sink : Writer)
    (checkHash : bool) (h : option Headers) (c : Connection) (w : World T)
    : Connection * World T * Writer * option Response
      * (option Headers * option error) :=
  let '(c, w, r) :=
    storage lib RoundTrip (ObjectGet_opts container objectName h) c w in
  match ret_err r, ret_resp r with
  | Some err, _ => (c, w, sink, ret_resp r, (ret_headers r, Some err))
  | None, None => (c, w, sink, None, (ret_headers r, None))
  | None, Some resp =>
      let '(sink', unread, err) := ObjectGet_transfer resp sink checkHash in
      let b := resp_Body resp in
      let resp' := mkResponse (resp_StatusCode resp) (resp_Status resp)
                     (resp_Header resp)
                     (mkBody unread (readErr b) (closeErr b) true) in
      (c, countClose w, sink', Some resp',
       (ret_headers r, checkClose (closeErr b) err))
  end.
End Transfers.

(** ** A simulated transport and sample data

    The transport of the retry tests: a handshake request (one without
    [X-Auth-Token]) is always granted; a resource request is answered 401
    while the counter is positive and with [final] afterwards. *)
Definition demoLib : GoLib :=
  mkGoLib (fun s => s) (fun _ => "") (fun s => s) (fun _ => "")
          (fun _ _ => None) map_to_list.

Definition demoBody (data : list string) : Body := mkBody data None None false.

Definition grantResponse : Response :=
  mkResponse 204 "204 No Content"
    (<[ "X-Storage-Url" := ("http://store/v1/acct", []) ]>
       {[ "X-Auth-Token" := ("tok", []) ]})
    (demoBody []).

Definition deniedResponse : Response :=
  mkResponse 401 "401 Unauthorized" ∅ (demoBody ["expired"]).

Definition isHandshake (req : Request) : bool :=
  bool_decide (req_Header req !! "X-Auth-Token" = None).

Definition demoTransport (final : Response) (n : nat) (req : Request)
    : nat * Reply :=
  if isHandshake req then (n, mkReply 0 (inr grantResponse))
  else match n with
       | O => (O, mkReply 0 (inr final))
       | S n' => (n', mkReply 0 (inr deniedResponse))
       end.

Definition demoConnection : Connection :=
  mkConnection "user" "key" "http://auth/v1.0" 3 "" "" "".

Definition demoWorld (n : nat) : World nat := mkWorld n "" "" 0 0 0 [].

Definition demoResponse (code : Z) (status : string) : Response :=
  mkResponse code status ∅ (demoBody ["payload"]).

(** The world after a handshake that the transport answered. *)
Definition afterHandshake {T} (c : Connection) (w : World T) (t' : T) : World T :=
  mkWorld t' (contents w) (hashed w) (S (handshakes w))
          (S (S (idleFlushes w))) (S (closes w))
          (sent w ++ [handshakeRequest (setDefaults c)])%list.

(** ** Transports that deny a number of times

    [grants resp]: a handshake response that authenticates: it passes the
    classification, carries both session headers and closes cleanly. *)
Definition grants (resp : Response) : Prop :=
  parseHeaders resp authErrorMap = None /\
  nonEmpty (resp_Get (resp_Header resp) "X-Storage-Url") = true /\
  nonEmpty (resp_Get (resp_Header resp) "X-Auth-Token") = true /\
  closeErr (resp_Body resp) = None.

(** [succeeds p resp]: a response [storage] returns without error. *)
Definition succeeds (p : storageOpts) (resp : Response) : Prop :=
  parseHeaders resp (opt_errorMap p) = None /\
  (noResponse p = true -> closeErr (resp_Body resp) = None).

(** [Denies RoundTrip p I]: in a state [t] with [I n t] the transport
    grants every handshake and answers the next [n] resource requests with
    401 and the one after them with a response that succeeds. *)
Record Denies {T} (RoundTrip : T -> Request -> T * Reply) (p : storageOpts)
    (I : nat -> T -> Prop) : Prop := mkDenies {
  denies_handshake : forall n t req, I n t -> isHandshake req = true ->
    exists t' m resp, RoundTrip t req = (t', mkReply m (inr resp)) /\
                      grants resp /\ I n t';
  denies_again : forall n t req, I (S n) t -> isHandshake req = false ->
    exists t' m resp, RoundTrip t req = (t', mkReply m (inr resp)) /\
                      resp_StatusCode resp = 401 /\ I n t';
  denies_last : forall t req, I O t -> isHandshake req = false ->
    exists t' m resp, RoundTrip t req = (t', mkReply m (inr resp)) /\
                      succeeds p resp
}.


(** A transport that answers every request with the same response. *)
Definition constTransport (resp : Response) (t : unit) (req : Request)
    : unit * Reply :=
  (t, mkReply 0 (inr resp)).

Definition unitWorld : World unit := mkWorld tt "" "" 0 0 0 [].


(** A handshake answer 200 with neither session header. *)
Definition bareResponse : Response :=
  mkResponse 200 "200 OK" ∅ (demoBody []).

(** A body is drained when no block is left to read. *)
Definition drained (b : Body) : Prop := chunks b = [].

(** The library with another digest function. *)
Definition withMd5 (lib : GoLib) (f : string -> string) : GoLib :=
  mkGoLib (unicodeToLower lib) f (strconv_Quote lib) (Values_Encode lib)
          (NewRequest_err lib) (rangeOrder lib).

(** The blocks of a body, end to end. *)
Definition joined (blocks : list string) : string :=
  foldr String.append "" blocks.

(** A sink that takes every block whole. *)
Definition demoSink : Writer :=
  mkWriter "" (fun _ p => (String.length p, None)).

(** An object answer that declares 50 bytes and delivers 40. *)
Definition truncatedResponse : Response :=
  mkResponse 200 "200 OK" {[ "Content-Length" := ("50", []) ]}
    (demoBody ["0123456789012345678901234567890123456789"]).


(** ** Further sample data and predicates *)

(** The requests a call of [storage] with the options [p] can send: the
    handshake of [Authenticate] and the request built from [p] and the
    session. *)
Definition dispatched (lib : GoLib) (p : storageOpts) (req : Request) : Prop :=
  (exists c, req = handshakeRequest c) \/
  (exists c, req = storage_request lib c p).

(** A response, if there is one, whose body has been closed. *)
Definition alreadyClosed (o : option Response) : Prop :=
  forall resp, o = Some resp -> closed (resp_Body resp) = true.

(** A transport that fails every request. *)
Definition failingTransport (e : error) (t : unit) (req : Request)
    : unit * Reply :=
  (t, mkReply 0 (inl e)).

(** A transport that sends every request round in redirects until the
    redirect check of the client fails: [Do] returns the error and the
    last redirect response. *)
Definition redirectingTransport (e : error) (resp : Response) (t : unit)
    (req : Request) : unit * Reply :=
  (t, mkReplyWith 0 (inl e) (Some resp)).

(** A connection that holds a session. *)
Definition liveConnection : Connection :=
  setSession demoConnection "http://store/v1/acct" "tok".

(** Header names as [net/http] hands them over in a response: made of
    token bytes and in canonical form. *)
Definition canonicalKeys (h : Headers) : Prop :=
  forall k, k ∈ dom h ->
    string_forall validHeaderFieldByte k = true /\ CanonicalHeaderKey k = k.

(** The headers of [h] whose name starts with [cp]. *)
Definition withPrefix (cp : string) (h : Headers) : Headers :=
  filter (fun kv : string * string => HasPrefix kv.1 cp = true) h.

(** ** The simplified transfers and the remaining updates *)

(** A [bytes.Buffer] that holds [s]: its [Write] takes every block whole. *)
Definition bytes_Buffer (s : string) : Writer :=
  mkWriter s (fun _ p => (String.length p, None)).

Section Simplified.
Context (lib : GoLib) {T : Type} (RoundTrip : T -> Request -> T * Reply).

(** [Connection.ObjectPutBytes] *)
Definition ObjectPutBytes (container objectName : string) (contents : string)
    (contentType : string) (c : Connection) (w : World T)
    : Connection * World T * option error :=
  let '(c, w, r) :=
    ObjectPut lib RoundTrip container objectName contents true "" contentType
              None c w in
  (c, w, r.2).

(** [Connection.ObjectPutString] *)
Definition ObjectPutString (container objectName : string) (contents : string)
    (contentType : string) (c : Connection) (w : World T)
    : Connection * World T * option error :=
  let '(c, w, r) :=
    ObjectPut lib RoundTrip container objectName contents true "" contentType
              None c w in
  (c, w, r.2).

(** [Connection.ObjectGetBytes] *)
Definition ObjectGetBytes (container objectName : string) (c : Connection)
    (w : World T) : Connection * World T * (string * option error) :=
  let '(c, w, buf, _, r) :=
    ObjectGet lib RoundTrip container objectName (bytes_Buffer "") true None c w in
  (c, w, (sunk buf, r.2)).

(** [Connection.ObjectGetString] *)
Definition ObjectGetString (container objectName : string) (c : Connection)
    (w : World T) : Connection * World T * (string * option error) :=
  let '(c, w, buf, _, r) :=
    ObjectGet lib RoundTrip container objectName (bytes_Buffer "") true None c w in
  (c, w, (sunk buf, r.2)).

Definition ContainerCreate_opts (container : string) (h : option Headers)
    : storageOpts :=
  mkStorageOpts container "" "PUT" None h containerErrorMap true None 0.

(** [Connection.ContainerCreate] *)
Definition ContainerCreate (container : string) (h : option Headers)
    (c : Connection) (w : World T) : Connection * World T * option error :=
  let '(c, w, r) := storage lib RoundTrip (ContainerCreate_opts container h) c w in
  (c, w, ret_err r).

Definition ContainerUpdate_opts (container : string) (h : option Headers)
    : storageOpts :=
  mkStorageOpts container "" "POST" None h containerErrorMap true None 0.

(** [Connection.ContainerUpdate] *)
Definition ContainerUpdate (container : string) (h : option Headers)
    (c : Connection) (w : World T) : Connection * World T * option error :=
  let '(c, w, r) := storage lib RoundTrip (ContainerUpdate_opts container h) c w in
  (c, w, ret_err r).
End Simplified.

(** The bytes hashed so far followed by the bytes the reader still holds. *)
Definition stream {T} (w : World T) : string := hashed w ++ contents w.

(** An object answer whose body comes in two blocks. *)
Definition twoBlockResponse : Response :=
  mkResponse 200 "200 OK" ∅ (demoBody ["hello "; "world"]).

(** A sink that takes at most four bytes of a block. *)
Definition narrowSink : Writer :=
  mkWriter "" (fun _ p => (Nat.min 4 (String.length p), None)).

(** A transport like [demoTransport] that reads the request body: two
    bytes before it answers 401, three before it gives the final answer. *)
Definition hungryTransport (final : Response) (n : nat) (req : Request)
    : nat * Reply :=
  if isHandshake req then (n, mkReply 0 (inr grantResponse))
  else match n with
       | O => (O, mkReply 3 (inr final))
       | S n' => (n', mkReply 2 (inr deniedResponse))
       end.

(** ** Listings *)

(** [url.Values.Set] *)
Definition Values_Set (v : gmap string (list string)) (key value : string)
    : gmap string (list string) :=
  <[ key := [value] ]> v.

Definition byte_of_Z (n : Z) : ascii := ascii_of_nat (Z.to_nat n).

(** [string(r)] for a rune [r]: its UTF-8 encoding, and that of U+FFFD
    for a value that is no valid code point. *)
Definition string_of_rune (r : Z) : string :=
  if (r <? 0) || (1114111 <? r) || ((55296 <=? r) && (r <=? 57343))
  then String (byte_of_Z 239) (String (byte_of_Z 191) (String (byte_of_Z 189) ""))
  else if r <? 128 then String (byte_of_Z r) ""
  else if r <? 2048 then
    String (byte_of_Z (Z.lor 192 (Z.shiftr r 6)))
      (String (byte_of_Z (Z.lor 128 (Z.land r 63))) "")
  else if r <? 65536 then
    String (byte_of_Z (Z.lor 224 (Z.shiftr r 12)))
      (String (byte_of_Z (Z.lor 128 (Z.land (Z.shiftr r 6) 63)))
        (String (byte_of_Z (Z.lor 128 (Z.land r 63))) ""))
  else
    String (byte_of_Z (Z.lor 240 (Z.shiftr r 18)))
      (String (byte_of_Z (Z.lor 128 (Z.land (Z.shiftr r 12) 63)))
        (String (byte_of_Z (Z.lor 128 (Z.land (Z.shiftr r 6) 63)))
          (String (byte_of_Z (Z.lor 128 (Z.land r 63))) ""))).

(** [ContainersOpts] and its [parse]; a [nil] pointer is [None]. *)
Module ContainersOpts.
Record t := mk {
  Limit : Z;
  Marker : string;
  EndMarker : string;
  Headers : option (gmap string string)
}.

Definition parse (opts : option t)
    : gmap string (list string) * option (gmap string string) :=
  let v : gmap string (list string) := ∅ in
  match opts with
  | Some opts =>
      let v := if Limit opts >? 0 then Values_Set v "limit" (Itoa (Limit opts))
               else v in
      let v := if nonEmpty (Marker opts) then Values_Set v "marker" (Marker opts)
               else v in
      let v := if nonEmpty (EndMarker opts)
               then Values_Set v "end_marker" (EndMarker opts) else v in
      (v, Headers opts)
  | None => (v, None)
  end.
End ContainersOpts.

(** [ObjectsOpts] and its [parse]. *)
Module ObjectsOpts.
Record t := mk {
  Limit : Z;
  Marker : string;
  EndMarker : string;
  Prefix : string;
  Path : string;
  Delimiter : Z;
  Headers : option (gmap string string)
}.

Definition parse (opts : option t)
    : gmap string (list string) * option (gmap string string) :=
  let v : gmap string (list string) := ∅ in
  match opts with
  | Some opts =>
      let v := if Limit opts >? 0 then Values_Set v "limit" (Itoa (Limit opts))
               else v in
      let v := if nonEmpty (Marker opts) then Values_Set v "marker" (Marker opts)
               else v in
      let v := if nonEmpty (EndMarker opts)
               then Values_Set v "end_marker" (EndMarker opts) else v in
      let v := if nonEmpty (Prefix opts) then Values_Set v "prefix" (Prefix opts)
               else v in
      let v := if nonEmpty (Path opts) then Values_Set v "path" (Path opts)
               else v in
      let v := if negb (Delimiter opts =? 0)
               then Values_Set v "delimiter" (string_of_rune (Delimiter opts))
               else v in
      (v, Headers opts)
  | None => (v, None)
  end.
End ObjectsOpts.

(** [Container] *)
Record Container_t := mkContainer {
  ctr_Name : string;
  ctr_Count : Z;
  ctr_Bytes : Z
}.

(** [Object]; [Time] stands for [time.Time]. *)
Record Object_t (Time : Type) := mkObject {
  Name : string;
  ContentType : string;
  Bytes : Z;
  ServerLastModified : string;
  LastModified : Time;
  Hash : string;
  PseudoDirectory : bool;
  SubDir : string
}.
Arguments mkObject {Time}.
Arguments Name {Time}.
Arguments ContentType {Time}.
Arguments Bytes {Time}.
Arguments ServerLastModified {Time}.
Arguments LastModified {Time}.
Arguments Hash {Time}.
Arguments PseudoDirectory {Time}.
Arguments SubDir {Time}.

Definition TimeFormat : string := "2006-01-02T15:04:05".
Definition http_TimeFormat : string := "Mon, 02 Jan 2006 15:04:05 GMT".

Definition io_EOF : error := Library "EOF".

(** What the listings call in the Go library beyond [GoLib]:
    - [bufio_ReadLine]: the results of the successive [ReadLine] calls of
      a [bufio.Reader] on the body: the pairs [(part, isPrefix)] returned
      with a [nil] error, then the first error, [io.EOF] at the end of the
      body;
    - [json_Containers], [json_Objects]: what [json.Decoder.Decode] on the
      body leaves in a slice that was [nil], and the error it returns;
    - [time_Parse]: [time.Parse(layout, value)];
    - [zeroTime]: the zero [time.Time]. *)
Record ListLib (Time : Type) := mkListLib {
  bufio_ReadLine : Body -> list (string * bool) * error;
  json_Containers : Body -> list Container_t * option error;
  json_Objects : Body -> list (Object_t Time) * option error;
  time_Parse : string -> string -> Time * option error;
  zeroTime : Time
}.
Arguments bufio_ReadLine {Time}.
Arguments json_Containers {Time}.
Arguments json_Objects {Time}.
Arguments time_Parse {Time}.
Arguments zeroTime {Time}.

(** The loop of [readLines] over the results of [ReadLine] that came
    without error: a part is written to the buffer, and a part that is not
    a prefix completes a line. *)
Fixpoint readLines_loop (results : list (string * bool)) (buffer : string)
    (lines : list string) : list string :=
  match results with
  | [] => lines
  | (part, prefix) :: rest =>
      let buffer := buffer ++ part in
      if prefix : bool then readLines_loop rest buffer lines
      else readLines_loop rest "" (lines ++ [buffer])%list
  end.

(** [strings.SplitN(s, ".", 2)[0]]: [s] up to its first dot. *)
Fixpoint beforeDot (s : string) : string :=
  match s with
  | EmptyString => EmptyString
  | String c s' => if Ascii.eqb c "." then EmptyString else String c (beforeDot s')
  end.

Section Listings.
Context (lib : GoLib) {Time : Type} (llib : ListLib Time).
Context {T : Type} (RoundTrip : T -> Request -> T * Reply).

(** [readLines]; the response is not used again. *)
Definition readLines (resp : Response) (w : World T)
    : World T * (list string * option error) :=
  let '(results, ending) := bufio_ReadLine llib (resp_Body resp) in
  let lines := readLines_loop results "" [] in
  let err := if decide (ending = io_EOF) then None else Some ending in
  (countClose w, (lines, checkClose (closeErr (resp_Body resp)) err)).

(** [readJson] *)
Definition readJson {A} (decode : Body -> A * option error) (resp : Response)
    (w : World T) : World T * (A * option error) :=
  let '(result, err) := decode (resp_Body resp) in
  (countClose w, (result, checkClose (closeErr (resp_Body resp)) err)).

Definition ContainerNames_opts (opts : option ContainersOpts.t) : storageOpts :=
  let '(v, h) := ContainersOpts.parse opts in
  mkStorageOpts "" "" "GET" (Some v) h containerErrorMap false None 0.

(** [Connection.ContainerNames].  [storage] gives a response whenever it
    gives no error. *)
Definition ContainerNames (opts : option ContainersOpts.t) (c : Connection)
    (w : World T) : Connection * World T * (list string * option error) :=
  let '(c, w, r) := storage lib RoundTrip (ContainerNames_opts opts) c w in
  match ret_err r, ret_resp r with
  | Some err, _ => (c, w, ([], Some err))
  | None, None => (c, w, ([], None))
  | None, Some resp => let '(w, res) := readLines resp w in (c, w, res)
  end.

Definition Containers_opts (opts : option ContainersOpts.t) : storageOpts :=
  let '(v, h) := ContainersOpts.parse opts in
  let v := Values_Set v "format" "json" in
  mkStorageOpts "" "" "GET" (Some v) h containerErrorMap false None 0.

(** [Connection.Containers] *)
Definition Connection_Containers (opts : option ContainersOpts.t)
    (c : Connection) (w : World T)
    : Connection * World T * (list Container_t * option error) :=
  let '(c, w, r) := storage lib RoundTrip (Containers_opts opts) c w in
  match ret_err r, ret_resp r with
  | Some err, _ => (c, w, ([], Some err))
  | None, None => (c, w, ([], None))
  | None, Some resp =>
      let '(w, res) := readJson (json_Containers llib) resp w in (c, w, res)
  end.

Definition ObjectNames_opts (container : string) (opts : option ObjectsOpts.t)
    : storageOpts :=
  let '(v, h) := ObjectsOpts.parse opts in
  mkStorageOpts container "" "GET" (Some v) h containerErrorMap false None 0.

(** [Connection.ObjectNames] *)
Definition ObjectNames (container : string) (opts : option ObjectsOpts.t)
    (c : Connection) (w : World T)
    : Connection * World T * (list string * option error) :=
  let '(c, w, r) := storage lib RoundTrip (ObjectNames_opts container opts) c w in
  match ret_err r, ret_resp r with
  | Some err, _ => (c, w, ([], Some err))
  | None, None => (c, w, ([], None))
  | None, Some resp => let '(w, res) := readLines resp w in (c, w, res)
  end.

Definition Objects_opts (container : string) (opts : option ObjectsOpts.t)
    : storageOpts :=
  let '(v, h) := ObjectsOpts.parse opts in
  let v := Values_Set v "format" "json" in
  mkStorageOpts container "" "GET" (Some v) h containerErrorMap false None 0.

(** The first [if] of the loop of [Objects]: a pseudo directory. *)
Definition Objects_subdir (object : Object_t Time) : Object_t Time :=
  if nonEmpty (SubDir object)
  then mkObject (SubDir object) "application/directory" (Bytes object)
                (ServerLastModified object) (LastModified object)
                (Hash object) true (SubDir object)
  else object.

Definition setLastModified (object : Object_t Time) (t : Time) : Object_t Time :=
  mkObject (Name object) (ContentType object) (Bytes object)
           (ServerLastModified object) t (Hash object)
           (PseudoDirectory object) (SubDir object).

(** The loop of [Objects] from index [i] on, [err] being the variable the
    loop assigns to: [None] for the slice is the [return nil, err] inside
    the loop. *)
Fixpoint Objects_loop (objects : list (Object_t Time)) (err : option error)
    : option (list (Object_t Time)) * option error :=
  match objects with
  | [] => (Some [], err)
  | object :: rest =>
      let object := Objects_subdir object in
      if nonEmpty (ServerLastModified object) then
        let datetime := beforeDot (ServerLastModified object) in
        let '(t, perr) := time_Parse llib TimeFormat datetime in
        match perr with
        | Some e => (None, Some e)
        | None =>
            let '(objects', err') := Objects_loop rest None in
            (cons (setLastModified object t) <$> objects', err')
        end
      else
        let '(objects', err') := Objects_loop rest err in
        (cons object <$> objects', err')
  end.

(** [Connection.Objects] *)
Definition Connection_Objects (container : string)
    (opts : option ObjectsOpts.t) (c : Connection) (w : World T)
    : Connection * World T * (option (list (Object_t Time)) * option error) :=
  let '(c, w, r) := storage lib RoundTrip (Objects_opts container opts) c w in
  match ret_err r, ret_resp r with
  | Some err, _ => (c, w, (None, Some err))
  | None, None => (c, w, (None, None))
  | None, Some resp =>
      let '(w, (objects, err)) := readJson (json_Objects llib) resp w in
      (c, w, Objects_loop objects err)
  end.

Definition Container_opts (container : string) : storageOpts :=
  mkStorageOpts container "" "HEAD" None None containerErrorMap true None 0.

(** [Connection.Container] *)
Definition Container (container : string) (c : Connection) (w : World T)
    : Connection * World T * (Container_t * option Headers * option error) :=
  let '(c, w, r) := storage lib RoundTrip (Container_opts container) c w in
  match ret_err r, ret_resp r with
  | Some err, _ => (c, w, (mkContainer "" 0 0, ret_headers r, Some err))
  | None, None => (c, w, (mkContainer "" 0 0, ret_headers r, None))
  | None, Some resp =>
      let '(bytes, e1) := getInt64FromHeader lib resp "X-Container-Bytes-Used" in
      match e1 with
      | Some err => (c, w, (mkContainer container 0 bytes, ret_headers r, Some err))
      | None =>
          let '(count, e2) :=
            getInt64FromHeader lib resp "X-Container-Object-Count" in
          (c, w, (mkContainer container count bytes, ret_headers r, e2))
      end
  end.

Definition Object_opts (container objectName : string) : storageOpts :=
  mkStorageOpts container objectName "HEAD" None None objectErrorMap true None 0.

(** [Connection.Object] *)
Definition Object (container objectName : string) (c : Connection)
    (w : World T)
    : Connection * World T * (Object_t Time * option Headers * option error) :=
  let zero := mkObject "" "" 0 "" (zeroTime llib) "" false "" in
  let '(c, w, r) := storage lib RoundTrip (Object_opts container objectName) c w in
  match ret_err r, ret_resp r with
  | Some err, _ => (c, w, (zero, ret_headers r, Some err))
  | None, None => (c, w, (zero, ret_headers r, None))
  | None, Some resp =>
      let contentType := resp_Get (resp_Header resp) "Content-Type" in
      let '(bytes, e1) := getInt64FromHeader lib resp "Content-Length" in
      match e1 with
      | Some err =>
          (c, w, (mkObject objectName contentType bytes "" (zeroTime llib) ""
                           false "", ret_headers r, Some err))
      | None =>
          let modified := resp_Get (resp_Header resp) "Last-Modified" in
          let '(t, e2) := time_Parse llib http_TimeFormat modified in
          match e2 with
          | Some err =>
              (c, w, (mkObject objectName contentType bytes modified t ""
                               false "", ret_headers r, Some err))
          | None =>
              (c, w, (mkObject objectName contentType bytes modified t
                               (resp_Get (resp_Header resp) "Etag") false "",
                      ret_headers r, None))
          end
      end
  end.
End Listings.

(** Sample data for the listings: a clock that reads the hour of a
    timestamp of the form [hh:mm] and rejects everything else. *)
Definition demoParse (layout value : string) : Z * option error :=
  match value with
  | String a (String b (String ":" _)) =>
      if isDigitByte a && isDigitByte b
      then (Z.of_nat (10 * (byteval a - 48) + (byteval b - 48)), None)
      else (0, Some (Library "parsing time: bad hour"))
  | _ => (0, Some (Library "parsing time: bad layout"))
  end.

Definition demoListLib (results : list (string * bool)) (ending : error)
    (objects : list (Object_t Z)) (derr : option error) : ListLib Z :=
  mkListLib Z (fun _ => (results, ending)) (fun _ => ([], None))
            (fun _ => (objects, derr)) demoParse 0.

(** What the loop of [Objects] makes of one entry whose timestamp, if it
    has one, parses. *)
Definition Objects_entry {Time} (llib : ListLib Time) (object : Object_t Time)
    : Object_t Time :=
  let object := Objects_subdir object in
  if nonEmpty (ServerLastModified object)
  then setLastModified object
         (time_Parse llib TimeFormat (beforeDot (ServerLastModified object))).1
  else object.

(** The timestamp of the entry, if it has one, parses. *)
Definition timestampParses {Time} (llib : ListLib Time) (object : Object_t Time)
    : Prop :=
  ServerLastModified object <> "" ->
  (time_Parse llib TimeFormat (beforeDot (ServerLastModified object))).2 = None.

Definition hasTimestamp {Time} (object : Object_t Time) : bool :=
  nonEmpty (ServerLastModified object).

(** The parts that [ReadLine] flagged as complete. *)
Definition completeParts (results : list (string * bool)) : list (string * bool) :=
  filter (fun r => r.2 = false) results.

(** An account answer with its three counts. *)
Definition accountResponse : Response :=
  mkResponse 204 "204 No Content"
    (<[ "X-Account-Bytes-Used" := ("316598182", []) ]>
       (<[ "X-Account-Container-Count" := ("4", []) ]>
          {[ "X-Account-Object-Count" := ("1433", []) ]}))
    (demoBody []).

(** An object answer to a [HEAD]. *)
Definition headResponse : Response :=
  mkResponse 200 "200 OK"
    (<[ "Content-Length" := ("512000", []) ]>
       (<[ "Content-Type" := ("text/plain", []) ]>
          (<[ "Last-Modified" := ("13:40", []) ]>
             {[ "Etag" := ("8a964ee2a5e88be344f36c22562a6486", []) ]})))
    (demoBody []).

(** * Theorems *)

(** ** Bytes, strings and canonical keys *)

Lemma canonByte_toLower up c : toLowerByte (canonByte up c) = toLowerByte c.
Proof.
  destruct up; destruct c as [[] [] [] [] [] [] [] []]; reflexivity.
Qed.

Lemma valid_isASCII c : validHeaderFieldByte c = true -> isASCIIByte c = true.
Proof.
  destruct c as [[] [] [] [] [] [] [] []]; vm_compute; congruence.
Qed.

Lemma canonByte_isASCII up c : isASCIIByte (canonByte up c) = isASCIIByte c.
Proof.
  destruct up; destruct c as [[] [] [] [] [] [] [] []]; reflexivity.
Qed.

Lemma string_forall_app f a b :
  string_forall f (a ++ b) = string_forall f a && string_forall f b.
Proof.
  induction a as [|c a IH]; simpl; [reflexivity|].
  rewrite IH. apply andb_assoc.
Qed.

Lemma canonLoop_app up a b :
  exists up', canonLoop up (a ++ b) = canonLoop up a ++ canonLoop up' b.
Proof.
  revert up. induction a as [|c a IH]; intros up; simpl.
  - exists up. reflexivity.
  - destruct (IH (isDash (canonByte up c))) as [up' E].
    exists up'. rewrite E. reflexivity.
Qed.

Lemma HasPrefix_app a b : HasPrefix (a ++ b) a = true.
Proof.
  induction a as [|c a IH]; simpl; [destruct b; reflexivity|].
  destruct (ascii_dec c c); [assumption | congruence].
Qed.

Lemma string_drop_app a b : string_drop (String.length a) (a ++ b) = b.
Proof. induction a as [|c a IH]; simpl; [reflexivity | assumption]. Qed.

Lemma canonLoop_isASCII up s :
  string_forall isASCIIByte (canonLoop up s) = string_forall isASCIIByte s.
Proof.
  revert up. induction s as [|c s IH]; intros up; simpl; [reflexivity|].
  rewrite canonByte_isASCII, IH. reflexivity.
Qed.

Lemma canonLoop_map_toLower up s :
  string_map toLowerByte (canonLoop up s) = string_map toLowerByte s.
Proof.
  revert up. induction s as [|c s IH]; intros up; simpl; [reflexivity|].
  rewrite canonByte_toLower, IH. reflexivity.
Qed.

Lemma valid_string_isASCII s :
  string_forall validHeaderFieldByte s = true ->
  string_forall isASCIIByte s = true.
Proof.
  induction s as [|c s IH]; simpl; [reflexivity|].
  intros [Hc Hs]%andb_prop. rewrite (valid_isASCII _ Hc). simpl. auto.
Qed.

Lemma ToLower_canonLoop lib up s :
  string_forall validHeaderFieldByte s = true ->
  ToLower lib (canonLoop up s) = ToLower lib s.
Proof.
  intros Hv. unfold ToLower.
  rewrite canonLoop_isASCII, canonLoop_map_toLower.
  rewrite (valid_string_isASCII _ Hv). reflexivity.
Qed.

(** The step both directions of the codec rest on: the canonical form of
    [metaPrefix ++ key] starts with the canonical prefix, and what follows
    it is [key] up to letter case. *)
Lemma canonical_key_splits lib p k :
  CanonicalHeaderKey p = p \/ string_forall validHeaderFieldByte k = true ->
  HasPrefix (CanonicalHeaderKey (p ++ k)) (CanonicalHeaderKey p) = true /\
  ToLower lib (string_drop (String.length (CanonicalHeaderKey p))
                           (CanonicalHeaderKey (p ++ k))) = ToLower lib k.
Proof.
  intros H. unfold CanonicalHeaderKey in *.
  rewrite string_forall_app.
  destruct (string_forall validHeaderFieldByte p) eqn:Hp; simpl.
  - destruct (string_forall validHeaderFieldByte k) eqn:Hk.
    + destruct (canonLoop_app true p k) as [up' ->].
      rewrite HasPrefix_app, string_drop_app.
      split; [reflexivity | apply ToLower_canonLoop; assumption].
    + destruct H as [H|H]; [|discriminate].
      rewrite H, HasPrefix_app, string_drop_app. split; reflexivity.
  - rewrite HasPrefix_app, string_drop_app. split; reflexivity.
Qed.

(** ** Loops over maps

    Both loops of the codec visit the entries of a map and write each one
    at a key computed from its own key, or skip it. *)
Local Open Scope list_scope.

Section RangeInsert.
Context {V : Type} (f : string -> option string).

Lemma range_insert_lookup (l : list (string * V)) k' v :
  NoDup l.*1 ->
  (forall k1 k2, k1 ∈ l.*1 -> k2 ∈ l.*1 ->
                 f k1 = Some k' -> f k2 = Some k' -> k1 = k2) ->
  foldl (range_step f) ∅ l !! k' = Some v <-> exists k, (k, v) ∈ l /\ f k = Some k'.
Proof.
  induction l as [|[k0 v0] l IH] using rev_ind; intros Hnd Hinj.
  - simpl. rewrite lookup_empty. split; [discriminate|].
    intros (k & Hin & _). inversion Hin.
  - rewrite fmap_app in Hnd. apply NoDup_app in Hnd as (Hnd & Hfresh & _).
    assert (IH' := IH Hnd). clear IH.
    rewrite foldl_app. simpl. unfold range_step at 1. simpl.
    assert (Hsub : forall k, k ∈ l.*1 -> k ∈ (l ++ [(k0, v0)]).*1).
    { intros k Hk. rewrite fmap_app. apply elem_of_app. by left. }
    assert (Hlast : k0 ∈ (l ++ [(k0, v0)]).*1).
    { rewrite fmap_app. apply elem_of_app. right. simpl. apply list_elem_of_here. }
    destruct (f k0) as [k''|] eqn:Hf0.
    + destruct (decide (k'' = k')) as [->|Hne].
      * rewrite lookup_insert_eq. split.
        -- intros [= <-]. exists k0. split; [|assumption].
           apply elem_of_app. right. apply list_elem_of_here.
        -- intros (k & Hin & Hfk).
           apply elem_of_app in Hin as [Hin|Hin].
           ++ exfalso. apply (Hfresh k).
              ** apply list_elem_of_fmap. exists (k, v). by split.
              ** assert (k = k0) as ->.
                 { apply Hinj; auto. apply Hsub.
                   apply list_elem_of_fmap. exists (k, v). by split. }
                 simpl. apply list_elem_of_here.
           ++ apply list_elem_of_singleton in Hin. congruence.
      * rewrite lookup_insert_ne by assumption.
        rewrite IH' by (intros; apply Hinj; auto). split.
        -- intros (k & Hin & Hfk). exists k. split; [|assumption].
           apply elem_of_app. by left.
        -- intros (k & Hin & Hfk).
           apply elem_of_app in Hin as [Hin|Hin]; [by exists k|].
           apply list_elem_of_singleton in Hin. congruence.
    + rewrite IH' by (intros; apply Hinj; auto). split.
      * intros (k & Hin & Hfk). exists k. split; [|assumption].
        apply elem_of_app. by left.
      * intros (k & Hin & Hfk).
        apply elem_of_app in Hin as [Hin|Hin]; [by exists k|].
        apply list_elem_of_singleton in Hin. congruence.
Qed.

(** Read through the map itself rather than the visiting order. *)
Lemma range_insert_spec (m : gmap string V) l k' v :
  ranges m l ->
  (forall k1 k2, k1 ∈ dom m -> k2 ∈ dom m ->
                 f k1 = Some k' -> f k2 = Some k' -> k1 = k2) ->
  foldl (range_step f) ∅ l !! k' = Some v <-> exists k, m !! k = Some v /\ f k = Some k'.
Proof.
  intros Hl Hinj. unfold ranges in Hl.
  assert (Hdom : forall k, k ∈ l.*1 -> k ∈ dom m).
  { intros k Hk. apply list_elem_of_fmap in Hk as ([k1 v1] & -> & Hin).
    rewrite Hl in Hin. apply elem_of_map_to_list in Hin.
    apply elem_of_dom. eauto. }
  rewrite range_insert_lookup.
  - split; intros (k & Hk & Hf); exists k; (split; [|assumption]).
    + rewrite Hl in Hk. by apply elem_of_map_to_list in Hk.
    + rewrite Hl. by apply elem_of_map_to_list.
  - rewrite Hl. apply NoDup_fst_map_to_list.
  - intros k1 k2 H1 H2. apply Hinj; auto.
Qed.
End RangeInsert.

Lemma foldl_pointwise {A B} (f g : A -> B -> A) (l : list B) (a : A) :
  (forall a x, f a x = g a x) -> foldl f a l = foldl g a l.
Proof.
  intros H. revert a. induction l as [|x l IH]; intros a; simpl; [reflexivity|].
  rewrite H. apply IH.
Qed.

(** ** MetadataCodec: the round trip *)

Section RoundTrip.
Variable lib : GoLib.

Lemma Headers_Metadata_lookup (h : Headers) l p k' v :
  ranges h l ->
  (forall k1 k2, k1 ∈ dom h -> k2 ∈ dom h ->
     metaKey lib (CanonicalHeaderKey p) k1 = Some k' ->
     metaKey lib (CanonicalHeaderKey p) k2 = Some k' -> k1 = k2) ->
  Headers_Metadata lib l p !! k' = Some v <->
  exists k, h !! k = Some v /\ metaKey lib (CanonicalHeaderKey p) k = Some k'.
Proof.
  intros Hl Hinj. unfold Headers_Metadata.
  rewrite (foldl_pointwise _ (range_step (metaKey lib (CanonicalHeaderKey p)))).
  - apply range_insert_spec; assumption.
  - intros a [k v0]. unfold Metadata_step, range_step, metaKey. simpl.
    destruct (HasPrefix k (CanonicalHeaderKey p)); reflexivity.
Qed.

Lemma Metadata_Headers_lookup (m : Metadata) l p k' v :
  ranges m l ->
  (forall k1 k2, k1 ∈ dom m -> k2 ∈ dom m ->
     CanonicalHeaderKey (p +:+ k1) = k' ->
     CanonicalHeaderKey (p +:+ k2) = k' -> k1 = k2) ->
  Metadata_Headers l p !! k' = Some v <->
  exists k, m !! k = Some v /\ CanonicalHeaderKey (p +:+ k) = k'.
Proof.
  intros Hl Hinj. unfold Metadata_Headers.
  rewrite (foldl_pointwise _
    (range_step (fun k => Some (CanonicalHeaderKey (p +:+ k))))).
  - rewrite (range_insert_spec (fun k => Some (CanonicalHeaderKey (p +:+ k))) m).
    + split; intros (k & Hk & E); exists k; (split; [assumption|]); congruence.
    + assumption.
    + intros k1 k2 H1 H2 [= E1] [= E2]. by apply Hinj.
  - intros a [k v0]. reflexivity.
Qed.

Lemma lowerKeyed_lookup (m : Metadata) k' v :
  caseDistinct lib m ->
  lowerKeyed lib m !! k' = Some v <->
  exists k, m !! k = Some v /\ ToLower lib k = k'.
Proof.
  intros Hd. unfold lowerKeyed.
  rewrite <- elem_of_list_to_map.
  - rewrite list_elem_of_fmap. split.
    + intros ([k v0] & [= -> ->] & Hin). exists k.
      split; [by apply elem_of_map_to_list | reflexivity].
    + intros (k & Hk & <-). exists (k, v).
      split; [reflexivity | by apply elem_of_map_to_list].
  - rewrite <- list_fmap_compose.
    change (NoDup ((ToLower lib ∘ fst) <$> map_to_list m)).
    rewrite list_fmap_compose. apply NoDup_fmap_2_strong.
    + intros k1 k2 H1 H2. apply Hd.
      * apply list_elem_of_fmap in H1 as ([? ?] & -> & Hin).
        apply elem_of_map_to_list in Hin. apply elem_of_dom. eauto.
      * apply list_elem_of_fmap in H2 as ([? ?] & -> & Hin).
        apply elem_of_map_to_list in Hin. apply elem_of_dom. eauto.
    + apply NoDup_fst_map_to_list.
Qed.

Lemma lowerKeyed_id (m : Metadata) : lowerCaseKeys lib m -> lowerKeyed lib m = m.
Proof.
  intros Hlow.
  assert (Hd : caseDistinct lib m).
  { intros k1 k2 H1 H2. rewrite (Hlow _ H1), (Hlow _ H2). auto. }
  apply map_eq. intros k'. apply option_eq. intros v.
  rewrite lowerKeyed_lookup by assumption. split.
  - intros (k & Hk & <-). rewrite Hlow; [assumption|].
    apply elem_of_dom. eauto.
  - intros Hk. exists k'. split; [assumption|].
    apply Hlow. apply elem_of_dom. eauto.
Qed.
End RoundTrip.

Lemma metaKey_canonical lib p k :
  CanonicalHeaderKey p = p \/ string_forall validHeaderFieldByte k = true ->
  metaKey lib (CanonicalHeaderKey p) (CanonicalHeaderKey (p +:+ k))
  = Some (ToLower lib k).
Proof.
  intros H. unfold metaKey.
  destruct (canonical_key_splits lib p k H) as [-> ->]. reflexivity.
Qed.

(** C2 (as amended).  Converting metadata to headers and back returns the
    metadata with its keys lower-cased, whatever the two visiting orders,
    provided no two keys share a lower-case form and the prefix is in
    canonical form (or every key is made of header token bytes); when the
    keys are lower-case already the result is the metadata itself. *)
Theorem metadata_round_trip lib (m : Metadata) p l1 l2 :
  prefixFits p m ->
  caseDistinct lib m ->
  ranges m l1 ->
  ranges (Metadata_Headers l1 p) l2 ->
  Headers_Metadata lib l2 p = lowerKeyed lib m /\
  (lowerCaseKeys lib m -> Headers_Metadata lib l2 p = m).
Proof.
  intros Hfit Hd Hl1 Hl2.
  assert (Hkey : forall k, k ∈ dom m ->
            metaKey lib (CanonicalHeaderKey p) (CanonicalHeaderKey (p +:+ k))
            = Some (ToLower lib k)).
  { intros k Hk. apply metaKey_canonical.
    destruct Hfit as [Hp|Hv]; [by left | right; by apply Hv]. }
  assert (Hinj1 : forall k1 k2, k1 ∈ dom m -> k2 ∈ dom m ->
            CanonicalHeaderKey (p +:+ k1) = CanonicalHeaderKey (p +:+ k2) ->
            k1 = k2).
  { intros k1 k2 H1 H2 E. apply Hd; [assumption..|].
    assert (Some (ToLower lib k1) = Some (ToLower lib k2)) as [= ->];
      [|reflexivity].
    rewrite <- (Hkey _ H1), <- (Hkey _ H2), E. reflexivity. }
  assert (Hh : forall k' v, Metadata_Headers l1 p !! k' = Some v <->
            exists k, m !! k = Some v /\ CanonicalHeaderKey (p +:+ k) = k').
  { intros k' v. apply Metadata_Headers_lookup; [assumption|].
    intros k1 k2 H1 H2 E1 E2. apply Hinj1; congruence. }
  assert (Hdomh : forall kh, kh ∈ dom (Metadata_Headers l1 p) ->
            exists k, k ∈ dom m /\ CanonicalHeaderKey (p +:+ k) = kh).
  { intros kh [v Hv]%elem_of_dom. apply Hh in Hv as (k & Hk & E).
    exists k. split; [apply elem_of_dom; eauto | assumption]. }
  assert (Heq : Headers_Metadata lib l2 p = lowerKeyed lib m).
  { apply map_eq. intros k'. apply option_eq. intros v.
    rewrite (Headers_Metadata_lookup lib (Metadata_Headers l1 p)); [|assumption|].
    - rewrite lowerKeyed_lookup by assumption. split.
      + intros (kh & Hkh & Hmk). apply Hh in Hkh as (k & Hk & <-).
        exists k. split; [assumption|].
        rewrite Hkey in Hmk by (apply elem_of_dom; eauto). congruence.
      + intros (k & Hk & <-). exists (CanonicalHeaderKey (p +:+ k)). split.
        * apply Hh. eauto.
        * apply Hkey. apply elem_of_dom. eauto.
    - intros kh1 kh2 H1 H2 E1 E2.
      apply Hdomh in H1 as (k1 & Hk1 & <-). apply Hdomh in H2 as (k2 & Hk2 & <-).
      rewrite Hkey in E1, E2 by assumption.
      f_equal. f_equal. apply Hd; congruence. }
  split; [assumption|].
  intros Hlow. rewrite Heq. by apply lowerKeyed_id.
Qed.

(** The round trip of a two-entry object metadata, one key capitalised. *)
Lemma metadata_round_trip_witness :
  let m : Metadata := <[ "Color" := "red" ]> {[ "size" := "9" ]} in
  let l1 := map_to_list m in
  let l2 := map_to_list (Metadata_Headers l1 "X-Object-Meta-") in
  Headers_Metadata demoLib l2 "X-Object-Meta-" = lowerKeyed demoLib m /\
  (lowerCaseKeys demoLib m -> Headers_Metadata demoLib l2 "X-Object-Meta-" = m).
Proof.
  intros m l1 l2.
  apply (metadata_round_trip demoLib m "X-Object-Meta-" l1 l2).
  - left. reflexivity.
  - intros k1 k2 H1 H2. subst m.
    rewrite dom_insert_L, dom_singleton_L in H1, H2.
    apply elem_of_union in H1 as [H1|H1], H2 as [H2|H2];
      apply elem_of_singleton in H1, H2; subst k1 k2;
      vm_compute; congruence.
  - unfold ranges. reflexivity.
  - unfold ranges. reflexivity.
Defined.

(** C2 as stated fails, twice.  With the prefix [x-meta-], which is not in
    canonical form, the lower-case key ["a b"] holds a space, so
    [CanonicalHeaderKey] leaves [x-meta-a b] alone and [Headers.Metadata],
    looking for the prefix [X-Meta-], drops the entry.  And with the keys
    ["A"] and ["a"], which share a header, the round trip keeps the value
    of whichever key [range] visited last: two runs on the same metadata
    return different maps. *)
Lemma metadata_round_trip_counterexample :
  let m : Metadata := {[ "a b" := "v" ]} in
  let l1 := map_to_list m in
  let l2 := map_to_list (Metadata_Headers l1 "x-meta-") in
  let m' : Metadata := <[ "A" := "1" ]> {[ "a" := "2" ]} in
  let la := [("A", "1"); ("a", "2")] in
  let lb := [("a", "2"); ("A", "1")] in
  let p := "X-Object-Meta-" in
  (lowerCaseKeys demoLib m /\ ranges m l1 /\
   ranges (Metadata_Headers l1 "x-meta-") l2 /\
   Headers_Metadata demoLib l2 "x-meta-" = ∅ /\
   Headers_Metadata demoLib l2 "x-meta-" <> m) /\
  (ranges m' la /\ ranges m' lb /\
   Headers_Metadata demoLib (map_to_list (Metadata_Headers la p)) p
     = {[ "a" := "2" ]} /\
   Headers_Metadata demoLib (map_to_list (Metadata_Headers lb p)) p
     = {[ "a" := "1" ]}).
Proof.
  intros m l1 l2 m' la lb p. split.
  - split; [|split; [|split; [|split]]].
    + intros k Hk. subst m. rewrite dom_singleton_L in Hk.
      apply elem_of_singleton in Hk. subst k. reflexivity.
    + unfold ranges. reflexivity.
    + unfold ranges. reflexivity.
    + vm_compute. reflexivity.
    + intros E. apply (f_equal (fun x : Metadata => x !! "a b")) in E.
      vm_compute in E. discriminate.
  - assert (E : map_to_list m' = la \/ map_to_list m' = lb).
    { vm_compute. auto. }
    split; [|split; [|split]].
    + unfold ranges. destruct E as [-> | ->]; [reflexivity | apply perm_swap].
    + unfold ranges. destruct E as [-> | ->]; [apply perm_swap | reflexivity].
    + vm_compute. reflexivity.
    + vm_compute. reflexivity.
Qed.

(** ** ErrorClassifier *)



(** ** AuthSession *)

Section Session.
Context (lib : GoLib) {T : Type} (RoundTrip : T -> Request -> T * Reply).

Lemma Authenticate_answered c w t' n resp :
  NewRequest_err lib "GET" (AuthUrl c) = None ->
  RoundTrip (net w) (handshakeRequest (setDefaults c))
    = (t', mkReply n (inr resp)) ->
  Authenticate lib RoundTrip c w =
    match parseHeaders resp authErrorMap with
    | Some err => (setDefaults c, afterHandshake c w t', Some err)
    | None =>
        let c1 := setSession (setDefaults c)
                    (resp_Get (resp_Header resp) "X-Storage-Url")
                    (resp_Get (resp_Header resp) "X-Auth-Token") in
        (c1, afterHandshake c w t',
         if Authenticated c1 then closeErr (resp_Body resp)
         else Some (Swift noToken))
    end.
Proof.
  intros Hnew HRT. unfold Authenticate, NewRequest. simpl.
  rewrite Hnew. unfold client_Do, setHeader. simpl.
  change (mkRequest "GET" (AuthUrl c) (handshakeHeader ∅ (setDefaults c)) None)
    with (handshakeRequest (setDefaults c)).
  rewrite HRT. simpl.
  destruct (parseHeaders resp authErrorMap) as [err|]; [reflexivity|].
  simpl.
  destruct (Authenticated _); reflexivity.
Qed.
End Session.

Section Loop.
Context (lib : GoLib) {T : Type} (RoundTrip : T -> Request -> T * Reply).

Lemma storage_loop_step p r c w last :
  storage_loop lib RoundTrip p r c w last =
    match storage_attempt lib RoundTrip p c w last with
    | (c1, w1, inl early) => (c1, w1, inl early)
    | (c1, w1, inr resp) =>
        if (resp_StatusCode resp =? 401) && (r >? 0)
        then storage_loop lib RoundTrip p (r - 1) (UnAuthenticate c1)
               (countClose w1) (Some (Response_Close resp).1)
        else (c1, w1, inr resp)
    end.
Proof.
  rewrite storage_loop_equation_1.
  destruct (storage_attempt lib RoundTrip p c w last) as [[c1 w1] [err|resp]];
    [reflexivity|].
  simpl. destruct ((resp_StatusCode resp =? 401) && (r >? 0)); reflexivity.
Qed.

(** The connection and the world one turn leaves, whatever its result. *)
Lemma storage_attempt_world p c w last :
  (storage_attempt lib RoundTrip p c w last).1 =
    let '(c0, w0, aerr) :=
      if negb (Authenticated c) then Authenticate lib RoundTrip c w
      else (c, w, None) in
    match aerr, NewRequest_err lib (operation p) (storage_url lib c0 p) with
    | None, None => (c0, (client_Do RoundTrip w0 (storage_request lib c0 p)).1)
    | _, _ => (c0, w0)
    end.
Proof.
  unfold storage_attempt.
  destruct (if negb (Authenticated c) then Authenticate lib RoundTrip c w
            else (c, w, None)) as [[c0 w0] [e|]]; [reflexivity|].
  unfold NewRequest. destruct (NewRequest_err _ _ _); [reflexivity|].
  unfold setHeader. cbn [req_Method req_URL req_Body].
  change (mkRequest (operation p) (storage_url lib c0 p)
            (storage_headers lib c0 p) (body p))
    with (storage_request lib c0 p).
  cbv zeta.
  destruct (client_Do RoundTrip w0 (storage_request lib c0 p)) as [w1 [e|r]];
    reflexivity.
Qed.

Lemma Authenticate_ok c w c' w' :
  Authenticate lib RoundTrip c w = (c', w', None) -> Authenticated c' = true.
Proof.
  unfold Authenticate.
  destruct (NewRequest lib "GET" (AuthUrl (setDefaults c)) None) as [e|req];
    [discriminate|].
  destruct (client_Do _ _ _) as [w1 [e|resp]]; [discriminate|].
  destruct (parseHeaders resp authErrorMap) as [e|].
  - unfold Authenticate_deferred. simpl. discriminate.
  - destruct (Authenticated (setSession _ _ _)) eqn:E; simpl;
      unfold Authenticate_deferred; simpl; [|discriminate].
    intros [= <- _ _]. assumption.
Qed.

Lemma storage_attempt_authenticated p c w last c1 w1 resp :
  storage_attempt lib RoundTrip p c w last = (c1, w1, inr resp) ->
  Authenticated c1 = true.
Proof.
  unfold storage_attempt.
  destruct (Authenticated c) eqn:Hc; simpl.
  - destruct (NewRequest _ _ _ _) as [e|req]; [discriminate|].
    destruct (client_Do _ _ _) as [w2 [e|r]]; [discriminate|].
    intros [= <- _ _]. assumption.
  - destruct (Authenticate lib RoundTrip c w) as [[c2 w2] [e|]] eqn:Ha;
      [discriminate|].
    destruct (NewRequest _ _ _ _) as [e|req]; [discriminate|].
    destruct (client_Do _ _ _) as [w3 [e|r]]; [discriminate|].
    intros [= <- _ _].
    eapply Authenticate_ok. eassumption.
Qed.

Lemma storage_loop_authenticated p r c w last c' w' resp :
  storage_loop lib RoundTrip p r c w last = (c', w', inr resp) ->
  Authenticated c' = true.
Proof.
  remember (Z.to_nat r) as n eqn:Hn.
  revert r c w last Hn. induction n as [|n IH]; intros r c w last Hn;
    rewrite storage_loop_step;
    destruct (storage_attempt lib RoundTrip p c w last) as [[c1 w1] [e|resp1]] eqn:Ha;
    try discriminate;
    (destruct (resp_StatusCode resp1 =? 401); simpl;
     [destruct (Z.gtb_spec r 0) | ]).
  all: try (intros [= <- _ _]; eapply storage_attempt_authenticated; eassumption).
  - lia.
  - apply IH. lia.
Qed.

End Loop.

(** ** Requests sent and responses handed back *)

Section Counting.
Context (lib : GoLib) {T : Type} (RoundTrip : T -> Request -> T * Reply).

Lemma client_Do_counts (w : World T) req :
  sent (client_Do RoundTrip w req).1 = sent w ++ [req] /\
  handshakes (client_Do RoundTrip w req).1 = handshakes w /\
  closes (client_Do RoundTrip w req).1 = closes w /\
  idleFlushes (client_Do RoundTrip w req).1 = idleFlushes w.
Proof.
  unfold client_Do. destruct (RoundTrip _ _) as [t' reply].
  destruct (req_Body req) as [[|]|]; repeat split.
Qed.

Lemma client_Do_outcome (w : World T) req :
  (client_Do RoundTrip w req).2 = outcome (RoundTrip (net w) req).2.
Proof.
  unfold client_Do. destruct (RoundTrip _ _) as [t' reply].
  destruct (req_Body req) as [[|]|]; reflexivity.
Qed.

(** A handshake sends no request, or one, counted. *)
Lemma Authenticate_counts c (w : World T) :
  let w' := (Authenticate lib RoundTrip c w).1.2 in
  (sent w' = sent w /\ handshakes w' = handshakes w) \/
  (sent w' = sent w ++ [handshakeRequest (setDefaults c)] /\
   handshakes w' = S (handshakes w)).
Proof.
  unfold Authenticate, NewRequest. simpl.
  destruct (NewRequest_err lib "GET" (AuthUrl c)); [left; split; reflexivity|].
  right. unfold setHeader. simpl.
  change (mkRequest "GET" (AuthUrl c) (handshakeHeader ∅ (setDefaults c)) None)
    with (handshakeRequest (setDefaults c)).
  destruct (client_Do_counts (countHandshake (CloseIdleConnections w))
              (handshakeRequest (setDefaults c))) as (Hs & Hh & _ & _).
  destruct (client_Do _ _ _) as [w1 [e|resp]]; simpl in *; [auto|].
  destruct (parseHeaders resp authErrorMap); [simpl; auto|].
  destruct (negb _); simpl; auto.
Qed.

(** One turn of the loop sends at most one handshake and at most one
    resource request. *)
Lemma storage_attempt_counts p c (w : World T) last :
  let w' := (storage_attempt lib RoundTrip p c w last).1.2 in
  (handshakes w <= handshakes w' <= S (handshakes w))%nat /\
  (length (sent w) + handshakes w' <= length (sent w') + handshakes w)%nat /\
  (length (sent w') + handshakes w <= length (sent w) + handshakes w' + 1)%nat.
Proof.
  rewrite storage_attempt_world.
  assert (Hreq : forall c0 (w0 : World T) (a : option error),
    let w' := (match a, NewRequest_err lib (operation p)
                          (storage_url lib c0 p) with
               | None, None =>
                   (c0, (client_Do RoundTrip w0 (storage_request lib c0 p)).1)
               | _, _ => (c0, w0)
               end).2 in
    handshakes w' = handshakes w0 /\
    (length (sent w0) <= length (sent w') <= length (sent w0) + 1)%nat).
  { intros c0 w0 [e|]; [simpl; lia|].
    destruct (NewRequest_err lib _ _); simpl; [lia|].
    destruct (client_Do_counts w0 (storage_request lib c0 p))
      as (Hs & Hh & _).
    rewrite Hs, Hh, length_app. simpl. lia. }
  destruct (negb (Authenticated c)).
  - pose proof (Authenticate_counts c w) as Ha.
    destruct (Authenticate lib RoundTrip c w) as [[c0 w0] a]; simpl in Ha.
    specialize (Hreq c0 w0 a). cbv zeta in Hreq. destruct Hreq as [Hh' Hs'].
    cbv zeta. cbn [snd] in *.
    destruct Ha as [[Hs Hh]|[Hs Hh]]; rewrite Hs, ?length_app in Hs';
      simpl in *; lia.
  - specialize (Hreq c w None). cbv zeta in Hreq. cbv zeta. cbn [snd] in *. lia.
Qed.

Lemma storage_loop_counts p r c (w : World T) last :
  let w' := (storage_loop lib RoundTrip p r c w last).1.2 in
  (handshakes w <= handshakes w')%nat /\
  (handshakes w' <= handshakes w + Z.to_nat r + 1)%nat /\
  (length (sent w) + handshakes w' <= length (sent w') + handshakes w)%nat /\
  (length (sent w') + handshakes w
     <= length (sent w) + handshakes w' + Z.to_nat r + 1)%nat.
Proof.
  remember (Z.to_nat r) as n eqn:Hn.
  revert r c w last Hn. induction n as [|n IH]; intros r c w last Hn;
    rewrite storage_loop_step;
    pose proof (storage_attempt_counts p c w last) as Ha;
    destruct (storage_attempt lib RoundTrip p c w last) as [[c1 w1] [e|resp1]];
    simpl in Ha; try (simpl; lia);
    (destruct (resp_StatusCode resp1 =? 401); simpl; [|lia];
     destruct (Z.gtb_spec r 0); [|simpl; lia]).
  - lia.
  - specialize (IH (r - 1) (UnAuthenticate c1) (countClose w1)
                   (Some (Response_Close resp1).1)).
    simpl in IH. destruct IH as (H0 & H1 & H2 & H3); [lia|]. lia.
Qed.
End Counting.

Section Attempt.
Context (lib : GoLib) {T : Type} (RoundTrip : T -> Request -> T * Reply).

(** A turn of the loop with a session in place goes straight to the
    resource request. *)
Lemma storage_attempt_live p c (w : World T) prev :
  Authenticated c = true ->
  NewRequest_err lib (operation p) (storage_url lib c p) = None ->
  storage_attempt lib RoundTrip p c w prev
    = (c, (client_Do RoundTrip w (storage_request lib c p)).1,
          match (client_Do RoundTrip w (storage_request lib c p)).2 with
          | inl err =>
              inl (client_Do_refused RoundTrip w (storage_request lib c p), err)
          | inr resp => inr resp
          end).
Proof.
  intros Ha Hn. unfold storage_attempt. rewrite Ha. simpl.
  unfold NewRequest. rewrite Hn. unfold setHeader. simpl.
  change (mkRequest (operation p) (storage_url lib c p) (storage_headers lib c p) (body p))
    with (storage_request lib c p).
  destruct (client_Do _ _ _) as [w1 [e|r]]; reflexivity.
Qed.

Lemma storage_attempt_last p c (w : World T) prev c1 w1 resp :
  storage_attempt lib RoundTrip p c w prev = (c1, w1, inr resp) ->
  last (sent w1) = Some (storage_request lib c1 p).
Proof.
  intros Ha.
  pose proof (storage_attempt_world lib RoundTrip p c w prev) as Hw.
  rewrite Ha in Hw. cbn [fst] in Hw.
  unfold storage_attempt in Ha.
  destruct (if negb (Authenticated c) then Authenticate lib RoundTrip c w
            else (c, w, None)) as [[c0 w0] [e|]]; [discriminate|].
  unfold NewRequest in Ha.
  destruct (NewRequest_err lib _ _); [discriminate|].
  injection Hw as -> ->.
  destruct (client_Do_counts RoundTrip w0 (storage_request lib c0 p))
    as (Hs & _).
  rewrite Hs. apply last_snoc.
Qed.

Lemma storage_loop_last p r c (w : World T) prev c' w' resp :
  storage_loop lib RoundTrip p r c w prev = (c', w', inr resp) ->
  last (sent w') = Some (storage_request lib c' p).
Proof.
  remember (Z.to_nat r) as n eqn:Hn.
  revert r c w prev Hn. induction n as [|n IH]; intros r c w prev Hn;
    rewrite storage_loop_step;
    destruct (storage_attempt lib RoundTrip p c w prev) as [[c1 w1] [e|resp1]] eqn:Ha;
    try discriminate;
    (destruct (resp_StatusCode resp1 =? 401); simpl;
     [destruct (Z.gtb_spec r 0) | ]).
  all: try (intros [= <- <- _]; eapply storage_attempt_last; eassumption).
  - lia.
  - apply IH. lia.
Qed.

(** An early [return] of a turn hands back the response of the turn
    before, or the one [Do] returned with its error: a closed one. *)
Lemma storage_attempt_closed p c (w : World T) prev c1 w1 prev' e :
  alreadyClosed prev ->
  storage_attempt lib RoundTrip p c w prev = (c1, w1, inl (prev', e)) ->
  alreadyClosed prev'.
Proof.
  intros Hprev. unfold storage_attempt.
  destruct (if negb (Authenticated c) then Authenticate lib RoundTrip c w
            else (c, w, None)) as [[c0 w0] [e0|]];
    [intros [= _ _ <- _]; assumption|].
  destruct (NewRequest lib _ _ _) as [e0|req];
    [intros [= _ _ <- _]; assumption|].
  cbv zeta. destruct (client_Do _ _ _) as [w2 [e0|r]]; [|discriminate].
  intros [= _ _ <- _]. unfold client_Do_refused.
  intros resp Hr. destruct (refused _) as [r0|]; [|discriminate].
  injection Hr as <-. reflexivity.
Qed.

Lemma storage_loop_closed p r c (w : World T) prev c' w' prev' e :
  alreadyClosed prev ->
  storage_loop lib RoundTrip p r c w prev = (c', w', inl (prev', e)) ->
  alreadyClosed prev'.
Proof.
  remember (Z.to_nat r) as n eqn:Hn.
  revert r c w prev Hn. induction n as [|n IH]; intros r c w prev Hn Hprev;
    rewrite storage_loop_step;
    destruct (storage_attempt lib RoundTrip p c w prev)
      as [[c1 w1] [[p1 e1]|resp1]] eqn:Ha;
    try (intros [= _ _ <- _];
         eapply storage_attempt_closed; [exact Hprev | exact Ha]);
    (destruct (Z.eqb_spec (resp_StatusCode resp1) 401) as [E401|]; simpl;
     [destruct (Z.gtb_spec r 0) | ]); try discriminate.
  - lia.
  - apply IH; [lia|]. intros resp0 [= <-]. reflexivity.
Qed.
End Attempt.

Section Sent.
Context (lib : GoLib) {T : Type} (RoundTrip : T -> Request -> T * Reply).

Lemma storage_attempt_sent p c (w : World T) prev :
  exists new,
    sent (storage_attempt lib RoundTrip p c w prev).1.2 = sent w ++ new /\
    Forall (dispatched lib p) new.
Proof.
  rewrite storage_attempt_world.
  assert (Hreq : forall c0 (w0 : World T) (a : option error) new0,
    sent w0 = sent w ++ new0 -> Forall (dispatched lib p) new0 ->
    exists new,
      sent (match a, NewRequest_err lib (operation p)
                       (storage_url lib c0 p) with
            | None, None =>
                (c0, (client_Do RoundTrip w0 (storage_request lib c0 p)).1)
            | _, _ => (c0, w0)
            end).2 = sent w ++ new /\
      Forall (dispatched lib p) new).
  { intros c0 w0 a new0 Hs HF.
    destruct a as [e|]; [exists new0; auto|].
    destruct (NewRequest_err lib _ _); [exists new0; auto|].
    destruct (client_Do_counts RoundTrip w0 (storage_request lib c0 p))
      as (Hs' & _).
    exists (new0 ++ [storage_request lib c0 p]). cbn [snd].
    rewrite Hs', Hs, <- app_assoc. split; [reflexivity|].
    apply Forall_app. split; [assumption|].
    apply Forall_singleton. right. eauto. }
  destruct (negb (Authenticated c)).
  - pose proof (Authenticate_counts lib RoundTrip c w) as Ha.
    destruct (Authenticate lib RoundTrip c w) as [[c0 w0] a]. simpl in Ha.
    destruct Ha as [[Hs _]|[Hs _]].
    + apply (Hreq c0 w0 a []); [by rewrite app_nil_r | constructor].
    + apply (Hreq c0 w0 a [handshakeRequest (setDefaults c)]);
        [assumption|]. apply Forall_singleton. left. eauto.
  - apply (Hreq c w None []); [by rewrite app_nil_r | constructor].
Qed.

Lemma storage_loop_sent p r c (w : World T) prev :
  exists new,
    sent (storage_loop lib RoundTrip p r c w prev).1.2 = sent w ++ new /\
    Forall (dispatched lib p) new.
Proof.
  remember (Z.to_nat r) as n eqn:Hn.
  revert r c w prev Hn. induction n as [|n IH]; intros r c w prev Hn;
    rewrite storage_loop_step;
    destruct (storage_attempt_sent p c w prev) as (new & Hs & HF);
    destruct (storage_attempt lib RoundTrip p c w prev)
      as [[c1 w1] [e|resp1]];
    try (exists new; split; assumption);
    (destruct (resp_StatusCode resp1 =? 401); simpl;
     [|exists new; split; assumption];
     destruct (Z.gtb_spec r 0); [|exists new; split; assumption]).
  - lia.
  - destruct (IH (r - 1) (UnAuthenticate c1) (countClose w1)
                 (Some (Response_Close resp1).1)) as (new' & Hs' & HF');
      [lia|].
    exists (new ++ new'). simpl in Hs, Hs'. rewrite Hs', Hs, <- app_assoc.
    split; [reflexivity|]. apply Forall_app. auto.
Qed.

(** What [storage] does after the loop sends nothing. *)
Lemma storage_sent_loop p c (w : World T) :
  sent (storage lib RoundTrip p c w).1.2
  = sent (storage_loop lib RoundTrip p (retryBudget p c) c w None).1.2.
Proof.
  unfold storage.
  destruct (storage_loop _ _ _ _ _ _ _) as [[c1 w1] [[prev e]|resp]];
    [reflexivity|].
  destruct (parseHeaders _ _); [reflexivity|].
  destruct (noResponse p); [|reflexivity].
  simpl. destruct (closeErr _); reflexivity.
Qed.

Lemma storage_sent p c (w : World T) :
  exists new,
    sent (storage lib RoundTrip p c w).1.2 = sent w ++ new /\
    Forall (dispatched lib p) new.
Proof. rewrite storage_sent_loop. apply storage_loop_sent. Qed.

(** With a session in place the first request sent is the one built from
    the options and that session. *)
Lemma storage_sends_first p c (w : World T) :
  Authenticated c = true ->
  NewRequest_err lib (operation p) (storage_url lib c p) = None ->
  exists rest,
    sent (storage lib RoundTrip p c w).1.2
    = sent w ++ storage_request lib c p :: rest.
Proof.
  intros Ha Hn. rewrite storage_sent_loop, storage_loop_step.
  rewrite (storage_attempt_live lib RoundTrip p c w None Ha Hn).
  destruct (client_Do_counts RoundTrip w (storage_request lib c p))
    as (Hs & _).
  destruct (client_Do RoundTrip w (storage_request lib c p)) as [w1 [e|resp]];
    simpl in *; [exists []; assumption|].
  destruct ((resp_StatusCode resp =? 401) && (retryBudget p c >? 0));
    [|exists []; assumption].
  destruct (storage_loop_sent p (retryBudget p c - 1) (UnAuthenticate c)
              (countClose w1) (Some (Response_Close resp).1))
    as (new & Hs' & _).
  exists new. simpl in Hs'. rewrite Hs', Hs, <- app_assoc. reflexivity.
Qed.

(** When [storage] returns no error, the last request sent is the one
    built from the options and the session held on return. *)
Lemma storage_last_request p c (w : World T) :
  ret_err (storage lib RoundTrip p c w).2 = None ->
  last (sent (storage lib RoundTrip p c w).1.2)
    = Some (storage_request lib (storage lib RoundTrip p c w).1.1 p).
Proof.
  unfold storage.
  destruct (storage_loop _ _ _ _ _ _ _) as [[c1 w1] [[prev e]|resp]] eqn:Hl;
    [discriminate|].
  pose proof (storage_loop_last lib RoundTrip p _ c w None c1 w1 resp Hl)
    as Hlast.
  destruct (parseHeaders _ _); [discriminate|].
  destruct (noResponse p); simpl; [|auto].
  destruct (closeErr _); simpl; [discriminate | auto].
Qed.
End Sent.

Lemma nonEmpty_true s : nonEmpty s = true <-> s <> "".
Proof.
  unfold nonEmpty. destruct (String.eqb_spec s ""); simpl; split;
    congruence.
Qed.

Lemma parseHeaders_auth_2xx resp :
  200 <= resp_StatusCode resp <= 299 ->
  parseHeaders resp authErrorMap = None.
Proof.
  intros H. unfold parseHeaders, authErrorMap. simpl.
  rewrite lookup_singleton_ne by lia.
  destruct (Z.ltb_spec (resp_StatusCode resp) 200); [lia|].
  rewrite Z.gtb_ltb.
  destruct (Z.ltb_spec 299 (resp_StatusCode resp)); [lia|]. reflexivity.
Qed.



(** C5 (as amended).  A handshake answered with a 2xx status whose
    storage-URL header or token header is absent or empty makes
    [Authenticate] fail with the error [noToken], whose status code is 0,
    not the status of the server. *)
Theorem Authenticate_missing_session lib (T : Type)
    (RoundTrip : T -> Request -> T * Reply) (c : Connection) (w : World T)
    (t' : T) (n : nat) (resp : Response) :
  NewRequest_err lib "GET" (AuthUrl c) = None ->
  RoundTrip (net w) (handshakeRequest (setDefaults c))
    = (t', mkReply n (inr resp)) ->
  200 <= resp_StatusCode resp <= 299 ->
  resp_Get (resp_Header resp) "X-Storage-Url" = "" \/
  resp_Get (resp_Header resp) "X-Auth-Token" = "" ->
  (Authenticate lib RoundTrip c w).2 = Some (Swift noToken) /\
  Authenticated (Authenticate lib RoundTrip c w).1.1 = false /\
  StatusCode noToken = 0 /\
  Text noToken = "Response didn't have storage url and auth token".
Proof.
  intros Hnew HRT Hcode Hmiss.
  rewrite (Authenticate_answered lib RoundTrip c w t' n resp Hnew HRT).
  rewrite (parseHeaders_auth_2xx resp Hcode). simpl.
  assert (E : Authenticated
            (setSession (setDefaults c)
               (resp_Get (resp_Header resp) "X-Storage-Url")
               (resp_Get (resp_Header resp) "X-Auth-Token")) = false).
  { unfold Authenticated. simpl. destruct Hmiss as [-> | ->]; simpl;
      [reflexivity | apply andb_false_r]. }
  rewrite E. repeat split; assumption.
Qed.

(** A handshake answered 200 without either session header. *)
Lemma Authenticate_missing_session_witness :
  (Authenticate demoLib (constTransport bareResponse) demoConnection unitWorld).2
    = Some (Swift noToken) /\
  Authenticated
    (Authenticate demoLib (constTransport bareResponse) demoConnection unitWorld).1.1
    = false /\
  StatusCode noToken = 0 /\
  Text noToken = "Response didn't have storage url and auth token".
Proof.
  apply (Authenticate_missing_session demoLib unit (constTransport bareResponse)
           demoConnection unitWorld tt 0%nat bareResponse).
  - reflexivity.
  - reflexivity.
  - simpl. lia.
  - left. reflexivity.
Defined.

(** C5 as stated fails: the server said 200 and the error says 0. *)
Lemma Authenticate_missing_session_counterexample :
  let r := Authenticate demoLib (constTransport bareResponse)
                        demoConnection unitWorld in
  resp_StatusCode bareResponse = 200 /\
  exists e, r.2 = Some (Swift e) /\ StatusCode e = 0 /\
            StatusCode e <> resp_StatusCode bareResponse.
Proof.
  simpl. split; [reflexivity|]. exists noToken.
  split; [vm_compute; reflexivity|]. split; [reflexivity|]. vm_compute. discriminate.
Qed.
(** ** RequestDispatcher: the retry bound *)

Lemma handshakeRequest_isHandshake c : isHandshake (handshakeRequest c) = true.
Proof.
  unfold isHandshake, handshakeRequest, handshakeHeader, Header_Set. simpl.
  apply bool_decide_eq_true.
  rewrite !lookup_insert_ne by (intros E; vm_compute in E; discriminate).
  apply lookup_empty.
Qed.

Lemma storage_request_isHandshake lib c p :
  isHandshake (storage_request lib c p) = false.
Proof.
  unfold isHandshake, storage_request, storage_headers. simpl.
  apply bool_decide_eq_false. unfold Header_Add at 1.
  change (CanonicalHeaderKey "X-Auth-Token") with "X-Auth-Token".
  rewrite lookup_insert_eq. discriminate.
Qed.

Lemma parseHeaders_None_2xx resp em :
  parseHeaders resp em = None -> 200 <= resp_StatusCode resp <= 299.
Proof.
  unfold parseHeaders.
  destruct (em ≫= _); [discriminate|].
  destruct (Z.ltb_spec (resp_StatusCode resp) 200); simpl; [discriminate|].
  rewrite Z.gtb_ltb.
  destruct (Z.ltb_spec 299 (resp_StatusCode resp)); [discriminate|]. lia.
Qed.

Lemma parseHeaders_401 resp em :
  resp_StatusCode resp = 401 -> exists e, parseHeaders resp em = Some (Swift e).
Proof.
  intros H. unfold parseHeaders. rewrite H.
  destruct (em ≫= _) as [e|]; [by exists e|]. simpl. eauto.
Qed.

Section RetryBound.
Context (lib : GoLib) {T : Type} (RoundTrip : T -> Request -> T * Reply).
Context (p : storageOpts) (I : nat -> T -> Prop).
Hypothesis Hurl : forall method url, NewRequest_err lib method url = None.
Hypothesis HD : Denies RoundTrip p I.

Lemma storage_attempt_denied c w last n :
  Authenticated c = false -> I n (net w) ->
  exists c1 w1 resp,
    storage_attempt lib RoundTrip p c w last = (c1, w1, inr resp) /\
    handshakes w1 = S (handshakes w) /\
    length (sent w1) = (length (sent w) + 2)%nat /\
    match n with
    | O => succeeds p resp
    | S n' => resp_StatusCode resp = 401 /\ I n' (net w1)
    end.
Proof.
  intros Hc HI. unfold storage_attempt. rewrite Hc. simpl.
  destruct (denies_handshake _ _ _ HD n (net w) (handshakeRequest (setDefaults c))
              HI (handshakeRequest_isHandshake _))
    as (t' & m & resp & HRT & (Hp & Hs & Ht & Hcl) & HI').
  rewrite (Authenticate_answered lib RoundTrip c w t' m resp (Hurl _ _) HRT).
  rewrite Hp. simpl. unfold Authenticated at 1. simpl. rewrite Hs, Ht, Hcl. simpl.
  unfold NewRequest. rewrite Hurl. unfold client_Do, setHeader. simpl.
  set (c1 := setSession (setDefaults c) _ _).
  change (mkRequest (operation p) (storage_url lib c1 p) (storage_headers lib c1 p) (body p))
    with (storage_request lib c1 p).
  destruct n as [|n'].
  - destruct (denies_last _ _ _ HD t' (storage_request lib c1 p) HI'
                (storage_request_isHandshake _ _ _))
      as (t2 & m2 & resp2 & HRT2 & Hok).
    rewrite HRT2. simpl.
    destruct (body p) as [[|]|]; simpl;
      eexists _, _, _; (split; [reflexivity|]); simpl;
      rewrite ?length_app; simpl; repeat split; try lia; apply Hok.
  - destruct (denies_again _ _ _ HD n' t' (storage_request lib c1 p) HI'
                (storage_request_isHandshake _ _ _))
      as (t2 & m2 & resp2 & HRT2 & H401 & HI2).
    rewrite HRT2. simpl.
    destruct (body p) as [[|]|]; simpl;
      eexists _, _, _; (split; [reflexivity|]); simpl;
      rewrite ?length_app; simpl; repeat split; try lia; assumption.
Qed.

Lemma storage_loop_denied k : forall r c w last,
  Authenticated c = false -> I k (net w) -> 0 <= r ->
  exists c' w' resp,
    storage_loop lib RoundTrip p r c w last = (c', w', inr resp) /\
    (Z.of_nat k <= r ->
       succeeds p resp /\
       handshakes w' = (handshakes w + k + 1)%nat /\
       length (sent w') = (length (sent w) + 2 * (k + 1))%nat) /\
    (r < Z.of_nat k ->
       resp_StatusCode resp = 401 /\
       handshakes w' = (handshakes w + Z.to_nat r + 1)%nat /\
       length (sent w') = (length (sent w) + 2 * (Z.to_nat r + 1))%nat).
Proof.
  induction k as [|k IH]; intros r c w last Hc HI Hr;
    rewrite storage_loop_step;
    destruct (storage_attempt_denied c w last _ Hc HI)
      as (c1 & w1 & resp & Ha & Hh & Hs & Hn); rewrite Ha.
  - pose proof (parseHeaders_None_2xx _ _ (proj1 Hn)) as H2xx.
    destruct (Z.eqb_spec (resp_StatusCode resp) 401); [lia|]. simpl.
    exists c1, w1, resp. split; [reflexivity|]. split; [|lia].
    intros _. repeat split; try apply Hn; lia.
  - destruct Hn as [H401 HI1]. rewrite H401. simpl.
    destruct (Z.gtb_spec r 0) as [Hpos|Hzero].
    + destruct (IH (r - 1) (UnAuthenticate c1) (countClose w1)
                   (Some (Response_Close resp).1))
        as (c' & w' & resp' & Hl & Hge & Hlt);
        [reflexivity | assumption | lia |].
      exists c', w', resp'. split; [assumption|]. simpl in Hge, Hlt. split.
      * intros Hk. destruct Hge as (Hok & Hh' & Hs'); [lia|].
        repeat split; try apply Hok; lia.
      * intros Hk. destruct Hlt as (Hst & Hh' & Hs'); [lia|].
        repeat split; [assumption|lia|lia].
    + exists c1, w1, resp. split; [reflexivity|]. split; [lia|].
      intros _. assert (r = 0) as -> by lia. simpl.
      repeat split; [assumption|lia|lia].
Qed.
End RetryBound.

(** C1.  Against a transport that answers the resource request with 401
    exactly [k] times and then with a response that succeeds, starting from
    an unauthenticated session and with a retry budget [r >= 0]: when
    [k <= r], [storage] succeeds after exactly [k + 1] handshakes; when
    [r < k], it fails with the error the classifier gives the 401 response.
    The loop goes round again only on a 401 with retries left: after an
    early error, a status other than 401, or with no retry left, it ends
    with that attempt. *)
Theorem storage_retry_bound lib (T : Type)
    (RoundTrip : T -> Request -> T * Reply) (p : storageOpts)
    (I : nat -> T -> Prop) (c : Connection) (w : World T) (k : nat) :
  (forall method url, NewRequest_err lib method url = None) ->
  Denies RoundTrip p I ->
  Authenticated c = false ->
  I k (net w) ->
  0 <= retryBudget p c ->
  (Z.of_nat k <= retryBudget p c ->
     ret_err (storage lib RoundTrip p c w).2 = None /\
     (exists resp, ret_resp (storage lib RoundTrip p c w).2 = Some resp /\
                   200 <= resp_StatusCode resp <= 299) /\
     handshakes (storage lib RoundTrip p c w).1.2 = (handshakes w + k + 1)%nat /\
     length (sent (storage lib RoundTrip p c w).1.2)
       = (length (sent w) + 2 * (k + 1))%nat) /\
  (retryBudget p c < Z.of_nat k ->
     (exists resp e,
        resp_StatusCode resp = 401 /\
        parseHeaders resp (opt_errorMap p) = Some (Swift e) /\
        ret_err (storage lib RoundTrip p c w).2 = Some (Swift e)) /\
     ret_resp (storage lib RoundTrip p c w).2 = None /\
     handshakes (storage lib RoundTrip p c w).1.2
       = (handshakes w + Z.to_nat (retryBudget p c) + 1)%nat /\
     length (sent (storage lib RoundTrip p c w).1.2)
       = (length (sent w) + 2 * (Z.to_nat (retryBudget p c) + 1))%nat) /\
  (forall r0 c0 w0 last,
     match storage_attempt lib RoundTrip p c0 w0 last with
     | (c1, w1, inl early) =>
         storage_loop lib RoundTrip p r0 c0 w0 last = (c1, w1, inl early)
     | (c1, w1, inr resp) =>
         resp_StatusCode resp <> 401 \/ r0 <= 0 ->
         storage_loop lib RoundTrip p r0 c0 w0 last = (c1, w1, inr resp)
     end).
Proof.
  intros Hurl HD Hc HI Hr.
  destruct (storage_loop_denied lib RoundTrip p I Hurl HD k (retryBudget p c)
              c w None Hc HI Hr) as (c' & w' & resp & Hl & Hge & Hlt).
  unfold storage. fold (retryBudget p c). rewrite Hl.
  split; [|split].
  - intros Hk. destruct (Hge Hk) as ((Hp & Hcl) & Hh & Hs). rewrite Hp.
    pose proof (parseHeaders_None_2xx _ _ Hp) as H2xx.
    destruct (noResponse p); simpl.
    + rewrite Hcl by reflexivity. simpl. repeat split; eauto.
    + repeat split; eauto.
  - intros Hk. destruct (Hlt Hk) as (H401 & Hh & Hs).
    destruct (parseHeaders_401 resp (opt_errorMap p) H401) as [e He].
    rewrite He. simpl. repeat split; eauto.
  - intros r0 c0 w0 last. rewrite storage_loop_step.
    destruct (storage_attempt lib RoundTrip p c0 w0 last) as [[c1 w1] [err|resp1]];
      [reflexivity|].
    intros [Hne|Hle].
    + destruct (Z.eqb_spec (resp_StatusCode resp1) 401); [contradiction|].
      reflexivity.
    + destruct (Z.gtb_spec r0 0); [lia|]. rewrite andb_false_r. reflexivity.
Qed.

Lemma demoTransport_denies p final :
  succeeds p final -> Denies (demoTransport final) p (fun n t => t = n).
Proof.
  intros Hok. split.
  - intros n t req -> Hh. exists n, 0%nat, grantResponse.
    unfold demoTransport. rewrite Hh.
    split; [reflexivity|]. split; [|reflexivity]. repeat split.
  - intros n t req -> Hh. exists n, 0%nat, deniedResponse.
    unfold demoTransport. rewrite Hh. repeat split.
  - intros t req -> Hh. exists 0%nat, 0%nat, final.
    unfold demoTransport. rewrite Hh. split; [reflexivity | assumption].
Qed.

(** Two expired tokens against the default budget of three retries: three
    handshakes, six requests, success. *)
Lemma storage_retry_bound_witness :
  let run := storage demoLib (demoTransport (demoResponse 200 "200 OK"))
                     Account_opts demoConnection (demoWorld 2) in
  ret_err run.2 = None /\ handshakes run.1.2 = 3%nat /\
  length (sent run.1.2) = 6%nat.
Proof.
  assert (Hok : succeeds Account_opts (demoResponse 200 "200 OK")).
  { split; reflexivity. }
  destruct (storage_retry_bound demoLib nat
              (demoTransport (demoResponse 200 "200 OK")) Account_opts
              (fun n t => t = n) demoConnection (demoWorld 2) 2%nat)
    as [Hge _].
  - intros method url. reflexivity.
  - split.
    + intros n t req -> Hh. exists n, 0%nat, grantResponse.
      unfold demoTransport. rewrite Hh.
      split; [reflexivity|]. split; [|reflexivity]. repeat split.
    + intros n t req -> Hh. exists n, 0%nat, deniedResponse.
      unfold demoTransport. rewrite Hh. repeat split.
    + intros t req -> Hh. exists 0%nat, 0%nat, (demoResponse 200 "200 OK").
      unfold demoTransport. rewrite Hh. split; [reflexivity | assumption].
  - reflexivity.
  - reflexivity.
  - vm_compute. discriminate.
  - destruct Hge as (He & _ & Hh & Hs); [vm_compute; discriminate|].
    intros run. repeat split; assumption.
Defined.

(** ** RequestDispatcher: what happens to the final response *)

Section FinalResponse.
Context (lib : GoLib) {T : Type} (RoundTrip : T -> Request -> T * Reply).

Lemma storage_classified p c w c1 w1 resp e :
  storage_loop lib RoundTrip p (retryBudget p c) c w None = (c1, w1, inr resp) ->
  parseHeaders resp (opt_errorMap p) = Some e ->
  storage lib RoundTrip p c w = (c1, countClose w1, mkRet None None (Some e)).
Proof.
  intros Hl He. unfold storage. fold (retryBudget p c). rewrite Hl, He.
  reflexivity.
Qed.

Lemma storage_accepted p c w c1 w1 resp :
  storage_loop lib RoundTrip p (retryBudget p c) c w None = (c1, w1, inr resp) ->
  parseHeaders resp (opt_errorMap p) = None ->
  storage lib RoundTrip p c w =
    if noResponse p then
      match closeErr (resp_Body resp) with
      | Some err => (c1, countClose w1, mkRet None None (Some err))
      | None => (c1, countClose w1,
                 mkRet (Some (Response_Close resp).1) (Some (readHeaders resp)) None)
      end
    else (c1, w1, mkRet (Some resp) (Some (readHeaders resp)) None).
Proof.
  intros Hl He. unfold storage. fold (retryBudget p c). rewrite Hl, He.
  destruct (noResponse p); [|reflexivity]. simpl.
  destruct (closeErr (resp_Body resp)); reflexivity.
Qed.
End FinalResponse.

(** C7 (as amended).  For a response that passes the classification: with
    [noResponse] set [storage] closes the body without reading it (the
    blocks not yet read stay unread) and returns the error of [Close] if
    there is one; with the flag unset it returns the response as it is,
    its body untouched. *)
Theorem storage_releases_body lib (T : Type)
    (RoundTrip : T -> Request -> T * Reply) (p : storageOpts)
    (c c1 : Connection) (w w1 : World T) (resp : Response) :
  storage_loop lib RoundTrip p (retryBudget p c) c w None = (c1, w1, inr resp) ->
  parseHeaders resp (opt_errorMap p) = None ->
  (noResponse p = true -> closeErr (resp_Body resp) = None ->
     exists resp',
       storage lib RoundTrip p c w
         = (c1, countClose w1, mkRet (Some resp') (Some (readHeaders resp)) None) /\
       closed (resp_Body resp') = true /\
       chunks (resp_Body resp') = chunks (resp_Body resp)) /\
  (noResponse p = true ->
     forall err, closeErr (resp_Body resp) = Some err ->
       storage lib RoundTrip p c w
         = (c1, countClose w1, mkRet None None (Some err))) /\
  (noResponse p = false ->
     storage lib RoundTrip p c w
       = (c1, w1, mkRet (Some resp) (Some (readHeaders resp)) None)).
Proof.
  intros Hl He.
  rewrite (storage_accepted lib RoundTrip p c w c1 w1 resp Hl He).
  split; [|split].
  - intros -> ->. eexists. split; [reflexivity|]. split; reflexivity.
  - intros -> err ->. reflexivity.
  - intros ->. reflexivity.
Qed.

(** An account request answered 200 with a body of one block. *)
Lemma storage_releases_body_witness :
  let final := demoResponse 200 "200 OK" in
  exists resp',
    (storage demoLib (demoTransport final) Account_opts demoConnection
             (demoWorld 0)).2
      = mkRet (Some resp') (Some (readHeaders final)) None /\
    closed (resp_Body resp') = true /\
    chunks (resp_Body resp') = ["payload"].
Proof.
  intros final.
  destruct (storage_releases_body demoLib nat (demoTransport final) Account_opts
              demoConnection
              (setSession (setDefaults demoConnection) "http://store/v1/acct" "tok")
              (demoWorld 0)
              (storage_loop demoLib (demoTransport final) Account_opts
                 (retryBudget Account_opts demoConnection) demoConnection
                 (demoWorld 0) None).1.2
              final) as (H & _).
  - vm_compute. reflexivity.
  - reflexivity.
  - destruct H as (resp' & Hs & Hc & Hch); [reflexivity..|].
    exists resp'. rewrite Hs. repeat split; assumption.
Defined.

(** C7 as stated fails: the body of the final response, closed by
    [storage], still holds the block the server sent. *)
Lemma storage_releases_body_counterexample :
  let run := storage demoLib (demoTransport (demoResponse 200 "200 OK"))
                     Account_opts demoConnection (demoWorld 0) in
  noResponse Account_opts = true /\ ret_err run.2 = None /\
  exists resp, ret_resp run.2 = Some resp /\
               closed (resp_Body resp) = true /\
               chunks (resp_Body resp) = ["payload"] /\
               ~ drained (resp_Body resp).
Proof.
  vm_compute. split; [reflexivity|]. split; [reflexivity|].
  eexists. split; [reflexivity|]. repeat split. discriminate.
Qed.

(** C10.  The account operations classify through the container table:
    when the response their dispatch ends with has status 404, [Account]
    and [AccountUpdate] return [ContainerNotFound], and with status 409
    [ContainerNotEmpty]. *)
Theorem account_errors_are_container_errors lib (T : Type)
    (RoundTrip : T -> Request -> T * Reply) (h : option Headers)
    (c c1 c2 : Connection) (w w1 w2 : World T) (resp1 resp2 : Response) :
  storage_loop lib RoundTrip Account_opts (Retries c) c w None
    = (c1, w1, inr resp1) ->
  storage_loop lib RoundTrip (AccountUpdate_opts h) (Retries c) c w None
    = (c2, w2, inr resp2) ->
  opt_errorMap Account_opts = containerErrorMap /\
  opt_errorMap (AccountUpdate_opts h) = containerErrorMap /\
  (resp_StatusCode resp1 = 404 ->
     (Account lib RoundTrip c w).2.2 = Some (Swift ContainerNotFound)) /\
  (resp_StatusCode resp1 = 409 ->
     (Account lib RoundTrip c w).2.2 = Some (Swift ContainerNotEmpty)) /\
  (resp_StatusCode resp2 = 404 ->
     (AccountUpdate lib RoundTrip h c w).2 = Some (Swift ContainerNotFound)) /\
  (resp_StatusCode resp2 = 409 ->
     (AccountUpdate lib RoundTrip h c w).2 = Some (Swift ContainerNotEmpty)).
Proof.
  intros H1 H2.
  assert (P404 : forall r, resp_StatusCode r = 404 ->
            parseHeaders r containerErrorMap = Some (Swift ContainerNotFound)).
  { intros r E. unfold parseHeaders. rewrite E. reflexivity. }
  assert (P409 : forall r, resp_StatusCode r = 409 ->
            parseHeaders r containerErrorMap = Some (Swift ContainerNotEmpty)).
  { intros r E. unfold parseHeaders. rewrite E. reflexivity. }
  split; [reflexivity|]. split; [reflexivity|].
  repeat split; intros E; unfold Account, AccountUpdate.
  - rewrite (storage_classified lib RoundTrip Account_opts c w c1 w1 resp1 _ H1 (P404 _ E)).
    reflexivity.
  - rewrite (storage_classified lib RoundTrip Account_opts c w c1 w1 resp1 _ H1 (P409 _ E)).
    reflexivity.
  - rewrite (storage_classified lib RoundTrip (AccountUpdate_opts h) c w c2 w2 resp2 _ H2 (P404 _ E)).
    reflexivity.
  - rewrite (storage_classified lib RoundTrip (AccountUpdate_opts h) c w c2 w2 resp2 _ H2 (P409 _ E)).
    reflexivity.
Qed.

(** An account answered 404. *)
Lemma account_errors_are_container_errors_witness :
  let missing := demoResponse 404 "404 Not Found" in
  (Account demoLib (demoTransport missing) demoConnection (demoWorld 0)).2.2
    = Some (Swift ContainerNotFound) /\
  (AccountUpdate demoLib (demoTransport missing) None demoConnection
                 (demoWorld 0)).2
    = Some (Swift ContainerNotFound).
Proof.
  intros missing.
  destruct (account_errors_are_container_errors demoLib nat
              (demoTransport missing) None demoConnection
              (setSession (setDefaults demoConnection) "http://store/v1/acct" "tok")
              (setSession (setDefaults demoConnection) "http://store/v1/acct" "tok")
              (demoWorld 0)
              (storage_loop demoLib (demoTransport missing) Account_opts
                 (Retries demoConnection) demoConnection (demoWorld 0) None).1.2
              (storage_loop demoLib (demoTransport missing) (AccountUpdate_opts None)
                 (Retries demoConnection) demoConnection (demoWorld 0) None).1.2
              missing missing)
    as (_ & _ & Ha & _ & Hu & _).
  - vm_compute. reflexivity.
  - vm_compute. reflexivity.
  - split; [apply Ha | apply Hu]; reflexivity.
Defined.

(** ** RequestDispatcher: the header of the request *)

Lemma Header_Add_lookup (h : http_Header) k v K :
  Header_Add h k v !! K =
    if decide (CanonicalHeaderKey k = K)
    then Some (default [] (h !! K) ++ [v])
    else h !! K.
Proof.
  unfold Header_Add. destruct (decide (CanonicalHeaderKey k = K)) as [<-|Hne].
  - apply lookup_insert_eq.
  - by apply lookup_insert_ne.
Qed.





(** ** ChecksumGuard: upload with a digest known in advance *)

Lemma Header_Add_keeps (h : http_Header) k v K x :
  x ∈ default [] (h !! K) -> x ∈ default [] (Header_Add h k v !! K).
Proof.
  intros H. rewrite Header_Add_lookup. destruct (decide _); [|assumption].
  simpl. apply elem_of_app. by left.
Qed.

Lemma callerHeaders_keeps (l : list (string * string)) (acc : http_Header) K x :
  x ∈ default [] (acc !! K) ->
  x ∈ default [] (foldl (fun h kv => Header_Add h kv.1 kv.2) acc l !! K).
Proof.
  revert acc. induction l as [|kv l IH]; intros acc H; simpl; [assumption|].
  apply IH. by apply Header_Add_keeps.
Qed.

Lemma callerHeaders_has (l : list (string * string)) (acc : http_Header) k v :
  (k, v) ∈ l ->
  v ∈ default [] (foldl (fun h kv => Header_Add h kv.1 kv.2) acc l
                    !! CanonicalHeaderKey k).
Proof.
  revert acc. induction l as [|kv l IH]; intros acc Hin; [inversion Hin|].
  simpl. apply elem_of_cons in Hin as [<-|Hin]; [|by apply IH].
  apply callerHeaders_keeps. rewrite Header_Add_lookup. simpl.
  rewrite decide_True by reflexivity. simpl.
  apply elem_of_app. right. apply list_elem_of_here.
Qed.

Section Untouched.
Context (lib : GoLib) {T : Type} (RoundTrip : T -> Request -> T * Reply).

Lemma client_Do_hashed w req :
  req_Body req <> Some TeeContents ->
  hashed (client_Do RoundTrip w req).1 = hashed w.
Proof.
  intros H. unfold client_Do. destruct (RoundTrip _ _) as [t' reply].
  destruct (req_Body req) as [[|]|]; try reflexivity. contradiction.
Qed.

Lemma Authenticate_hashed c w :
  hashed (Authenticate lib RoundTrip c w).1.2 = hashed w.
Proof.
  unfold Authenticate.
  destruct (NewRequest lib "GET" _ None) as [e|req] eqn:Hn; [reflexivity|].
  assert (Hb : req_Body (setHeader req (handshakeHeader (req_Header req) (setDefaults c)))
               <> Some TeeContents).
  { unfold NewRequest in Hn. destruct (NewRequest_err _ _ _); [discriminate|].
    injection Hn as <-. discriminate. }
  pose proof (client_Do_hashed (countHandshake (CloseIdleConnections w)) _ Hb) as Hh.
  destruct (client_Do _ _ _) as [w1 [e|resp]]; simpl in *; [assumption|].
  destruct (parseHeaders resp authErrorMap); [assumption|].
  destruct (negb _); assumption.
Qed.

Lemma storage_attempt_hashed p c w last :
  body p <> Some TeeContents ->
  hashed (storage_attempt lib RoundTrip p c w last).1.2 = hashed w.
Proof.
  intros Hb. rewrite storage_attempt_world.
  assert (Ha : forall c0 w0 (a : option error),
            hashed w0 = hashed w ->
            hashed (match a, NewRequest_err lib (operation p)
                                  (storage_url lib c0 p) with
                    | None, None =>
                        (c0, (client_Do RoundTrip w0 (storage_request lib c0 p)).1)
                    | _, _ => (c0, w0)
                    end).2 = hashed w).
  { intros c0 w0 [e|] H0; [assumption|].
    destruct (NewRequest_err _ _ _); [assumption|]. simpl.
    rewrite client_Do_hashed by exact Hb. assumption. }
  destruct (negb (Authenticated c)).
  - pose proof (Authenticate_hashed c w) as Hh.
    destruct (Authenticate lib RoundTrip c w) as [[c0 w0] a].
    exact (Ha c0 w0 a Hh).
  - exact (Ha c w None eq_refl).
Qed.

Lemma storage_loop_hashed p r c w last :
  body p <> Some TeeContents ->
  hashed (storage_loop lib RoundTrip p r c w last).1.2 = hashed w.
Proof.
  intros Hb. remember (Z.to_nat r) as n eqn:Hn.
  revert r c w last Hn. induction n as [|n IH]; intros r c w last Hn;
    rewrite storage_loop_step;
    pose proof (storage_attempt_hashed p c w last Hb) as Ha;
    destruct (storage_attempt lib RoundTrip p c w last) as [[c1 w1] [e|resp1]];
    try assumption;
    (destruct (resp_StatusCode resp1 =? 401); simpl; [|assumption];
     destruct (Z.gtb_spec r 0); [|assumption]).
  - lia.
  - rewrite IH by lia. assumption.
Qed.

Lemma storage_hashed p c w :
  body p <> Some TeeContents ->
  hashed (storage lib RoundTrip p c w).1.2 = hashed w.
Proof.
  intros Hb. unfold storage.
  pose proof (storage_loop_hashed p (if retries p =? 0 then Retries c else retries p)
                c w None Hb) as Hl.
  destruct (storage_loop _ _ _ _ _ _ _) as [[c1 w1] [[resp e]|resp]];
    [assumption|].
  destruct (parseHeaders _ _); [assumption|].
  destruct (noResponse p); [|assumption].
  simpl. destruct (closeErr _); assumption.
Qed.

Lemma storage_loop_md5 f p r c w last :
  storage_loop (withMd5 lib f) RoundTrip p r c w last
  = storage_loop lib RoundTrip p r c w last.
Proof. reflexivity. Qed.

Lemma storage_md5 f p c w :
  storage (withMd5 lib f) RoundTrip p c w = storage lib RoundTrip p c w.
Proof. unfold storage. rewrite storage_loop_md5. reflexivity. Qed.
End Untouched.

(** C8.  [ObjectPut] with a non-empty [Hash]: the header map handed to
    [storage] holds [Etag: Hash], and the request carries [Hash] among the
    values of [Etag]; the request body is the caller's reader itself, not a
    tee into a hash, and no byte reaches the hash; the result is the
    headers and error of [storage] and nothing else, whatever [checkHash]
    and whatever the digest function.  On the wire: every request the call
    sends is a handshake or a [PUT] that carries [Hash] among the values
    of [Etag], with the reader as its body; with a session in place the
    first request sent is that [PUT]; and when the call returns no error
    the last request sent, the one answered, is that [PUT]. *)
Theorem ObjectPut_precomputed_hash lib (T : Type)
    (RoundTrip : T -> Request -> T * Reply)
    (cont obj data : string) (checkHash : bool) (Hash contentType : string)
    (h : option Headers) (c : Connection) (w : World T) :
  Hash <> "" ->
  ranges (ObjectPut_headers Hash contentType h)
         (rangeOrder lib (ObjectPut_headers Hash contentType h)) ->
  let p := ObjectPut_opts cont obj checkHash Hash contentType h in
  let run := storage lib RoundTrip p c (ObjectPut_begin data w) in
  let put :=
    ObjectPut lib RoundTrip cont obj data checkHash Hash contentType h c w in
  let carriesHash (req : Request) :=
    req_Method req = "PUT" /\
    Hash ∈ default [] (req_Header req !! "Etag") /\
    req_Body req = Some Contents in
  (exists hs, headers p = Some hs /\ hs !! "Etag" = Some Hash) /\
  (forall c', Hash ∈ default [] (req_Header (storage_request lib c' p) !! "Etag")) /\
  body p = Some Contents /\
  ObjectPut lib RoundTrip cont obj data checkHash Hash contentType h c w
    = (run.1.1, run.1.2, (ret_headers run.2, ret_err run.2)) /\
  hashed (ObjectPut lib RoundTrip cont obj data checkHash Hash contentType h c w).1.2
    = "" /\
  ObjectPut lib RoundTrip cont obj data true Hash contentType h c w
    = ObjectPut lib RoundTrip cont obj data false Hash contentType h c w /\
  (forall f,
     ObjectPut (withMd5 lib f) RoundTrip cont obj data checkHash Hash contentType h c w
     = ObjectPut lib RoundTrip cont obj data checkHash Hash contentType h c w) /\
  (exists new,
     sent put.1.2 = sent w ++ new /\
     Forall (fun req => (exists c', req = handshakeRequest c') \/
                        carriesHash req) new) /\
  (Authenticated c = true ->
   NewRequest_err lib "PUT" (storage_url lib c p) = None ->
   exists rest,
     sent put.1.2 = sent w ++ storage_request lib c p :: rest /\
     carriesHash (storage_request lib c p)) /\
  (put.2.2 = None ->
   exists req, last (sent put.1.2) = Some req /\ carriesHash req).
Proof.
  intros HHash Hl.
  apply nonEmpty_true in HHash.
  assert (Hck : forall b, ObjectPut_checkHash b Hash = false).
  { intros b. unfold ObjectPut_checkHash. by rewrite HHash. }
  assert (Hopts : forall b, ObjectPut_opts cont obj b Hash contentType h
                            = ObjectPut_opts cont obj false Hash contentType h).
  { intros b. unfold ObjectPut_opts. by rewrite !Hck. }
  assert (Hbody : body (ObjectPut_opts cont obj checkHash Hash contentType h)
                  = Some Contents).
  { unfold ObjectPut_opts. simpl. by rewrite Hck. }
  assert (Hput : forall l b,
            ObjectPut l RoundTrip cont obj data b Hash contentType h c w
            = let r := storage l RoundTrip
                         (ObjectPut_opts cont obj false Hash contentType h) c
                         (ObjectPut_begin data w) in
              (r.1.1, r.1.2, (ret_headers r.2, ret_err r.2))).
  { intros l b. unfold ObjectPut. rewrite Hopts, Hck.
    destruct (storage _ _ _ _ _) as [[c' w'] r]. simpl.
    destruct (ret_err r); [reflexivity|]. destruct (ret_resp r); reflexivity. }
  assert (Hetag : ObjectPut_headers Hash contentType h !! "Etag" = Some Hash).
  { unfold ObjectPut_headers. rewrite HHash. apply lookup_insert_eq. }
  intros p run put carriesHash.
  assert (Hreq : forall c',
            Hash ∈ default [] (req_Header (storage_request lib c' p) !! "Etag")).
  { intros c'.
    assert (Hin : ("Etag", Hash)
                  ∈ rangeOrder lib (ObjectPut_headers Hash contentType h)).
    { unfold ranges in Hl. rewrite Hl. by apply elem_of_map_to_list. }
    pose proof (callerHeaders_has _ ∅ _ _ Hin) as Hc.
    unfold storage_request. cbn [req_Header]. unfold storage_headers.
    subst p. cbn [headers ObjectPut_opts].
    do 2 apply Header_Add_keeps. exact Hc. }
  assert (Hcarries : forall c', carriesHash (storage_request lib c' p)).
  { intros c'. split; [reflexivity|]. split; [apply Hreq | exact Hbody]. }
  assert (Hrun : put = (run.1.1, run.1.2, (ret_headers run.2, ret_err run.2))).
  { subst put. rewrite Hput. subst run p. rewrite (Hopts checkHash).
    reflexivity. }
  split; [|split; [|split; [|split; [|split; [|split; [|split;
    [|split; [|split]]]]]]]].
  - eexists. split; [reflexivity | exact Hetag].
  - exact Hreq.
  - exact Hbody.
  - exact Hrun.
  - rewrite Hput. cbv zeta. cbn [fst snd].
    rewrite storage_hashed; [reflexivity|].
    unfold ObjectPut_opts. cbn [body]. rewrite Hck. discriminate.
  - rewrite !Hput. reflexivity.
  - intros f. rewrite !Hput. cbv zeta. rewrite storage_md5. reflexivity.
  - rewrite Hrun. cbn [fst snd].
    destruct (storage_sent lib RoundTrip p c (ObjectPut_begin data w))
      as (new & Hs & HF).
    exists new. split; [exact Hs|].
    eapply Forall_impl; [exact HF|].
    intros req [[c' ->]|[c' ->]]; [left; eauto | right; apply Hcarries].
  - intros Ha Hn. rewrite Hrun. cbn [fst snd].
    destruct (storage_sends_first lib RoundTrip p c (ObjectPut_begin data w)
                Ha Hn) as (rest & Hs).
    exists rest. split; [exact Hs | apply Hcarries].
  - rewrite Hrun. cbn [fst snd]. intros He.
    eexists. split; [apply storage_last_request; exact He | apply Hcarries].
Qed.

(** An upload with its digest given, and [checkHash] set all the same:
    a handshake, then the [PUT] with the digest under [Etag]. *)
Lemma ObjectPut_precomputed_hash_witness :
  let Hash := "5d41402abc4b2a76b9719d911017c592" in
  let run := ObjectPut demoLib (demoTransport (demoResponse 201 "201 Created"))
               "box" "greeting" "hello" true Hash "" None
               demoConnection (demoWorld 0) in
  hashed run.1.2 = "" /\ run.2.2 = None /\
  ObjectPut_headers Hash "" None !! "Etag" = Some Hash /\
  length (sent run.1.2) = 2%nat /\
  exists req, last (sent run.1.2) = Some req /\
              req_Method req = "PUT" /\
              req_Header req !! "Etag" = Some [Hash].
Proof.
  intros Hash run.
  destruct (ObjectPut_precomputed_hash demoLib nat
              (demoTransport (demoResponse 201 "201 Created"))
              "box" "greeting" "hello" true Hash "" None
              demoConnection (demoWorld 0))
    as ((hs & Hhs & He) & _ & _ & _ & Hh & _ & _ & _ & _ & Hlast).
  - discriminate.
  - unfold ranges. reflexivity.
  - destruct Hlast as (req & Hreq & Hm & _ & _); [vm_compute; reflexivity|].
    split; [exact Hh|]. split; [vm_compute; reflexivity|].
    split; [injection Hhs as <-; exact He|].
    split; [vm_compute; reflexivity|].
    exists req. split; [exact Hreq|]. split; [exact Hm|].
    assert (Hv : last (sent run.1.2)
                 = Some (storage_request demoLib run.1.1
                           (ObjectPut_opts "box" "greeting" true Hash "" None)))
      by (vm_compute; reflexivity).
    fold run in Hreq. rewrite Hv in Hreq. injection Hreq as <-.
    vm_compute. reflexivity.
Defined.

(** ** ChecksumGuard: download *)

Lemma string_app_cons x (a b : string) : String x a +:+ b = String x (a +:+ b).
Proof. reflexivity. Qed.

Lemma string_app_assoc (a b c : string) : (a +:+ b) +:+ c = a +:+ (b +:+ c).
Proof.
  induction a as [|x a IH]; [reflexivity|].
  rewrite !string_app_cons. by rewrite IH.
Qed.

Lemma string_app_nil_r (a : string) : a +:+ "" = a.
Proof.
  induction a as [|x a IH]; [reflexivity|].
  rewrite string_app_cons. by rewrite IH.
Qed.

Lemma string_length_app (a b : string) :
  String.length (a +:+ b) = (String.length a + String.length b)%nat.
Proof.
  induction a as [|x a IH]; [reflexivity|].
  rewrite string_app_cons. simpl. by rewrite IH.
Qed.

Lemma string_take_all (s : string) : string_take (String.length s) s = s.
Proof. induction s as [|x s IH]; simpl; [reflexivity | by rewrite IH]. Qed.

Lemma string_length_0 (s : string) : String.length s = 0%nat -> s = "".
Proof. destruct s; [reflexivity | discriminate]. Qed.

(** A copy through [io.MultiWriter(contents, hash)] that ends without
    error has read every block and given the sink and the hash the same
    bytes. *)
Lemma io_Copy_MultiWriter blocks : forall sink hs ending n dst unread written,
  io_Copy MultiWriter_Write (sink, hs) blocks ending n
    = (dst, unread, written, None) ->
  sunk dst.1 = sunk sink +:+ joined blocks /\
  dst.2 = hs +:+ joined blocks /\
  written = n + Z.of_nat (String.length (joined blocks)) /\
  unread = [] /\ ending = None.
Proof.
  induction blocks as [|block rest IH]; intros sink hs ending n dst unread written.
  - simpl. intros [= <- <- <- <-]. simpl.
    rewrite !string_app_nil_r. repeat split. lia.
  - simpl. destruct (Nat.eqb_spec (String.length block) 0) as [E0|Hne].
    + intros H. apply IH in H. apply string_length_0 in E0. subst block.
      exact H.
    + unfold MultiWriter_Write at 1. unfold Writer_Write. simpl.
      destruct (policy sink (sunk sink) block) as [m e].
      destruct e as [err|]; [discriminate|].
      destruct (Nat.eqb_spec (Nat.min m (String.length block)) (String.length block))
        as [E|Hshort]; [|discriminate].
      rewrite Nat.eqb_refl. rewrite E, string_take_all.
      intros H. apply IH in H. simpl in H.
      destruct H as (Hs & Hh & Hw & Hu & He).
      rewrite string_app_assoc in Hs, Hh.
      repeat split; try assumption.
      rewrite string_length_app. lia.
Qed.

(** C9.  [ObjectGet] with [checkHash], once [storage] has returned the
    response and the copy has completed: the digest is taken over exactly
    the bytes the sink received; it is compared, as lower-case hex, with
    the lower-cased [Etag] of the response, and a difference gives
    [ObjectCorrupted]; a declared [Content-Length] that differs from the
    number of bytes copied gives [ObjectCorrupted] too, so a response that
    declares 50 bytes and delivers 40 does; and no further request is
    sent. *)
Theorem ObjectGet_detects_corruption lib (T : Type)
    (RoundTrip : T -> Request -> T * Reply) (cont obj : string)
    (sink : Writer) (h hs : option Headers) (c c1 : Connection)
    (w w1 : World T) (resp : Response) (dst : Writer * string)
    (unread : list string) (written : Z) :
  storage lib RoundTrip (ObjectGet_opts cont obj h) c w
    = (c1, w1, mkRet (Some resp) hs None) ->
  io_Copy MultiWriter_Write (sink, "") (chunks (resp_Body resp))
          (readErr (resp_Body resp)) 0 = (dst, unread, written, None) ->
  let run := ObjectGet lib RoundTrip cont obj sink true h c w in
  let received := ToLower lib (resp_Get (resp_Header resp) "Etag") in
  let declared := resp_Get (resp_Header resp) "Content-Length" in
  (run.1.1.2 = dst.1 /\
   sunk dst.1 = sunk sink +:+ dst.2 /\
   written = Z.of_nat (String.length dst.2)) /\
  (received <> calculatedMd5 lib dst.2 ->
     run.2.2 = Some (Swift ObjectCorrupted)) /\
  (forall n, declared <> "" -> ParseInt declared = (n, None) -> n <> written ->
     run.2.2 = Some (Swift ObjectCorrupted)) /\
  (declared = "50" -> written = 40 ->
     run.2.2 = Some (Swift ObjectCorrupted)) /\
  (received = calculatedMd5 lib dst.2 ->
   declared = "" \/ ParseInt declared = (written, None) ->
     run.2.2 = closeErr (resp_Body resp)) /\
  sent run.1.1.1.2 = sent w1.
Proof.
  intros Hst Hcopy run received declared.
  destruct (io_Copy_MultiWriter _ _ _ _ _ _ _ _ Hcopy)
    as (Hsunk & Hhash & Hwr & _ & _).
  assert (Hj : dst.2 = joined (chunks (resp_Body resp))) by exact Hhash.
  rewrite <- Hj in Hsunk, Hwr.
  assert (Hrun : run =
    (c1, countClose w1, dst.1,
     Some (mkResponse (resp_StatusCode resp) (resp_Status resp) (resp_Header resp)
             (mkBody unread (readErr (resp_Body resp))
                     (closeErr (resp_Body resp)) true)),
     (hs, checkClose (closeErr (resp_Body resp))
            (if negb (String.eqb received (calculatedMd5 lib dst.2))
             then Some (Swift ObjectCorrupted)
             else if nonEmpty declared then
               match getInt64FromHeader lib resp "Content-Length" with
               | (_, Some err) => Some err
               | (objectLength, None) =>
                   if objectLength =? written then None
                   else Some (Swift ObjectCorrupted)
               end
             else None)))).
  { subst run. unfold ObjectGet. rewrite Hst. cbn [ret_err ret_resp ret_headers].
    unfold ObjectGet_transfer. rewrite Hcopy. cbn [andb].
    fold received. fold declared.
    destruct (negb (String.eqb received (calculatedMd5 lib dst.2)));
      [reflexivity|].
    destruct (nonEmpty declared); [|reflexivity].
    destruct (getInt64FromHeader lib resp "Content-Length") as [n [e|]];
      [reflexivity|].
    destruct (n =? written); reflexivity. }
  assert (Hlen : forall n, declared <> "" -> ParseInt declared = (n, None) ->
            n <> written -> run.2.2 = Some (Swift ObjectCorrupted)).
  { intros n Hd Hp Hn. rewrite Hrun. cbn [fst snd].
    destruct (negb (String.eqb received (calculatedMd5 lib dst.2)));
      [reflexivity|].
    apply nonEmpty_true in Hd. rewrite Hd.
    unfold getInt64FromHeader. fold declared. rewrite Hp.
    destruct (Z.eqb_spec n written); [contradiction | reflexivity]. }
  split; [|split; [|split; [|split; [|split]]]].
  - rewrite Hrun. cbn [fst snd]. split; [reflexivity|].
    split; [assumption | lia].
  - intros Hne. rewrite Hrun. cbn [fst snd].
    destruct (String.eqb_spec received (calculatedMd5 lib dst.2));
      [contradiction | reflexivity].
  - exact Hlen.
  - intros Hd ->. apply (Hlen 50).
    + rewrite Hd. discriminate.
    + rewrite Hd. reflexivity.
    + lia.
  - intros Heq Hd. rewrite Hrun. cbn [fst snd].
    rewrite Heq, String.eqb_refl. cbn [negb].
    destruct Hd as [Hd|Hd].
    + rewrite Hd. reflexivity.
    + destruct (nonEmpty declared); [|reflexivity].
      unfold getInt64FromHeader. fold declared. rewrite Hd, Z.eqb_refl.
      reflexivity.
  - rewrite Hrun. reflexivity.
Qed.

(** Fifty bytes declared, forty delivered. *)
Lemma ObjectGet_detects_corruption_witness :
  (ObjectGet demoLib (demoTransport truncatedResponse) "box" "clip" demoSink
             true None demoConnection (demoWorld 0)).2.2
    = Some (Swift ObjectCorrupted).
Proof.
  pose (st := storage demoLib (demoTransport truncatedResponse)
                (ObjectGet_opts "box" "clip" None) demoConnection (demoWorld 0)).
  pose (cp := io_Copy MultiWriter_Write (demoSink, "")
                (chunks (resp_Body truncatedResponse))
                (readErr (resp_Body truncatedResponse)) 0).
  destruct (ObjectGet_detects_corruption demoLib nat
              (demoTransport truncatedResponse) "box" "clip" demoSink None
              (ret_headers st.2) demoConnection st.1.1 (demoWorld 0) st.1.2
              truncatedResponse cp.1.1.1 cp.1.1.2 cp.1.2)
    as (_ & _ & _ & H50 & _).
  - vm_compute. reflexivity.
  - vm_compute. reflexivity.
  - apply H50; reflexivity.
Defined.

(** * Further properties of the dispatcher *)


(** X1.  Whatever the transport does, one call of [storage] performs at
    most [r + 1] handshakes and sends at most [r + 1] resource requests,
    [r] being its retry budget (none counts below zero); every request it
    sends beyond the handshakes is a resource request. *)
Theorem storage_request_bound lib (T : Type)
    (RoundTrip : T -> Request -> T * Reply) (p : storageOpts)
    (c : Connection) (w : World T) :
  let w' := (storage lib RoundTrip p c w).1.2 in
  let r := Z.to_nat (retryBudget p c) in
  (handshakes w' <= handshakes w + r + 1)%nat /\
  (length (sent w) + (handshakes w' - handshakes w) <= length (sent w'))%nat /\
  (length (sent w') <= length (sent w) + (handshakes w' - handshakes w) + r + 1)%nat.
Proof.
  intros w' r.
  assert (H : (handshakes w <= handshakes w')%nat /\
              (handshakes w' <= handshakes w + r + 1)%nat /\
              (length (sent w) + handshakes w' <= length (sent w') + handshakes w)%nat /\
              (length (sent w') + handshakes w
                 <= length (sent w) + handshakes w' + r + 1)%nat).
  { subst w' r. unfold storage.
    pose proof (storage_loop_counts lib RoundTrip p (retryBudget p c) c w None) as Hl.
    destruct (storage_loop _ _ _ _ _ _ _) as [[c1 w1] [[resp e]|resp]];
      simpl in Hl; [exact Hl|].
    destruct (parseHeaders _ _); [exact Hl|].
    destruct (noResponse p); [|exact Hl].
    simpl. destruct (closeErr _); exact Hl. }
  lia.
Qed.


(** X2.  What [storage] returns has one of two shapes: no error, with the
    response and its headers; or an error with no headers and, if any
    response at all, one whose body is closed already: the 401 answer an
    earlier turn of the loop closed, or the response [Do] returned with
    its error.  A caller that gets an error has nothing to close. *)
Theorem storage_result_shape lib (T : Type)
    (RoundTrip : T -> Request -> T * Reply) (p : storageOpts)
    (c : Connection) (w : World T) :
  match ret_err (storage lib RoundTrip p c w).2 with
  | None => is_Some (ret_resp (storage lib RoundTrip p c w).2) /\
            is_Some (ret_headers (storage lib RoundTrip p c w).2)
  | Some _ => ret_headers (storage lib RoundTrip p c w).2 = None /\
              alreadyClosed (ret_resp (storage lib RoundTrip p c w).2)
  end.
Proof.
  unfold storage.
  destruct (storage_loop _ _ _ _ _ _ _) as [[c1 w1] [[prev e]|resp]] eqn:Hl.
  - simpl. split; [reflexivity|].
    eapply storage_loop_closed; [|exact Hl]. intros resp [=].
  - destruct (parseHeaders _ _); [simpl; split; [reflexivity | intros ? [=]]|].
    destruct (noResponse p); [|simpl; split; eauto].
    simpl. destruct (closeErr _); simpl; [split; [reflexivity | intros ? [=]]|].
    split; eauto.
Qed.

(** X3.  With a session in place, an error of the transport ends [storage]
    at once, whatever the retry budget: the error is returned as it is,
    with no headers and the response [Do] returned with it, which is none
    unless a redirect check failed and is closed then; one request was
    sent, no handshake made, no body closed by [storage], and the session
    is untouched. *)
Theorem storage_transport_error lib (T : Type)
    (RoundTrip : T -> Request -> T * Reply) (p : storageOpts)
    (c : Connection) (w : World T) (t' : T) (n : nat) (e : error)
    (r : option Response) :
  Authenticated c = true ->
  NewRequest_err lib (operation p) (storage_url lib c p) = None ->
  RoundTrip (net w) (storage_request lib c p)
    = (t', mkReplyWith n (inl e) r) ->
  (storage lib RoundTrip p c w).2
    = mkRet ((fun resp => (Response_Close resp).1) <$> r) None (Some e) /\
  (r = None -> (storage lib RoundTrip p c w).2 = mkRet None None (Some e)) /\
  alreadyClosed (ret_resp (storage lib RoundTrip p c w).2) /\
  (storage lib RoundTrip p c w).1.1 = c /\
  sent (storage lib RoundTrip p c w).1.2 = sent w ++ [storage_request lib c p] /\
  handshakes (storage lib RoundTrip p c w).1.2 = handshakes w /\
  closes (storage lib RoundTrip p c w).1.2 = closes w.
Proof.
  intros Ha Hn HRT. unfold storage. rewrite storage_loop_step.
  rewrite (storage_attempt_live lib RoundTrip p c w None Ha Hn).
  destruct (client_Do_counts RoundTrip w (storage_request lib c p))
    as (Hs & Hh & Hc & _).
  pose proof (client_Do_outcome RoundTrip w (storage_request lib c p)) as Ho.
  unfold client_Do_refused. rewrite HRT in *. simpl in Ho.
  destruct (client_Do RoundTrip w (storage_request lib c p)) as [w1 o].
  simpl in *. subst o. simpl.
  split; [reflexivity|]. split; [intros ->; reflexivity|].
  split; [|repeat split; assumption].
  intros resp Hr. destruct r as [r0|]; [|discriminate].
  injection Hr as <-. reflexivity.
Qed.

(** A redirect loop, with the default three retries to spare: the last
    redirect comes back with the error, closed. *)
Lemma storage_transport_error_witness :
  let e := Library "stopped after 10 redirects" in
  let t := redirectingTransport e (demoResponse 302 "302 Found") in
  (storage demoLib t Account_opts liveConnection unitWorld).2
    = mkRet (Some (Response_Close (demoResponse 302 "302 Found")).1) None
            (Some e) /\
  length (sent (storage demoLib t Account_opts liveConnection unitWorld).1.2)
    = 1%nat.
Proof.
  intros e t.
  destruct (storage_transport_error demoLib unit t Account_opts liveConnection
              unitWorld tt 0%nat e (Some (demoResponse 302 "302 Found")))
    as (Hr & _ & _ & _ & Hs & _).
  - reflexivity.
  - reflexivity.
  - reflexivity.
  - split; [exact Hr|]. rewrite Hs. reflexivity.
Defined.

(** X4.  When the handshake fails, [storage] returns the error of
    [Authenticate] as it is, with no response, and does nothing more: the
    connection and the world are those [Authenticate] left, so no resource
    request was sent, whatever the retry budget. *)
Theorem storage_handshake_failure lib (T : Type)
    (RoundTrip : T -> Request -> T * Reply) (p : storageOpts)
    (c : Connection) (w : World T) (e : error) :
  Authenticated c = false ->
  (Authenticate lib RoundTrip c w).2 = Some e ->
  storage lib RoundTrip p c w
    = ((Authenticate lib RoundTrip c w).1.1,
       (Authenticate lib RoundTrip c w).1.2,
       mkRet None None (Some e)).
Proof.
  intros Ha He. unfold storage. rewrite storage_loop_step.
  unfold storage_attempt. rewrite Ha. simpl.
  destruct (Authenticate lib RoundTrip c w) as [[c0 w0] a]. simpl in He.
  subst a. reflexivity.
Qed.

(** Credentials refused: the one request sent is the handshake. *)
Lemma storage_handshake_failure_witness :
  storage demoLib (constTransport deniedResponse) Account_opts demoConnection
          unitWorld
    = (setDefaults demoConnection,
       afterHandshake demoConnection unitWorld tt,
       mkRet None None (Some (Swift AuthorizationFailed))).
Proof.
  rewrite (storage_handshake_failure demoLib unit (constTransport deniedResponse)
             Account_opts demoConnection unitWorld (Swift AuthorizationFailed)).
  - vm_compute. reflexivity.
  - reflexivity.
  - vm_compute. reflexivity.
Defined.

(** X5.  With a session in place and an answer other than 401, [storage]
    makes no handshake and sends exactly one request, the one built from
    the session; the connection is unchanged, and the error is the
    classifier's verdict on that answer, or, when it passes and
    [noResponse] is set, what [Close] returns. *)
Theorem storage_reuses_session lib (T : Type)
    (RoundTrip : T -> Request -> T * Reply) (p : storageOpts)
    (c : Connection) (w : World T) (t' : T) (n : nat) (resp : Response) :
  Authenticated c = true ->
  NewRequest_err lib (operation p) (storage_url lib c p) = None ->
  RoundTrip (net w) (storage_request lib c p) = (t', mkReply n (inr resp)) ->
  resp_StatusCode resp <> 401 ->
  (storage lib RoundTrip p c w).1.1 = c /\
  handshakes (storage lib RoundTrip p c w).1.2 = handshakes w /\
  idleFlushes (storage lib RoundTrip p c w).1.2 = idleFlushes w /\
  sent (storage lib RoundTrip p c w).1.2 = sent w ++ [storage_request lib c p] /\
  ret_err (storage lib RoundTrip p c w).2
    = match parseHeaders resp (opt_errorMap p) with
      | Some err => Some err
      | None => if noResponse p then closeErr (resp_Body resp) else None
      end.
Proof.
  intros Ha Hn HRT H401. unfold storage. rewrite storage_loop_step.
  rewrite (storage_attempt_live lib RoundTrip p c w None Ha Hn).
  destruct (client_Do_counts RoundTrip w (storage_request lib c p))
    as (Hs & Hh & Hc & Hf).
  pose proof (client_Do_outcome RoundTrip w (storage_request lib c p)) as Ho.
  rewrite HRT in Ho. simpl in Ho.
  destruct (client_Do RoundTrip w (storage_request lib c p)) as [w1 r].
  simpl in *. subst r.
  destruct (Z.eqb_spec (resp_StatusCode resp) 401); [contradiction|]. simpl.
  destruct (parseHeaders resp (opt_errorMap p)); simpl;
    [repeat split; assumption|].
  destruct (noResponse p); simpl; [|repeat split; assumption].
  destruct (closeErr (resp_Body resp)); simpl; repeat split; assumption.
Qed.

(** A second account request on a live session. *)
Lemma storage_reuses_session_witness :
  let run := storage demoLib (demoTransport (demoResponse 204 "204 No Content"))
                     Account_opts liveConnection (demoWorld 0) in
  run.1.1 = liveConnection /\ handshakes run.1.2 = 0%nat /\
  length (sent run.1.2) = 1%nat /\ ret_err run.2 = None.
Proof.
  intros run.
  destruct (storage_reuses_session demoLib nat
              (demoTransport (demoResponse 204 "204 No Content"))
              Account_opts liveConnection (demoWorld 0) 0%nat 0%nat
              (demoResponse 204 "204 No Content"))
    as (Hc & Hh & _ & Hs & He).
  - reflexivity.
  - reflexivity.
  - reflexivity.
  - simpl. lia.
  - subst run. rewrite Hc, Hh, Hs, He. repeat split.
Defined.

(** X6.  When [storage] succeeds, the last request sent is the one built
    from the session the connection holds on return: after a
    re-authentication the answer returned was obtained with the new
    token, and the session is in place for the next call. *)
Theorem storage_answer_is_current lib (T : Type)
    (RoundTrip : T -> Request -> T * Reply) (p : storageOpts)
    (c : Connection) (w : World T) :
  ret_err (storage lib RoundTrip p c w).2 = None ->
  last (sent (storage lib RoundTrip p c w).1.2)
    = Some (storage_request lib (storage lib RoundTrip p c w).1.1 p) /\
  Authenticated (storage lib RoundTrip p c w).1.1 = true.
Proof.
  unfold storage.
  destruct (storage_loop _ _ _ _ _ _ _) as [[c1 w1] [[prev e]|resp]] eqn:Hl;
    [discriminate|].
  pose proof (storage_loop_last lib RoundTrip p _ c w None c1 w1 resp Hl) as Hlast.
  pose proof (storage_loop_authenticated lib RoundTrip p _ c w None c1 w1 resp Hl)
    as Hauth.
  destruct (parseHeaders _ _); [discriminate|].
  destruct (noResponse p); simpl; [|auto].
  destruct (closeErr _); simpl; [discriminate | auto].
Qed.

(** One expired token: four requests, the last one with the session held
    on return. *)
Lemma storage_answer_is_current_witness :
  let run := storage demoLib (demoTransport (demoResponse 204 "204 No Content"))
                     Account_opts liveConnection (demoWorld 1) in
  last (sent run.1.2) = Some (storage_request demoLib run.1.1 Account_opts) /\
  Authenticated run.1.1 = true.
Proof.
  intros run.
  apply (storage_answer_is_current demoLib nat
           (demoTransport (demoResponse 204 "204 No Content"))
           Account_opts liveConnection (demoWorld 1)).
  vm_compute. reflexivity.
Defined.

(** * Further properties of the session *)

Lemma handshakeRequest_credentials c :
  Header_Get (req_Header (handshakeRequest c)) "X-Auth-Key" = ApiKey c /\
  Header_Get (req_Header (handshakeRequest c)) "X-Auth-User" = UserName c /\
  Header_Get (req_Header (handshakeRequest c)) "User-Agent" = UserAgent c.
Proof.
  unfold Header_Get, handshakeRequest, handshakeHeader, Header_Set. simpl.
  change (CanonicalHeaderKey "X-Auth-Key") with "X-Auth-Key".
  change (CanonicalHeaderKey "X-Auth-User") with "X-Auth-User".
  change (CanonicalHeaderKey "User-Agent") with "User-Agent".
  repeat split.
Qed.

(** X7.  A handshake the server grants: [Authenticate] returns no error
    and leaves the session as the two response headers give it, with the
    defaults for the user agent and the retries filled in; it has sent one
    GET to the authentication URL carrying the key, the user and the user
    agent, closed the body of the answer, and flushed the idle connections
    before and after. *)
Theorem Authenticate_granted lib (T : Type)
    (RoundTrip : T -> Request -> T * Reply) (c : Connection) (w : World T)
    (t' : T) (n : nat) (resp : Response) :
  NewRequest_err lib "GET" (AuthUrl c) = None ->
  RoundTrip (net w) (handshakeRequest (setDefaults c))
    = (t', mkReply n (inr resp)) ->
  grants resp ->
  let c' := (Authenticate lib RoundTrip c w).1.1 in
  let w' := (Authenticate lib RoundTrip c w).1.2 in
  (Authenticate lib RoundTrip c w).2 = None /\
  storageUrl c' = resp_Get (resp_Header resp) "X-Storage-Url" /\
  authToken c' = resp_Get (resp_Header resp) "X-Auth-Token" /\
  Authenticated c' = true /\
  UserAgent c' = (if String.eqb (UserAgent c) "" then DefaultUserAgent
                  else UserAgent c) /\
  Retries c' = (if Retries c =? 0 then DefaultRetries else Retries c) /\
  (exists req, sent w' = sent w ++ [req] /\
     req_Method req = "GET" /\ req_URL req = AuthUrl c /\
     Header_Get (req_Header req) "X-Auth-Key" = ApiKey c /\
     Header_Get (req_Header req) "X-Auth-User" = UserName c /\
     Header_Get (req_Header req) "User-Agent" = UserAgent c') /\
  closes w' = S (closes w) /\
  idleFlushes w' = S (S (idleFlushes w)).
Proof.
  intros Hnew HRT (Hp & Hs & Ht & Hcl) c' w'. subst c' w'.
  rewrite (Authenticate_answered lib RoundTrip c w t' n resp Hnew HRT).
  rewrite Hp. cbn zeta.
  assert (Ha : Authenticated
            (setSession (setDefaults c)
               (resp_Get (resp_Header resp) "X-Storage-Url")
               (resp_Get (resp_Header resp) "X-Auth-Token")) = true).
  { unfold Authenticated. simpl. by rewrite Hs, Ht. }
  rewrite Ha. simpl.
  destruct (handshakeRequest_credentials (setDefaults c)) as (Hk & Hu & Hua).
  repeat split; try assumption.
  eexists. split; [reflexivity|]. repeat split; assumption.
Qed.

(** The first handshake of a fresh connection. *)
Lemma Authenticate_granted_witness :
  let run := Authenticate demoLib (constTransport grantResponse)
                          demoConnection unitWorld in
  run.2 = None /\ authToken run.1.1 = "tok" /\
  UserAgent run.1.1 = "goswift/1.0" /\ idleFlushes run.1.2 = 2%nat.
Proof.
  intros run.
  destruct (Authenticate_granted demoLib unit (constTransport grantResponse)
              demoConnection unitWorld tt 0%nat grantResponse)
    as (He & _ & Ht & _ & Hua & _ & _ & _ & Hf).
  - reflexivity.
  - reflexivity.
  - repeat split.
  - subst run. rewrite He, Ht, Hua, Hf. repeat split.
Defined.

(** X8.  A handshake the classifier rejects (401 is
    [AuthorizationFailed], any other status outside 200..299 the generic
    error): [Authenticate] returns that error and does not touch the two
    session fields, so a connection that held a session still holds it
    and still reports [Authenticated]; the body of the answer is
    closed. *)
Theorem Authenticate_rejected lib (T : Type)
    (RoundTrip : T -> Request -> T * Reply) (c : Connection) (w : World T)
    (t' : T) (n : nat) (resp : Response) (e : error) :
  NewRequest_err lib "GET" (AuthUrl c) = None ->
  RoundTrip (net w) (handshakeRequest (setDefaults c))
    = (t', mkReply n (inr resp)) ->
  parseHeaders resp authErrorMap = Some e ->
  let c' := (Authenticate lib RoundTrip c w).1.1 in
  (Authenticate lib RoundTrip c w).2 = Some e /\
  (resp_StatusCode resp = 401 -> e = Swift AuthorizationFailed) /\
  storageUrl c' = storageUrl c /\ authToken c' = authToken c /\
  Authenticated c' = Authenticated c /\
  closes (Authenticate lib RoundTrip c w).1.2 = S (closes w).
Proof.
  intros Hnew HRT Hp c'. subst c'.
  rewrite (Authenticate_answered lib RoundTrip c w t' n resp Hnew HRT).
  rewrite Hp. simpl. repeat split.
  intros H401. unfold parseHeaders in Hp. rewrite H401 in Hp.
  change (authErrorMap ≫= (fun tbl => tbl !! 401))
    with (Some AuthorizationFailed) in Hp.
  congruence.
Qed.

(** Credentials revoked while a session is held. *)
Lemma Authenticate_rejected_witness :
  let run := Authenticate demoLib (constTransport deniedResponse)
                          liveConnection unitWorld in
  run.2 = Some (Swift AuthorizationFailed) /\ authToken run.1.1 = "tok" /\
  Authenticated run.1.1 = true.
Proof.
  intros run.
  destruct (Authenticate_rejected demoLib unit (constTransport deniedResponse)
              liveConnection unitWorld tt 0%nat deniedResponse
              (Swift AuthorizationFailed))
    as (He & _ & _ & Ht & Ha & _).
  - reflexivity.
  - reflexivity.
  - reflexivity.
  - subst run. rewrite He, Ht, Ha. repeat split.
Defined.

(** * Further properties of the codec *)

Lemma canonByte_of_lower up c : canonByte up (toLowerByte c) = canonByte up c.
Proof.
  destruct up; destruct c as [[] [] [] [] [] [] [] []]; reflexivity.
Qed.

Lemma toLowerByte_idem c : toLowerByte (toLowerByte c) = toLowerByte c.
Proof. destruct c as [[] [] [] [] [] [] [] []]; reflexivity. Qed.

Lemma valid_toLowerByte c :
  validHeaderFieldByte (toLowerByte c) = validHeaderFieldByte c.
Proof. destruct c as [[] [] [] [] [] [] [] []]; reflexivity. Qed.

Lemma isASCII_toLowerByte c : isASCIIByte (toLowerByte c) = isASCIIByte c.
Proof. destruct c as [[] [] [] [] [] [] [] []]; reflexivity. Qed.

Lemma canonLoop_of_lower up s :
  canonLoop up (string_map toLowerByte s) = canonLoop up s.
Proof.
  revert up. induction s as [|c s IH]; intros up; simpl; [reflexivity|].
  rewrite canonByte_of_lower, IH. reflexivity.
Qed.

Lemma string_map_app f (a b : string) :
  string_map f (a +:+ b) = string_map f a +:+ string_map f b.
Proof.
  induction a as [|c a IH]; [reflexivity|].
  rewrite string_app_cons. simpl. rewrite IH. reflexivity.
Qed.

Lemma string_map_lower_idem s :
  string_map toLowerByte (string_map toLowerByte s) = string_map toLowerByte s.
Proof.
  induction s as [|c s IH]; simpl; [reflexivity|].
  rewrite toLowerByte_idem, IH. reflexivity.
Qed.

Lemma string_forall_map_lower (f : ascii -> bool) s :
  (forall c, f (toLowerByte c) = f c) ->
  string_forall f (string_map toLowerByte s) = string_forall f s.
Proof.
  intros Hf. induction s as [|c s IH]; simpl; [reflexivity|].
  rewrite Hf, IH. reflexivity.
Qed.

Lemma string_forall_drop f n s :
  string_forall f s = true -> string_forall f (string_drop n s) = true.
Proof.
  revert s. induction n as [|n IH]; intros [|c s]; simpl; auto.
  intros [_ H]%andb_prop. auto.
Qed.

Lemma HasPrefix_split s pre :
  HasPrefix s pre = true -> s = pre +:+ string_drop (String.length pre) s.
Proof.
  revert s. induction pre as [|a pre IH]; intros s H; [reflexivity|].
  destruct s as [|b s]; simpl in H; [discriminate|].
  destruct (ascii_dec a b) as [->|]; [|discriminate].
  rewrite string_app_cons. simpl. f_equal. auto.
Qed.

Lemma ToLower_ascii lib s :
  string_forall isASCIIByte s = true -> ToLower lib s = string_map toLowerByte s.
Proof. intros H. unfold ToLower. rewrite H. reflexivity. Qed.

Lemma ToLower_idem lib s :
  string_forall isASCIIByte s = true ->
  ToLower lib (ToLower lib s) = ToLower lib s.
Proof.
  intros H. rewrite (ToLower_ascii lib s H).
  rewrite ToLower_ascii, string_map_lower_idem; [reflexivity|].
  rewrite string_forall_map_lower; [assumption | apply isASCII_toLowerByte].
Qed.

(** For a header name in canonical form, the key [Headers.Metadata] files
    it under leads [Metadata.Headers] back to the name. *)
Lemma metaKey_inverse lib p k mk :
  string_forall validHeaderFieldByte k = true ->
  CanonicalHeaderKey k = k ->
  metaKey lib (CanonicalHeaderKey p) k = Some mk ->
  CanonicalHeaderKey (p +:+ mk) = k.
Proof.
  intros Hv Hc Hm. unfold metaKey in Hm.
  destruct (HasPrefix k (CanonicalHeaderKey p)) eqn:Hpre; [|discriminate].
  injection Hm as <-.
  apply HasPrefix_split in Hpre.
  set (suffix := string_drop (String.length (CanonicalHeaderKey p)) k) in *.
  assert (Hv' := Hv). rewrite Hpre, string_forall_app in Hv'.
  apply andb_prop in Hv' as [Hvcp Hvs].
  assert (Hvp : string_forall validHeaderFieldByte p = true).
  { unfold CanonicalHeaderKey in Hvcp.
    destruct (string_forall validHeaderFieldByte p) eqn:E;
      [reflexivity | congruence]. }
  assert (Hcp : CanonicalHeaderKey p = canonLoop true p).
  { unfold CanonicalHeaderKey. rewrite Hvp. reflexivity. }
  rewrite (ToLower_ascii lib suffix (valid_string_isASCII _ Hvs)).
  assert (Hk : k = canonLoop true k).
  { unfold CanonicalHeaderKey in Hc. rewrite Hv in Hc. congruence. }
  clearbody suffix.
  transitivity (canonLoop true k); [|congruence].
  rewrite Hpre, Hcp.
  unfold CanonicalHeaderKey.
  rewrite string_forall_app, Hvp,
    (string_forall_map_lower _ _ valid_toLowerByte), Hvs. simpl.
  rewrite <- (canonLoop_of_lower true (p +:+ _)).
  rewrite <- (canonLoop_of_lower true (canonLoop true p +:+ _)).
  rewrite !string_map_app, string_map_lower_idem, canonLoop_map_toLower.
  reflexivity.
Qed.

(** X9.  Headers to metadata and back: for headers whose names are in
    canonical form and made of token bytes, [Metadata.Headers] applied to
    the result of [Headers.Metadata] (same prefix, whatever the two
    visiting orders) gives back exactly the headers that carry the
    canonical prefix, names and values unchanged. *)
Theorem headers_round_trip lib (h : Headers) p l1 l2 :
  canonicalKeys h ->
  ranges h l1 ->
  ranges (Headers_Metadata lib l1 p) l2 ->
  Metadata_Headers l2 p = withPrefix (CanonicalHeaderKey p) h.
Proof.
  intros Hck Hl1 Hl2.
  assert (Hinv : forall k mk, k ∈ dom h ->
            metaKey lib (CanonicalHeaderKey p) k = Some mk ->
            CanonicalHeaderKey (p +:+ mk) = k).
  { intros k mk Hk Hm. destruct (Hck k Hk) as [Hv Hc].
    by apply metaKey_inverse with lib. }
  assert (Hinj1 : forall k' k1 k2, k1 ∈ dom h -> k2 ∈ dom h ->
            metaKey lib (CanonicalHeaderKey p) k1 = Some k' ->
            metaKey lib (CanonicalHeaderKey p) k2 = Some k' -> k1 = k2).
  { intros k' k1 k2 H1 H2 E1 E2.
    rewrite <- (Hinv k1 k' H1 E1), <- (Hinv k2 k' H2 E2). reflexivity. }
  assert (HM : forall mk v, Headers_Metadata lib l1 p !! mk = Some v <->
            exists k, h !! k = Some v /\
                      metaKey lib (CanonicalHeaderKey p) k = Some mk).
  { intros mk v. apply Headers_Metadata_lookup; [assumption|]. apply Hinj1. }
  assert (Hsrc : forall mk, mk ∈ dom (Headers_Metadata lib l1 p) ->
            exists k, k ∈ dom h /\
                      metaKey lib (CanonicalHeaderKey p) k = Some mk).
  { intros mk [v Hv]%elem_of_dom. apply HM in Hv as (k & Hk & Hm).
    exists k. split; [apply elem_of_dom; eauto | assumption]. }
  apply map_eq. intros k. apply option_eq. intros v.
  unfold withPrefix. rewrite map_lookup_filter_Some. simpl.
  rewrite (Metadata_Headers_lookup (Headers_Metadata lib l1 p) l2 p k v Hl2).
  - split.
    + intros (mk & Hmk & E). apply HM in Hmk as (k0 & Hk0 & Hm).
      assert (k0 = k) as ->.
      { rewrite <- E. symmetry. apply Hinv; [apply elem_of_dom; eauto | assumption]. }
      split; [assumption|]. unfold metaKey in Hm.
      destruct (HasPrefix k (CanonicalHeaderKey p)); [reflexivity | discriminate].
    + intros [Hk Hpre].
      exists (ToLower lib (string_drop (String.length (CanonicalHeaderKey p)) k)).
      assert (Hm : metaKey lib (CanonicalHeaderKey p) k
                   = Some (ToLower lib (string_drop
                        (String.length (CanonicalHeaderKey p)) k))).
      { unfold metaKey. rewrite Hpre. reflexivity. }
      split; [apply HM; eauto|].
      apply Hinv; [apply elem_of_dom; eauto | assumption].
  - intros m1 m2 H1 H2 E1 E2.
    destruct (Hsrc m1 H1) as (k1 & Hk1 & Hm1).
    destruct (Hsrc m2 H2) as (k2 & Hk2 & Hm2).
    assert (k1 = k2) as ->.
    { rewrite <- (Hinv k1 m1 Hk1 Hm1), <- (Hinv k2 m2 Hk2 Hm2). congruence. }
    congruence.
Qed.

(** Two object headers, one of them user metadata. *)
Lemma headers_round_trip_witness :
  let h : Headers :=
    <[ "X-Object-Meta-Fruit-Kind" := "apple" ]> {[ "Content-Length" := "5" ]} in
  Metadata_Headers
    (map_to_list (Headers_Metadata demoLib (map_to_list h) "x-object-meta-"))
    "x-object-meta-"
  = {[ "X-Object-Meta-Fruit-Kind" := "apple" ]}.
Proof.
  intros h.
  rewrite (headers_round_trip demoLib h "x-object-meta-"
             (map_to_list h)
             (map_to_list (Headers_Metadata demoLib (map_to_list h)
                                            "x-object-meta-"))).
  - vm_compute. reflexivity.
  - intros k Hk. subst h. rewrite dom_insert, dom_singleton in Hk.
    apply elem_of_union in Hk as [Hk|Hk]; apply elem_of_singleton in Hk;
      subst k; split; reflexivity.
  - unfold ranges. reflexivity.
  - unfold ranges. reflexivity.
Defined.

Section RangeFold.
Context {V : Type} (f : string -> option string).

Lemma range_fold_sound (l : list (string * V)) : forall m0 k' v,
  foldl (range_step f) m0 l !! k' = Some v ->
  m0 !! k' = Some v \/ exists k, (k, v) ∈ l /\ f k = Some k'.
Proof.
  induction l as [|[k0 v0] l IH]; intros m0 k' v H; simpl in H; [by left|].
  apply IH in H as [H|(k & Hin & Hf)].
  - unfold range_step in H. simpl in H.
    destruct (f k0) as [k1|] eqn:E; [|by left].
    destruct (decide (k1 = k')) as [->|Hne].
    + rewrite lookup_insert_eq in H. injection H as ->.
      right. exists k0. split; [apply list_elem_of_here | assumption].
    + rewrite lookup_insert_ne in H by assumption. by left.
  - right. exists k. split; [by apply list_elem_of_further | assumption].
Qed.

Lemma range_fold_keeps (l : list (string * V)) : forall m0 k',
  is_Some (m0 !! k') -> is_Some (foldl (range_step f) m0 l !! k').
Proof.
  induction l as [|[k0 v0] l IH]; intros m0 k' H; simpl; [assumption|].
  apply IH. unfold range_step. simpl.
  destruct (f k0) as [k1|]; [|assumption].
  destruct (decide (k1 = k')) as [->|Hne].
  - rewrite lookup_insert_eq. eauto.
  - by rewrite lookup_insert_ne.
Qed.

Lemma range_fold_complete (l : list (string * V)) : forall m0 k k' v,
  (k, v) ∈ l -> f k = Some k' ->
  is_Some (foldl (range_step f) m0 l !! k').
Proof.
  induction l as [|[k0 v0] l IH]; intros m0 k k' v Hin Hf.
  - by apply elem_of_nil in Hin.
  - simpl. apply elem_of_cons in Hin as [[= <- <-]|Hin].
    + apply range_fold_keeps. unfold range_step. simpl. rewrite Hf.
      rewrite lookup_insert_eq. eauto.
    + by apply IH with k v.
Qed.
End RangeFold.

(** X10.  What [Headers.Metadata] returns, whatever the header names and
    the visiting order: every entry holds the value of a header whose name
    starts with the canonical prefix, under the lower-cased rest of that
    name (a lower-case key when the name is ASCII); every such header has
    its key in the result; headers without the prefix contribute
    nothing. *)
Theorem Headers_Metadata_entries lib (h : Headers) l p :
  ranges h l ->
  let cp := CanonicalHeaderKey p in
  let m := Headers_Metadata lib l p in
  (forall k' v, m !! k' = Some v ->
     exists k, h !! k = Some v /\ HasPrefix k cp = true /\
       k' = ToLower lib (string_drop (String.length cp) k) /\
       (string_forall isASCIIByte k = true -> ToLower lib k' = k')) /\
  (forall k v, h !! k = Some v -> HasPrefix k cp = true ->
     is_Some (m !! ToLower lib (string_drop (String.length cp) k))) /\
  ((forall k, k ∈ dom h -> HasPrefix k cp = false) -> m = ∅).
Proof.
  intros Hl cp m.
  assert (Hm : m = foldl (range_step (metaKey lib cp)) ∅ l).
  { subst m. unfold Headers_Metadata. apply foldl_pointwise.
    intros a [k v0]. unfold Metadata_step, range_step, metaKey. simpl.
    fold cp. destruct (HasPrefix k cp); reflexivity. }
  assert (Hsound : forall k' v, m !! k' = Some v ->
     exists k, h !! k = Some v /\ HasPrefix k cp = true /\
       k' = ToLower lib (string_drop (String.length cp) k)).
  { intros k' v H. rewrite Hm in H.
    apply range_fold_sound in H as [H|(k & Hin & Hf)].
    - by rewrite lookup_empty in H.
    - exists k. unfold ranges in Hl. rewrite Hl in Hin.
      apply elem_of_map_to_list in Hin. split; [assumption|].
      unfold metaKey in Hf. destruct (HasPrefix k cp); [|discriminate].
      split; [reflexivity | congruence]. }
  split; [|split].
  - intros k' v H. destruct (Hsound k' v H) as (k & Hk & Hpre & ->).
    exists k. repeat split; try assumption.
    intros Ha. apply ToLower_idem. by apply string_forall_drop.
  - intros k v Hk Hpre. rewrite Hm.
    apply range_fold_complete with k v.
    + unfold ranges in Hl. rewrite Hl. by apply elem_of_map_to_list.
    + unfold metaKey. rewrite Hpre. reflexivity.
  - intros Hno. apply map_empty. intros k'.
    destruct (m !! k') as [v|] eqn:E; [|reflexivity].
    destruct (Hsound k' v E) as (k & Hk & Hpre & _).
    rewrite Hno in Hpre; [discriminate|]. apply elem_of_dom. eauto.
Qed.

(** A container header with an upper-case rest, beside a header without
    the prefix. *)
Lemma Headers_Metadata_entries_witness :
  let h : Headers :=
    <[ "X-Container-Meta-COLOUR" := "red" ]> {[ "Etag" := "abc" ]} in
  let m := Headers_Metadata demoLib (map_to_list h) "X-Container-Meta-" in
  is_Some (m !! "colour") /\ m !! "Etag" = None.
Proof.
  intros h m.
  destruct (Headers_Metadata_entries demoLib h (map_to_list h)
              "X-Container-Meta-") as (_ & Hc & _).
  - unfold ranges. reflexivity.
  - split; [|reflexivity].
    apply (Hc "X-Container-Meta-COLOUR" "red"); reflexivity.
Defined.

(** * Further properties of the transfers *)

Lemma string_app_nil_l (a : string) : "" +:+ a = a.
Proof. reflexivity. Qed.

Lemma string_take_drop k (s : string) : string_take k s +:+ string_drop k s = s.
Proof.
  revert s. induction k as [|k IH]; intros [|c s]; try reflexivity.
  simpl. rewrite string_app_cons, IH. reflexivity.
Qed.

Lemma string_take_app_le k (a b : string) :
  (k <= String.length a)%nat -> string_take k (a +:+ b) = string_take k a.
Proof.
  revert a. induction k as [|k IH]; intros a H; [reflexivity|].
  destruct a as [|c a]; simpl in H; [lia|].
  rewrite string_app_cons. simpl. rewrite IH by lia. reflexivity.
Qed.

Lemma string_take_app_ge k (a b : string) :
  string_take (String.length a + k) (a +:+ b) = a +:+ string_take k b.
Proof.
  induction a as [|c a IH]; [reflexivity|].
  rewrite !string_app_cons. simpl. rewrite IH. reflexivity.
Qed.

(** ** The reader of an upload *)

Section Stream.
Context (lib : GoLib) {T : Type} (RoundTrip : T -> Request -> T * Reply).

Lemma client_Do_stream (w : World T) req :
  req_Body req <> Some Contents ->
  stream (client_Do RoundTrip w req).1 = stream w.
Proof.
  intros H. unfold client_Do, stream. destruct (RoundTrip _ _) as [t' reply].
  destruct (req_Body req) as [[|]|]; try reflexivity; [contradiction|].
  simpl. rewrite string_app_assoc, string_take_drop. reflexivity.
Qed.

Lemma Authenticate_stream c (w : World T) :
  stream (Authenticate lib RoundTrip c w).1.2 = stream w.
Proof.
  unfold Authenticate.
  destruct (NewRequest lib "GET" _ None) as [e|req] eqn:Hn; [reflexivity|].
  assert (Hb : req_Body (setHeader req (handshakeHeader (req_Header req) (setDefaults c)))
               <> Some Contents).
  { unfold NewRequest in Hn. destruct (NewRequest_err _ _ _); [discriminate|].
    injection Hn as <-. discriminate. }
  pose proof (client_Do_stream (countHandshake (CloseIdleConnections w)) _ Hb) as Hh.
  destruct (client_Do _ _ _) as [w1 [e|resp]]; simpl in *; [assumption|].
  destruct (parseHeaders resp authErrorMap); [assumption|].
  destruct (negb _); assumption.
Qed.

Lemma storage_attempt_stream p c (w : World T) last :
  body p <> Some Contents ->
  stream (storage_attempt lib RoundTrip p c w last).1.2 = stream w.
Proof.
  intros Hb. rewrite storage_attempt_world.
  assert (Ha : forall c0 w0 (a : option error),
            stream w0 = stream w ->
            stream (match a, NewRequest_err lib (operation p)
                                  (storage_url lib c0 p) with
                    | None, None =>
                        (c0, (client_Do RoundTrip w0 (storage_request lib c0 p)).1)
                    | _, _ => (c0, w0)
                    end).2 = stream w).
  { intros c0 w0 [e|] H0; [assumption|].
    destruct (NewRequest_err _ _ _); [assumption|]. simpl.
    rewrite client_Do_stream by exact Hb. assumption. }
  destruct (negb (Authenticated c)).
  - pose proof (Authenticate_stream c w) as Hh.
    destruct (Authenticate lib RoundTrip c w) as [[c0 w0] a].
    exact (Ha c0 w0 a Hh).
  - exact (Ha c w None eq_refl).
Qed.

Lemma storage_loop_stream p r c (w : World T) last :
  body p <> Some Contents ->
  stream (storage_loop lib RoundTrip p r c w last).1.2 = stream w.
Proof.
  intros Hb. remember (Z.to_nat r) as n eqn:Hn.
  revert r c w last Hn. induction n as [|n IH]; intros r c w last Hn;
    rewrite storage_loop_step;
    pose proof (storage_attempt_stream p c w last Hb) as Ha;
    destruct (storage_attempt lib RoundTrip p c w last) as [[c1 w1] [e|resp1]];
    try assumption;
    (destruct (resp_StatusCode resp1 =? 401); simpl; [|assumption];
     destruct (Z.gtb_spec r 0); [|assumption]).
  - lia.
  - rewrite IH by lia. assumption.
Qed.

Lemma storage_stream p c (w : World T) :
  body p <> Some Contents ->
  stream (storage lib RoundTrip p c w).1.2 = stream w.
Proof.
  intros Hb. unfold storage.
  pose proof (storage_loop_stream p (retryBudget p c) c w None Hb) as Hl.
  destruct (storage_loop _ _ _ _ _ _ _) as [[c1 w1] [[resp e]|resp]];
    [assumption|].
  destruct (parseHeaders _ _); [assumption|].
  destruct (noResponse p); [|assumption].
  simpl. destruct (closeErr _); assumption.
Qed.
End Stream.

Lemma storage_success_response lib (T : Type)
    (RoundTrip : T -> Request -> T * Reply) p c (w : World T) :
  ret_err (storage lib RoundTrip p c w).2 = None ->
  is_Some (ret_resp (storage lib RoundTrip p c w).2).
Proof.
  unfold storage.
  destruct (storage_loop _ _ _ _ _ _ _) as [[c1 w1] [[prev e]|resp]];
    [discriminate|].
  destruct (parseHeaders _ _); [discriminate|].
  destruct (noResponse p); simpl; [|eauto].
  destruct (closeErr _); simpl; [discriminate | eauto].
Qed.

(** X11.  [ObjectPut] with [checkHash] and no [Hash] sends the reader
    through a tee into the hash, and whatever the transport does, over
    however many attempts, the bytes hashed are exactly the bytes taken
    from the caller's reader, in order: hashed bytes followed by unread
    bytes are the data.  An error of [storage] is returned as it is;
    otherwise the result is [ObjectCorrupted] exactly when the lower-cased
    [Etag] of the response differs from the hex digest of the hashed
    bytes. *)
Theorem ObjectPut_hashes_what_it_reads lib (T : Type)
    (RoundTrip : T -> Request -> T * Reply)
    (cont obj data contentType : string) (h : option Headers)
    (c : Connection) (w : World T) :
  let p := ObjectPut_opts cont obj true "" contentType h in
  let st := storage lib RoundTrip p c (ObjectPut_begin data w) in
  let run := ObjectPut lib RoundTrip cont obj data true "" contentType h c w in
  body p = Some TeeContents /\
  run.1 = st.1 /\
  hashed run.1.2 +:+ contents run.1.2 = data /\
  (forall e, ret_err st.2 = Some e -> run.2.2 = Some e) /\
  (forall resp, ret_err st.2 = None -> ret_resp st.2 = Some resp ->
     run.2.2 = if String.eqb (ToLower lib (resp_Get (resp_Header resp) "Etag"))
                             (hex (md5_Sum lib (hashed run.1.2)))
               then None else Some (Swift ObjectCorrupted)).
Proof.
  intros p st run.
  assert (Hb : body p = Some TeeContents) by reflexivity.
  assert (Hs : stream st.1.2 = data).
  { subst st. rewrite storage_stream; [reflexivity|].
    rewrite Hb. discriminate. }
  assert (H1 : run.1 = st.1).
  { subst run. unfold ObjectPut. fold p. fold st.
    destruct st as [[c1 w1] r]. simpl.
    destruct (ret_err r); [reflexivity|].
    destruct (ret_resp r); [|reflexivity].
    destruct (String.eqb _ _); reflexivity. }
  split; [exact Hb|]. split; [exact H1|]. split; [by rewrite H1|].
  split.
  - intros e He. subst run. unfold ObjectPut. fold p. fold st.
    destruct st as [[c1 w1] r]. simpl in *. rewrite He. reflexivity.
  - intros resp He Hr. rewrite H1. subst run. unfold ObjectPut.
    fold p. fold st. destruct st as [[c1 w1] r]. simpl in *.
    rewrite He, Hr. unfold calculatedMd5.
    destruct (String.eqb _ _); reflexivity.
Qed.

(** X12.  [ObjectPutString] returns no error only when the server's
    [Etag], lower-cased, is the hex digest of the bytes it took from the
    string, which with the bytes left unread make up the string. *)
Theorem ObjectPutString_verified lib (T : Type)
    (RoundTrip : T -> Request -> T * Reply)
    (cont obj data contentType : string) (c : Connection) (w : World T) :
  let run := ObjectPutString lib RoundTrip cont obj data contentType c w in
  run.2 = None ->
  exists resp,
    ret_resp (storage lib RoundTrip
                (ObjectPut_opts cont obj true "" contentType None) c
                (ObjectPut_begin data w)).2 = Some resp /\
    ToLower lib (resp_Get (resp_Header resp) "Etag")
      = hex (md5_Sum lib (hashed run.1.2)) /\
    hashed run.1.2 +:+ contents run.1.2 = data.
Proof.
  intros run. subst run. unfold ObjectPutString, ObjectPut.
  pose proof (storage_stream lib RoundTrip
                (ObjectPut_opts cont obj true "" contentType None) c
                (ObjectPut_begin data w)) as Hs.
  pose proof (storage_success_response lib T RoundTrip
                (ObjectPut_opts cont obj true "" contentType None) c
                (ObjectPut_begin data w)) as Hr.
  destruct (storage _ _ _ _ _) as [[c1 w1] r]. simpl in *.
  assert (Hd : stream w1 = data).
  { rewrite Hs; [reflexivity | discriminate]. }
  destruct (ret_err r) as [e|]; [discriminate|].
  destruct Hr as [resp Hr]; [reflexivity|]. rewrite Hr. simpl.
  unfold calculatedMd5.
  destruct (String.eqb_spec
              (ToLower lib (resp_Get (resp_Header resp) "Etag"))
              (hex (md5_Sum lib (hashed w1)))) as [E|]; simpl; [|discriminate].
  intros _. exists resp. repeat split; assumption.
Qed.

(** An upload the server acknowledges without an [Etag], under a digest
    function that returns nothing. *)
Lemma ObjectPutString_verified_witness :
  let run := ObjectPutString demoLib
               (demoTransport (demoResponse 201 "201 Created"))
               "box" "greeting" "hello" "text/plain" liveConnection
               (demoWorld 0) in
  exists resp,
    ToLower demoLib (resp_Get (resp_Header resp) "Etag")
      = hex (md5_Sum demoLib (hashed run.1.2)) /\
    hashed run.1.2 +:+ contents run.1.2 = "hello".
Proof.
  intros run.
  destruct (ObjectPutString_verified demoLib nat
              (demoTransport (demoResponse 201 "201 Created"))
              "box" "greeting" "hello" "text/plain" liveConnection
              (demoWorld 0)) as (resp & _ & He & Hd).
  - vm_compute. reflexivity.
  - exists resp. split; assumption.
Defined.

(** ** Copies into the sink *)

Lemma Writer_Write_spec d p d' n e :
  Writer_Write d p = (d', n, e) ->
  (n <= String.length p)%nat /\ sunk d' = sunk d +:+ string_take n p.
Proof.
  unfold Writer_Write. destruct (policy d (sunk d) p) as [m e0].
  intros [= <- <- <-]. split; [lia | reflexivity].
Qed.

Lemma MultiWriter_Write_spec d p d' n e :
  MultiWriter_Write d p = (d', n, e) ->
  (n <= String.length p)%nat /\ sunk d'.1 = sunk d.1 +:+ string_take n p.
Proof.
  unfold MultiWriter_Write.
  destruct (Writer_Write d.1 p) as [[d1 m] e1] eqn:Hw.
  apply Writer_Write_spec in Hw as [Hm Hs].
  destruct e1 as [err|]; [intros [= <- <- <-]; auto|].
  destruct (Nat.eqb_spec m (String.length p)) as [->|Hne];
    intros [= <- <- <-]; auto.
Qed.

Lemma plain_Write_spec d p d' n e :
  plain_Write d p = (d', n, e) ->
  (n <= String.length p)%nat /\ sunk d'.1 = sunk d.1 +:+ string_take n p.
Proof.
  unfold plain_Write.
  destruct (Writer_Write d.1 p) as [[d1 m] e1] eqn:Hw.
  apply Writer_Write_spec in Hw as [Hm Hs].
  intros [= <- <- <-]. auto.
Qed.

Section CopyPrefix.
Context (write : Writer * string -> string -> (Writer * string) * nat * option error).
Hypothesis write_spec : forall d p d' n e,
  write d p = (d', n, e) ->
  (n <= String.length p)%nat /\ sunk d'.1 = sunk d.1 +:+ string_take n p.

(** Whatever ends the copy, the sink has received the first [k] bytes of
    the source, and [written] counts them; a copy that ends without error
    has delivered every block. *)
Lemma io_Copy_prefix blocks : forall dst ending n0 dst' unread written err,
  io_Copy write dst blocks ending n0 = (dst', unread, written, err) ->
  exists k,
    (k <= String.length (joined blocks))%nat /\
    written = n0 + Z.of_nat k /\
    sunk dst'.1 = sunk dst.1 +:+ string_take k (joined blocks) /\
    (err = None ->
       k = String.length (joined blocks) /\ ending = None /\ unread = []).
Proof.
  induction blocks as [|block rest IH];
    intros dst ending n0 dst' unread written err.
  - simpl. intros [= <- <- <- <-]. exists 0%nat. simpl.
    rewrite string_app_nil_r.
    split; [lia|]. split; [lia|]. split; [reflexivity|]. auto.
  - cbn [io_Copy].
    change (joined (block :: rest)) with (block +:+ joined rest).
    destruct (Nat.eqb_spec (String.length block) 0) as [E0|Hne].
    + apply string_length_0 in E0. subst block. rewrite string_app_nil_l.
      apply IH.
    + destruct (write dst block) as [[dst1 nw] ew] eqn:Hw.
      apply write_spec in Hw as [Hn Hs].
      destruct ew as [e|].
      { intros [= <- <- <- <-]. exists nw.
        rewrite string_length_app, string_take_app_le by assumption.
        split; [lia|]. split; [lia|]. split; [assumption|]. discriminate. }
      destruct (Nat.eqb_spec nw (String.length block)) as [->|Hshort].
      * intros H. apply IH in H as (k & Hk & Hwr & Hsunk & Hnone).
        exists (String.length block + k)%nat.
        rewrite string_length_app, string_take_app_ge.
        rewrite string_take_all in Hs.
        split; [lia|]. split; [lia|]. split.
        { rewrite Hsunk, Hs, string_app_assoc. reflexivity. }
        intros He. destruct (Hnone He) as (-> & ? & ?). auto.
      * intros [= <- <- <- <-]. exists nw.
        rewrite string_length_app, string_take_app_le by assumption.
        split; [lia|]. split; [lia|]. split; [assumption|]. discriminate.
Qed.
End CopyPrefix.

Lemma ObjectGet_copy_spec (checkHash : bool) d p d' n e :
  (if checkHash then MultiWriter_Write else plain_Write) d p = (d', n, e) ->
  (n <= String.length p)%nat /\ sunk d'.1 = sunk d.1 +:+ string_take n p.
Proof.
  destruct checkHash; [apply MultiWriter_Write_spec | apply plain_Write_spec].
Qed.

(** X13.  Once [storage] has handed [ObjectGet] a response, whatever the
    sink does and with or without [checkHash]: what the sink has received
    is a leading part of the body; the body is closed, exactly once, on
    every path; and [ObjectGet] returns no error only when the sink has
    received the whole body, the stream ended cleanly and [Close] did not
    fail. *)
Theorem ObjectGet_delivers_prefix lib (T : Type)
    (RoundTrip : T -> Request -> T * Reply) (cont obj : string)
    (sink : Writer) (checkHash : bool) (h hs : option Headers)
    (c c1 : Connection) (w w1 : World T) (resp : Response) :
  storage lib RoundTrip (ObjectGet_opts cont obj h) c w
    = (c1, w1, mkRet (Some resp) hs None) ->
  let run := ObjectGet lib RoundTrip cont obj sink checkHash h c w in
  let payload := joined (chunks (resp_Body resp)) in
  (exists k, (k <= String.length payload)%nat /\
     sunk run.1.1.2 = sunk sink +:+ string_take k payload) /\
  (run.2.2 = None ->
     sunk run.1.1.2 = sunk sink +:+ payload /\
     readErr (resp_Body resp) = None /\ closeErr (resp_Body resp) = None) /\
  (exists resp', run.1.2 = Some resp' /\ closed (resp_Body resp') = true) /\
  closes run.1.1.1.2 = S (closes w1) /\
  sent run.1.1.1.2 = sent w1.
Proof.
  intros Hst run payload. subst run. unfold ObjectGet. rewrite Hst. simpl.
  unfold ObjectGet_transfer.
  destruct (io_Copy _ _ _ _ _) as [[[dst unread] written] cerr] eqn:Hcopy.
  apply (io_Copy_prefix _ (ObjectGet_copy_spec checkHash)) in Hcopy
    as (k & Hk & Hwr & Hsunk & Hnone).
  simpl in Hsunk. fold payload in Hk, Hsunk, Hnone.
  assert (Hfst : forall (e : option error),
            (let '(sink', unread0, err) := (dst.1, unread, e) in
             (c1, countClose w1, sink',
              Some (mkResponse (resp_StatusCode resp) (resp_Status resp)
                      (resp_Header resp)
                      (mkBody unread0 (readErr (resp_Body resp))
                              (closeErr (resp_Body resp)) true)),
              (hs, checkClose (closeErr (resp_Body resp)) err)))
            = (c1, countClose w1, dst.1,
               Some (mkResponse (resp_StatusCode resp) (resp_Status resp)
                       (resp_Header resp)
                       (mkBody unread (readErr (resp_Body resp))
                               (closeErr (resp_Body resp)) true)),
               (hs, checkClose (closeErr (resp_Body resp)) e))) by reflexivity.
  assert (Hnil : forall e, checkClose (closeErr (resp_Body resp)) e = None ->
            e = None /\ closeErr (resp_Body resp) = None).
  { intros [e|]; simpl; [discriminate | auto]. }
  assert (Hall : forall e,
    (e = None -> cerr = None) ->
    let r := (c1, countClose w1, dst.1,
              Some (mkResponse (resp_StatusCode resp) (resp_Status resp)
                      (resp_Header resp)
                      (mkBody unread (readErr (resp_Body resp))
                              (closeErr (resp_Body resp)) true)),
              (hs, checkClose (closeErr (resp_Body resp)) e)) in
    (exists k0, (k0 <= String.length payload)%nat /\
       sunk r.1.1.2 = sunk sink +:+ string_take k0 payload) /\
    (r.2.2 = None ->
       sunk r.1.1.2 = sunk sink +:+ payload /\
       readErr (resp_Body resp) = None /\ closeErr (resp_Body resp) = None) /\
    (exists resp', r.1.2 = Some resp' /\ closed (resp_Body resp') = true) /\
    closes r.1.1.1.2 = S (closes w1) /\ sent r.1.1.1.2 = sent w1).
  { intros e He r. subst r. simpl. split; [eauto|]. split.
    - intros Hn. apply Hnil in Hn as [-> Hc].
      destruct (Hnone (He eq_refl)) as (-> & Hr & _).
      rewrite string_take_all in Hsunk. auto.
    - split; [eexists; split; reflexivity|]. split; reflexivity. }
  destruct cerr as [e|]; [apply Hall; discriminate|].
  destruct (checkHash && _); [apply Hall; discriminate|].
  destruct (nonEmpty _); [|apply Hall; reflexivity].
  destruct (getInt64FromHeader _ _ _) as [n [e|]];
    [apply Hall; discriminate|].
  destruct (n =? written); apply Hall; auto.
Qed.

(** A download into a sink that takes four bytes of a block and no more:
    the copy stops short, and what arrived is the start of the body. *)
Lemma ObjectGet_delivers_prefix_witness :
  let run := ObjectGet demoLib (demoTransport twoBlockResponse) "box" "greeting"
                       narrowSink false None liveConnection (demoWorld 0) in
  sunk run.1.1.2 = "hell" /\ run.2.2 = Some ErrShortWrite /\
  closes run.1.1.1.2 = 1%nat.
Proof.
  intros run.
  destruct (ObjectGet_delivers_prefix demoLib nat
              (demoTransport twoBlockResponse) "box" "greeting" narrowSink
              false None (Some ∅) liveConnection liveConnection
              (demoWorld 0)
              (storage demoLib (demoTransport twoBlockResponse)
                 (ObjectGet_opts "box" "greeting" None) liveConnection
                 (demoWorld 0)).1.2
              twoBlockResponse) as (_ & _ & _ & Hc & _).
  - vm_compute. reflexivity.
  - split; [reflexivity|]. split; [reflexivity|]. exact Hc.
Defined.

Lemma io_Copy_buffer blocks : forall s hs ending n0,
  io_Copy MultiWriter_Write (bytes_Buffer s, hs) blocks ending n0
  = ((bytes_Buffer (s +:+ joined blocks), hs +:+ joined blocks), [],
     n0 + Z.of_nat (String.length (joined blocks)), ending).
Proof.
  induction blocks as [|block rest IH]; intros s hs ending n0.
  - simpl. rewrite !string_app_nil_r, Z.add_0_r. reflexivity.
  - cbn [io_Copy].
    change (joined (block :: rest)) with (block +:+ joined rest).
    destruct (Nat.eqb_spec (String.length block) 0) as [E0|Hne].
    + apply string_length_0 in E0. subst block. rewrite string_app_nil_l.
      apply IH.
    + unfold MultiWriter_Write at 1. unfold Writer_Write. simpl.
      rewrite Nat.min_id, Nat.eqb_refl, string_take_all.
      change (mkWriter (s +:+ block) _) with (bytes_Buffer (s +:+ block)).
      rewrite IH, !string_app_assoc, string_length_app.
      rewrite Nat2Z.inj_add, Z.add_assoc, Nat.eqb_refl. reflexivity.
Qed.

(** X14.  Once [storage] has handed over a response, [ObjectGetString]
    returns the whole body, also when it reports an error; and it reports
    none only when the stream ended cleanly, [Close] did not fail, the
    lower-cased [Etag] is the hex digest of the body, and the
    [Content-Length], if the response declares one, is the length of the
    body. *)
Theorem ObjectGetString_verified lib (T : Type)
    (RoundTrip : T -> Request -> T * Reply) (cont obj : string)
    (hs : option Headers) (c c1 : Connection) (w w1 : World T)
    (resp : Response) :
  storage lib RoundTrip (ObjectGet_opts cont obj None) c w
    = (c1, w1, mkRet (Some resp) hs None) ->
  let run := ObjectGetString lib RoundTrip cont obj c w in
  let payload := joined (chunks (resp_Body resp)) in
  let declared := resp_Get (resp_Header resp) "Content-Length" in
  run.2.1 = payload /\
  (run.2.2 = None ->
     readErr (resp_Body resp) = None /\ closeErr (resp_Body resp) = None /\
     ToLower lib (resp_Get (resp_Header resp) "Etag")
       = hex (md5_Sum lib payload) /\
     (declared = "" \/
      ParseInt declared = (Z.of_nat (String.length payload), None))).
Proof.
  intros Hst run payload declared. subst run.
  unfold ObjectGetString, ObjectGet. rewrite Hst. simpl.
  unfold ObjectGet_transfer. rewrite io_Copy_buffer, Z.add_0_l. simpl.
  rewrite !string_app_nil_l. fold payload. unfold calculatedMd5.
  assert (Hnil : forall e, checkClose (closeErr (resp_Body resp)) e = None ->
            e = None /\ closeErr (resp_Body resp) = None).
  { intros [e|]; simpl; [discriminate | auto]. }
  destruct (readErr (resp_Body resp)) as [e|] eqn:Hread; simpl.
  { split; [reflexivity | discriminate]. }
  destruct (String.eqb_spec (ToLower lib (resp_Get (resp_Header resp) "Etag"))
                            (hex (md5_Sum lib payload))) as [Etag|Etag]; simpl.
  2: { split; [reflexivity | discriminate]. }
  unfold nonEmpty. fold declared.
  destruct (String.eqb_spec declared "") as [Hd|Hd]; simpl.
  { split; [reflexivity|]. intros Hn. apply (Hnil None) in Hn as [_ Hc]. auto. }
  unfold getInt64FromHeader. fold declared.
  destruct (ParseInt declared) as [n [reason|]] eqn:Hp; simpl.
  { split; [reflexivity | discriminate]. }
  destruct (Z.eqb_spec n (Z.of_nat (String.length payload))) as [->|Hne]; simpl.
  - split; [reflexivity|]. intros Hn. apply (Hnil None) in Hn as [_ Hc]. auto.
  - split; [reflexivity | discriminate].
Qed.

(** A download of two blocks. *)
Lemma ObjectGetString_verified_witness :
  (ObjectGetString demoLib (demoTransport twoBlockResponse) "box" "greeting"
                   liveConnection (demoWorld 0)).2.1 = "hello world".
Proof.
  destruct (ObjectGetString_verified demoLib nat
              (demoTransport twoBlockResponse) "box" "greeting" (Some ∅)
              liveConnection liveConnection (demoWorld 0)
              (storage demoLib (demoTransport twoBlockResponse)
                 (ObjectGet_opts "box" "greeting" None) liveConnection
                 (demoWorld 0)).1.2
              twoBlockResponse) as [Hc _].
  - vm_compute. reflexivity.
  - rewrite Hc. reflexivity.
Defined.

(** ** Requests on a live session *)

Lemma storage_live_answer lib (T : Type)
    (RoundTrip : T -> Request -> T * Reply) p c (w : World T) t' n resp :
  Authenticated c = true ->
  NewRequest_err lib (operation p) (storage_url lib c p) = None ->
  RoundTrip (net w) (storage_request lib c p) = (t', mkReply n (inr resp)) ->
  resp_StatusCode resp <> 401 ->
  parseHeaders resp (opt_errorMap p) = None ->
  closes (storage lib RoundTrip p c w).1.2
    = (if noResponse p then S (closes w) else closes w) /\
  ret_err (storage lib RoundTrip p c w).2
    = (if noResponse p then closeErr (resp_Body resp) else None) /\
  sent (storage lib RoundTrip p c w).1.2 = sent w ++ [storage_request lib c p].
Proof.
  intros Ha Hn HRT H401 Hp. unfold storage. rewrite storage_loop_step.
  rewrite (storage_attempt_live lib RoundTrip p c w None Ha Hn).
  destruct (client_Do_counts RoundTrip w (storage_request lib c p))
    as (Hs & Hh & Hc & Hf).
  pose proof (client_Do_outcome RoundTrip w (storage_request lib c p)) as Ho.
  rewrite HRT in Ho. simpl in Ho.
  destruct (client_Do RoundTrip w (storage_request lib c p)) as [w1 r].
  simpl in *. subst r.
  destruct (Z.eqb_spec (resp_StatusCode resp) 401); [contradiction|]. simpl.
  rewrite Hp. destruct (noResponse p); simpl; [|auto].
  destruct (closeErr (resp_Body resp)); simpl; rewrite Hc; auto.
Qed.

(** X15.  [ObjectDelete] on a live session, answered with a status its
    table accepts: it returns no error and has closed no body, because
    it dispatches without [noResponse] and drops the response; the body
    of the answer is left open.  [ObjectUpdate], answered the same way,
    closes the body and returns what [Close] returns. *)
Theorem ObjectDelete_leaves_body_open lib (T : Type)
    (RoundTrip : T -> Request -> T * Reply) (cont obj : string)
    (h : option Headers) (c : Connection) (w : World T) (t' t'' : T)
    (n m : nat) (resp resp' : Response) :
  Authenticated c = true ->
  (forall method url, NewRequest_err lib method url = None) ->
  RoundTrip (net w) (storage_request lib c (ObjectDelete_opts cont obj))
    = (t', mkReply n (inr resp)) ->
  RoundTrip (net w) (storage_request lib c (ObjectUpdate_opts cont obj h))
    = (t'', mkReply m (inr resp')) ->
  resp_StatusCode resp <> 401 -> parseHeaders resp objectErrorMap = None ->
  resp_StatusCode resp' <> 401 -> parseHeaders resp' objectErrorMap = None ->
  let del := ObjectDelete lib RoundTrip cont obj c w in
  let upd := ObjectUpdate lib RoundTrip cont obj h c w in
  del.2 = None /\ closes del.1.2 = closes w /\
  upd.2 = closeErr (resp_Body resp') /\ closes upd.1.2 = S (closes w).
Proof.
  intros Ha Hn HRT HRT' H401 Hp H401' Hp' del upd.
  destruct (storage_live_answer lib T RoundTrip (ObjectDelete_opts cont obj)
              c w t' n resp Ha (Hn _ _) HRT H401 Hp) as (Hc & He & _).
  destruct (storage_live_answer lib T RoundTrip (ObjectUpdate_opts cont obj h)
              c w t'' m resp' Ha (Hn _ _) HRT' H401' Hp') as (Hc' & He' & _).
  subst del upd. unfold ObjectDelete, ObjectUpdate.
  destruct (storage lib RoundTrip (ObjectDelete_opts cont obj) c w)
    as [[c1 w1] r].
  destruct (storage lib RoundTrip (ObjectUpdate_opts cont obj h) c w)
    as [[c2 w2] r'].
  simpl in *. auto.
Qed.

(** A delete and an update, each answered 204. *)
Lemma ObjectDelete_leaves_body_open_witness :
  let t := constTransport (demoResponse 204 "204 No Content") in
  let del := ObjectDelete demoLib t "box" "greeting" liveConnection unitWorld in
  let upd := ObjectUpdate demoLib t "box" "greeting" None liveConnection
                          unitWorld in
  del.2 = None /\ closes del.1.2 = 0%nat /\
  upd.2 = None /\ closes upd.1.2 = 1%nat.
Proof.
  intros t del upd.
  apply (ObjectDelete_leaves_body_open demoLib unit t "box" "greeting" None
           liveConnection unitWorld tt tt 0%nat 0%nat
           (demoResponse 204 "204 No Content")
           (demoResponse 204 "204 No Content")).
  - reflexivity.
  - reflexivity.
  - reflexivity.
  - reflexivity.
  - simpl. lia.
  - reflexivity.
  - simpl. lia.
  - reflexivity.
Defined.

(** * Properties of the listings *)

Lemma joined_cons (a : string) (l : list string) : joined (a :: l) = a +:+ joined l.
Proof. reflexivity. Qed.

Lemma joined_app (l1 l2 : list string) :
  joined (l1 ++ l2) = joined l1 +:+ joined l2.
Proof.
  induction l1 as [|a l1 IH]; [reflexivity|].
  rewrite <- app_comm_cons, !joined_cons, IH, string_app_assoc. reflexivity.
Qed.

Lemma readLines_loop_spec results : forall buffer lines,
  exists L lost,
    readLines_loop results buffer lines = lines ++ L /\
    buffer +:+ joined results.*1 = joined L +:+ lost /\
    length L = length (completeParts results) /\
    (results = [] -> L = [] /\ lost = buffer) /\
    (forall part, last results = Some (part, false) -> lost = "") /\
    (Forall (fun r => r.2 = false) results -> buffer = "" -> L = results.*1).
Proof.
  induction results as [|[part prefix] rest IH]; intros buffer lines.
  - exists [], buffer. simpl. rewrite app_nil_r, string_app_nil_r.
    repeat split; try reflexivity; discriminate.
  - cbn [readLines_loop fmap list_fmap fst]. rewrite joined_cons.
    destruct prefix.
    + destruct (IH (buffer +:+ part) lines) as (L & lost & HL & Hj & Hn & He & Hl & Hf).
      exists L, lost. split; [exact HL|].
      split; [by rewrite <- string_app_assoc|].
      split; [exact Hn|]. split; [discriminate|]. split.
      * intros p Hp. destruct rest as [|r rest]; [discriminate|].
        by apply (Hl p).
      * intros HF. apply Forall_cons in HF as [? _]. discriminate.
    + destruct (IH "" (lines ++ [buffer +:+ part])) as (L & lost & HL & Hj & Hn & He & Hl & Hf).
      exists ((buffer +:+ part) :: L), lost.
      split; [by rewrite HL, <- app_assoc|].
      split.
      { rewrite joined_cons, string_app_assoc, <- Hj, string_app_nil_l.
        by rewrite string_app_assoc. }
      split.
      { unfold completeParts. rewrite filter_cons_True by reflexivity.
        simpl. f_equal. exact Hn. }
      split; [discriminate|]. split.
      * intros p Hp. destruct rest as [|r rest].
        -- by destruct (He eq_refl) as [_ ->].
        -- by apply (Hl p).
      * intros HF ->. apply Forall_cons in HF as [_ HF].
        rewrite string_app_nil_l. f_equal. by apply Hf.
Qed.

(** X16.  [readLines] returns one line for every part that [ReadLine]
    gave without the prefix flag; the lines end to end, followed by what
    was dropped, are the parts end to end, and nothing is dropped when
    the last part came without the flag; the lines are the parts
    themselves when none is flagged.  The end of the body is no error:
    the result is then what [Close] returns; any other error of the
    reader is returned, with the lines read so far; and the body is
    closed either way. *)
Theorem readLines_joins_parts (T Time : Type) (llib : ListLib Time)
    (resp : Response) (w : World T) :
  let results := (bufio_ReadLine llib (resp_Body resp)).1 in
  let ending := (bufio_ReadLine llib (resp_Body resp)).2 in
  let run := readLines llib resp w in
  length run.2.1 = length (completeParts results) /\
  (exists lost, joined run.2.1 +:+ lost = joined results.*1 /\
     forall part, last results = Some (part, false) -> lost = "") /\
  (Forall (fun r => r.2 = false) results -> run.2.1 = results.*1) /\
  run.2.2 = (if decide (ending = io_EOF) then closeErr (resp_Body resp)
             else Some ending) /\
  closes run.1 = S (closes w).
Proof.
  intros results ending run. subst results ending run. unfold readLines.
  destruct (bufio_ReadLine llib (resp_Body resp)) as [results ending]. simpl.
  destruct (readLines_loop_spec results "" [])
    as (L & lost & HL & Hj & Hn & _ & Hl & Hf).
  rewrite HL. simpl. rewrite string_app_nil_l in Hj.
  split; [exact Hn|]. split; [exists lost; split; [by rewrite Hj | exact Hl]|].
  split; [intros HF; by apply Hf|].
  split; [|reflexivity].
  destruct (decide (ending = io_EOF)); reflexivity.
Qed.

Section ObjectsLoop.
Context {Time : Type} (llib : ListLib Time).

Lemma Objects_subdir_timestamp (o : Object_t Time) :
  ServerLastModified (Objects_subdir o) = ServerLastModified o.
Proof. unfold Objects_subdir. destruct (nonEmpty (SubDir o)); reflexivity. Qed.

Lemma Objects_loop_parsed objects : forall err,
  Forall (timestampParses llib) objects ->
  Objects_loop llib objects err
  = (Some (Objects_entry llib <$> objects),
     if existsb hasTimestamp objects then None else err).
Proof.
  induction objects as [|o rest IH]; intros err HF; [reflexivity|].
  apply Forall_cons in HF as [Ho HF].
  cbn [Objects_loop fmap list_fmap existsb]. unfold Objects_entry, hasTimestamp at 1.
  rewrite Objects_subdir_timestamp.
  destruct (nonEmpty (ServerLastModified o)) eqn:Hts; simpl.
  - specialize (Ho (proj1 (nonEmpty_true _) Hts)).
    destruct (time_Parse llib TimeFormat (beforeDot (ServerLastModified o)))
      as [t perr]. simpl in Ho. subst perr.
    rewrite (IH None HF). simpl.
    destruct (existsb hasTimestamp rest); reflexivity.
  - rewrite (IH err HF). reflexivity.
Qed.

Lemma Objects_loop_fails pre : forall o post err e,
  Forall (timestampParses llib) pre ->
  ServerLastModified o <> "" ->
  (time_Parse llib TimeFormat (beforeDot (ServerLastModified o))).2 = Some e ->
  Objects_loop llib (pre ++ o :: post) err = (None, Some e).
Proof.
  induction pre as [|a pre IH]; intros o post err e HF Hne Hp.
  - cbn [app Objects_loop]. rewrite Objects_subdir_timestamp.
    apply nonEmpty_true in Hne. rewrite Hne.
    destruct (time_Parse _ _ _) as [t perr]. simpl in Hp. subst perr.
    reflexivity.
  - apply Forall_cons in HF as [Ha HF].
    rewrite <- app_comm_cons. cbn [Objects_loop].
    rewrite Objects_subdir_timestamp.
    destruct (nonEmpty (ServerLastModified a)) eqn:Hts.
    + specialize (Ha (proj1 (nonEmpty_true _) Hts)).
      destruct (time_Parse llib TimeFormat (beforeDot (ServerLastModified a)))
        as [t perr]. simpl in Ha. subst perr.
      rewrite (IH o post None e HF Hne Hp). reflexivity.
    + rewrite (IH o post err e HF Hne Hp). reflexivity.
Qed.
End ObjectsLoop.

(** X17.  The conversion loop of [Objects].  When every timestamp
    parses, the entries come back in the same order and number, each
    converted on its own: an entry with a [SubDir] takes it as its name,
    is flagged a pseudo directory and gets the content type
    [application/directory]; an entry with a timestamp gets the time
    parsed from the timestamp up to its first dot; size and hash are
    untouched.  At the first timestamp that does not parse the loop gives
    up the whole slice and returns the parse error. *)
Theorem Objects_converts_entries (Time : Type) (llib : ListLib Time)
    (objects : list (Object_t Time)) (err : option error) :
  (Forall (timestampParses llib) objects ->
     (Objects_loop llib objects err).1 = Some (Objects_entry llib <$> objects)) /\
  (forall pre o post e,
     objects = pre ++ o :: post -> Forall (timestampParses llib) pre ->
     ServerLastModified o <> "" ->
     (time_Parse llib TimeFormat (beforeDot (ServerLastModified o))).2 = Some e ->
     Objects_loop llib objects err = (None, Some e)) /\
  (forall o,
     Bytes (Objects_entry llib o) = Bytes o /\
     Hash (Objects_entry llib o) = Hash o /\
     ServerLastModified (Objects_entry llib o) = ServerLastModified o /\
     (SubDir o <> "" ->
        Name (Objects_entry llib o) = SubDir o /\
        PseudoDirectory (Objects_entry llib o) = true /\
        ContentType (Objects_entry llib o) = "application/directory") /\
     (SubDir o = "" ->
        Name (Objects_entry llib o) = Name o /\
        PseudoDirectory (Objects_entry llib o) = PseudoDirectory o /\
        ContentType (Objects_entry llib o) = ContentType o) /\
     (ServerLastModified o <> "" ->
        LastModified (Objects_entry llib o)
          = (time_Parse llib TimeFormat (beforeDot (ServerLastModified o))).1) /\
     (ServerLastModified o = "" ->
        LastModified (Objects_entry llib o) = LastModified o)).
Proof.
  split; [|split].
  - intros HF. rewrite Objects_loop_parsed by assumption. reflexivity.
  - intros pre o post e -> HF Hne Hp. by apply Objects_loop_fails.
  - intros o. unfold Objects_entry. rewrite Objects_subdir_timestamp.
    unfold Objects_subdir, nonEmpty.
    destruct (String.eqb_spec (SubDir o) "") as [Hs|Hs];
      destruct (String.eqb_spec (ServerLastModified o) "") as [Ht|Ht];
      simpl; repeat split; try reflexivity; try congruence;
      intros; try contradiction; repeat split; congruence.
Qed.

(** X18.  [Objects] assigns the result of every [time.Parse] to the
    error it returns: when [storage] has handed over a response and every
    timestamp parses, the error of the JSON decoder, or of [Close], is
    returned only if no decoded entry carries a timestamp; as soon as one
    does, [Objects] returns the entries decoded so far and no error.  The
    body is closed once. *)
Theorem Objects_masks_decode_error lib (T Time : Type) (llib : ListLib Time)
    (RoundTrip : T -> Request -> T * Reply) (cont : string)
    (opts : option ObjectsOpts.t) (hs : option Headers)
    (c c1 : Connection) (w w1 : World T) (resp : Response) :
  storage lib RoundTrip (Objects_opts cont opts) c w
    = (c1, w1, mkRet (Some resp) hs None) ->
  let objects := (json_Objects llib (resp_Body resp)).1 in
  let derr := (json_Objects llib (resp_Body resp)).2 in
  Forall (timestampParses llib) objects ->
  let run := Connection_Objects lib llib RoundTrip cont opts c w in
  run.2.1 = Some (Objects_entry llib <$> objects) /\
  run.2.2 = (if existsb hasTimestamp objects then None
             else checkClose (closeErr (resp_Body resp)) derr) /\
  closes run.1.2 = S (closes w1).
Proof.
  intros Hst objects derr HF run. subst run objects derr.
  unfold Connection_Objects. rewrite Hst. simpl. unfold readJson.
  destruct (json_Objects llib (resp_Body resp)) as [objects derr].
  simpl in *. rewrite Objects_loop_parsed by assumption.
  repeat split.
Qed.

(** A listing whose second entry the decoder rejects, after a first
    entry with a timestamp: the decoder's error is lost. *)
Lemma Objects_masks_decode_error_witness :
  let entry := mkObject "a.txt" "text/plain" 5 "12:30.25" 0 "" false "" in
  let llib := demoListLib [] io_EOF [entry] (Some (Library "json: bad entry")) in
  let run := Connection_Objects demoLib llib
               (demoTransport (demoResponse 200 "200 OK")) "box" None
               liveConnection (demoWorld 0) in
  run.2 = (Some [mkObject "a.txt" "text/plain" 5 "12:30.25" 12 "" false ""],
           None).
Proof.
  intros entry llib run.
  destruct (Objects_masks_decode_error demoLib nat Z llib
              (demoTransport (demoResponse 200 "200 OK")) "box" None (Some ∅)
              liveConnection liveConnection (demoWorld 0)
              (storage demoLib (demoTransport (demoResponse 200 "200 OK"))
                 (Objects_opts "box" None) liveConnection (demoWorld 0)).1.2
              (demoResponse 200 "200 OK")) as (Ho & He & _).
  - vm_compute. reflexivity.
  - repeat constructor.
  - fold run in Ho, He. destruct run as [[c1 w1] [os e]]. simpl in *.
    rewrite Ho, He. reflexivity.
Defined.

(** * Numbers in headers *)

Lemma pretty_N_char_digit (d : N) :
  (d < 10)%N ->
  isDigitByte (pretty_N_char d) = true /\
  Z.of_nat (byteval (pretty_N_char d) - 48) = Z.of_N d.
Proof.
  intros Hd.
  assert (d = 0 \/ d = 1 \/ d = 2 \/ d = 3 \/ d = 4 \/ d = 5 \/ d = 6 \/
          d = 7 \/ d = 8 \/ d = 9)%N as H by lia.
  repeat (destruct H as [->|H]; [split; reflexivity|]).
  subst d. split; reflexivity.
Qed.

(** Reading the digits that [pretty_N_go] writes gives the number back,
    as long as it fits 64 bits. *)
Lemma parseDigits_pretty_N_go (x : N) : forall s,
  Z.of_N x <= maxUint64 ->
  parseDigits (pretty_N_go x s) 0 = parseDigits s (Z.of_N x).
Proof.
  induction (N.lt_wf_0 x) as [x _ IH]. intros s Hmax.
  destruct (decide (x = 0%N)) as [->|Hx]; [reflexivity|].
  rewrite pretty_N_go_step by lia.
  assert (Hdiv : Z.of_N (x `div` 10) = Z.of_N x / 10) by apply N2Z.inj_div.
  assert (Hmod : Z.of_N (x `mod` 10) = Z.of_N x mod 10) by apply N2Z.inj_mod.
  assert (Hx10 : Z.of_N x = 10 * (Z.of_N x / 10) + Z.of_N x mod 10)
    by (apply Z.div_mod; lia).
  pose proof (Z.mod_pos_bound (Z.of_N x) 10 ltac:(lia)) as Hb.
  assert (Hle : Z.of_N x / 10 <= maxUint64 / 10)
    by (apply Z.div_le_mono; lia).
  rewrite IH; [|apply N.div_lt; lia | rewrite Hdiv; unfold maxUint64 in *; lia].
  destruct (pretty_N_char_digit (x `mod` 10)%N) as [Hd Hv].
  { apply N.mod_lt. lia. }
  cbn [parseDigits]. rewrite Hd, Hv, Hdiv, Hmod.
  destruct (Z.leb_spec (maxUint64 / 10 + 1) (Z.of_N x / 10)); [lia|].
  cbv zeta.
  replace (Z.of_N x / 10 * 10 + Z.of_N x mod 10) with (Z.of_N x) by lia.
  destruct (Z.ltb_spec maxUint64 (Z.of_N x)); [lia|]. reflexivity.
Qed.

Lemma pretty_N_go_head (x : N) : forall s,
  (0 < x)%N ->
  exists c rest, pretty_N_go x s = String c rest /\ isDigitByte c = true.
Proof.
  induction (N.lt_wf_0 x) as [x _ IH]. intros s Hx.
  rewrite pretty_N_go_step by assumption.
  destruct (decide (x `div` 10 = 0)%N) as [E|E].
  - rewrite E, pretty_N_go_0. eexists _, _. split; [reflexivity|].
    apply pretty_N_char_digit, N.mod_lt. lia.
  - apply IH; [apply N.div_lt; lia | by apply N.neq_0_lt_0].
Qed.

Lemma ParseInt_unsigned c rest n :
  isDigitByte c = true ->
  parseDigits (String c rest) 0 = (n, None) ->
  - 2 ^ 63 <= n <= 2 ^ 63 - 1 ->
  ParseInt (String c rest) = (n, None).
Proof.
  intros Hc Hp Hr.
  assert (Hs : ParseInt (String c rest)
               = match parseDigits (String c rest) 0 with
                 | (_, Some ErrSyntax) => (0, Some (numErr_text ErrSyntax))
                 | (un, _) =>
                     if 2 ^ 63 <=? un
                     then (2 ^ 63 - 1, Some (numErr_text ErrRange))
                     else (un, None)
                 end).
  { destruct c as [[] [] [] [] [] [] [] []]; try discriminate Hc; reflexivity. }
  rewrite Hs, Hp.
  destruct (Z.leb_spec (2 ^ 63) n); [lia|]. reflexivity.
Qed.

Lemma ParseInt_negative c rest n :
  isDigitByte c = true ->
  parseDigits (String c rest) 0 = (n, None) ->
  - 2 ^ 63 <= - n <= 2 ^ 63 - 1 ->
  ParseInt (String "-" (String c rest)) = (- n, None).
Proof.
  intros Hc Hp Hr. unfold ParseInt. rewrite Hp. cbv zeta.
  change (negb true) with false. cbn [andb].
  destruct (Z.ltb_spec (2 ^ 63) n); [lia|]. reflexivity.
Qed.

(** [strconv.ParseInt] reads back what [strconv.Itoa] writes. *)
Lemma ParseInt_Itoa (n : Z) :
  - 2 ^ 63 <= n <= 2 ^ 63 - 1 -> ParseInt (Itoa n) = (n, None).
Proof.
  intros Hr. unfold Itoa, pretty, pretty_Z.
  destruct n as [|p|p]; [reflexivity| |].
  - unfold pretty, pretty_positive, pretty, pretty_N.
    rewrite decide_False by discriminate.
    destruct (pretty_N_go_head (N.pos p) "") as (c & rest & E & Hc); [lia|].
    pose proof (parseDigits_pretty_N_go (N.pos p) ""
                  ltac:(unfold maxUint64; lia)) as Hp.
    rewrite E in *. by apply ParseInt_unsigned.
  - unfold pretty, pretty_positive, pretty, pretty_N.
    rewrite decide_False by discriminate.
    destruct (pretty_N_go_head (N.pos p) "") as (c & rest & E & Hc); [lia|].
    pose proof (parseDigits_pretty_N_go (N.pos p) ""
                  ltac:(unfold maxUint64; lia)) as Hp.
    rewrite E in *. rewrite string_app_cons, string_app_nil_l.
    change (Z.neg p) with (- Z.pos p).
    apply ParseInt_negative; [assumption | exact Hp | lia].
Qed.

Lemma getInt64FromHeader_Itoa lib (resp : Response) (header : string) n :
  - 2 ^ 63 <= n <= 2 ^ 63 - 1 ->
  resp_Get (resp_Header resp) header = Itoa n ->
  getInt64FromHeader lib resp header = (n, None).
Proof.
  intros Hr Hv. unfold getInt64FromHeader. rewrite Hv.
  rewrite (ParseInt_Itoa n Hr). reflexivity.
Qed.

Lemma getInt64FromHeader_absent lib (resp : Response) (header : string) :
  resp_Header resp !! CanonicalHeaderKey header = None ->
  getInt64FromHeader lib resp header
  = (0, Some (Swift (newError 0
       ("Bad Header '" +:+ header +:+ "': '': strconv.ParseInt: parsing "
        +:+ strconv_Quote lib "" +:+ ": invalid syntax")))).
Proof.
  intros Hm. unfold getInt64FromHeader, resp_Get. rewrite Hm. reflexivity.
Qed.

(** X19.  [getInt64FromHeader] reads back a header that holds the
    decimal form of an [int64], as [strconv.Itoa] and the [%d] verb write
    it; a header that is absent gives 0 and an error of status 0 that
    names the header. *)
Theorem getInt64FromHeader_reads_decimal lib (resp : Response)
    (header : string) :
  (forall n, - 2 ^ 63 <= n <= 2 ^ 63 - 1 ->
     resp_Get (resp_Header resp) header = Itoa n ->
     getInt64FromHeader lib resp header = (n, None)) /\
  (resp_Header resp !! CanonicalHeaderKey header = None ->
     getInt64FromHeader lib resp header
     = (0, Some (Swift (newError 0
          ("Bad Header '" +:+ header +:+ "': '': strconv.ParseInt: parsing "
           +:+ strconv_Quote lib "" +:+ ": invalid syntax"))))).
Proof.
  split.
  - intros n. apply getInt64FromHeader_Itoa.
  - apply getInt64FromHeader_absent.
Qed.

(** X20.  [Account], once [storage] has handed over a response, passes
    on the headers and reads the three counts in turn: when each header
    holds the decimal form of an [int64] the result holds the three
    numbers and no error; when the second is absent the result holds the
    bytes, zero for the two counts and an error of status 0. *)
Theorem Account_reads_counts lib (T : Type)
    (RoundTrip : T -> Request -> T * Reply) (hs : option Headers)
    (c c1 : Connection) (w w1 : World T) (resp : Response) :
  storage lib RoundTrip Account_opts c w = (c1, w1, mkRet (Some resp) hs None) ->
  let run := Account lib RoundTrip c w in
  let get := resp_Get (resp_Header resp) in
  run.1 = (c1, w1) /\ run.2.1.2 = hs /\
  (forall b k o,
     - 2 ^ 63 <= b <= 2 ^ 63 - 1 -> - 2 ^ 63 <= k <= 2 ^ 63 - 1 ->
     - 2 ^ 63 <= o <= 2 ^ 63 - 1 ->
     get "X-Account-Bytes-Used" = Itoa b ->
     get "X-Account-Container-Count" = Itoa k ->
     get "X-Account-Object-Count" = Itoa o ->
     run.2.1.1 = mkAccount b k o /\ run.2.2 = None) /\
  (forall b,
     - 2 ^ 63 <= b <= 2 ^ 63 - 1 ->
     get "X-Account-Bytes-Used" = Itoa b ->
     resp_Header resp !! "X-Account-Container-Count" = None ->
     run.2.1.1 = mkAccount b 0 0 /\
     exists text, run.2.2 = Some (Swift (newError 0 text))).
Proof.
  intros Hst run get. subst run get. unfold Account. rewrite Hst.
  cbn [ret_err ret_resp ret_headers].
  split; [|split; [|split]].
  - destruct (getInt64FromHeader lib resp "X-Account-Bytes-Used") as [b [e|]];
      [reflexivity|].
    destruct (getInt64FromHeader lib resp "X-Account-Container-Count")
      as [k [e|]]; [reflexivity|].
    destruct (getInt64FromHeader lib resp "X-Account-Object-Count") as [o e].
    reflexivity.
  - destruct (getInt64FromHeader lib resp "X-Account-Bytes-Used") as [b [e|]];
      [reflexivity|].
    destruct (getInt64FromHeader lib resp "X-Account-Container-Count")
      as [k [e|]]; [reflexivity|].
    destruct (getInt64FromHeader lib resp "X-Account-Object-Count") as [o e].
    reflexivity.
  - intros b k o Hb Hk Ho Eb Ek Eo.
    rewrite (getInt64FromHeader_Itoa lib resp _ b Hb Eb).
    rewrite (getInt64FromHeader_Itoa lib resp _ k Hk Ek).
    rewrite (getInt64FromHeader_Itoa lib resp _ o Ho Eo).
    split; reflexivity.
  - intros b Hb Eb Hm.
    rewrite (getInt64FromHeader_Itoa lib resp _ b Hb Eb).
    rewrite (getInt64FromHeader_absent lib resp "X-Account-Container-Count" Hm).
    split; [reflexivity|]. eexists. reflexivity.
Qed.

(** The account of the comment in the source. *)
Lemma Account_reads_counts_witness :
  (Account demoLib (constTransport accountResponse) liveConnection
           unitWorld).2
  = (mkAccount 316598182 4 1433, Some (readHeaders accountResponse), None).
Proof.
  destruct (Account_reads_counts demoLib unit (constTransport accountResponse)
              (Some (readHeaders accountResponse)) liveConnection liveConnection
              unitWorld
              (storage demoLib (constTransport accountResponse) Account_opts
                 liveConnection unitWorld).1.2
              (Response_Close accountResponse).1) as (_ & Hh & Hi & _).
  - vm_compute. reflexivity.
  - destruct (Hi 316598182 4 1433) as [Ha He];
      [lia | lia | lia | reflexivity | reflexivity | reflexivity |].
    destruct (Account _ _ _ _) as [[c1 w1] [[info h] e]]. simpl in *.
    rewrite Ha, Hh, He. reflexivity.
Defined.

(** X21.  [Object], once [storage] has handed over a response whose
    [Content-Length] holds the decimal form of an [int64]: the result
    names the object as the caller did and holds the content type, the
    size and the [Last-Modified] header as sent; when that header parses
    under the HTTP time format the result holds the time and the [Etag]
    and there is no error; when it does not, the parse error is returned
    and the hash is left empty. *)
Theorem Object_reads_headers lib (T Time : Type) (llib : ListLib Time)
    (RoundTrip : T -> Request -> T * Reply) (cont obj : string)
    (hs : option Headers) (c c1 : Connection) (w w1 : World T)
    (resp : Response) (n : Z) :
  storage lib RoundTrip (Object_opts cont obj) c w
    = (c1, w1, mkRet (Some resp) hs None) ->
  - 2 ^ 63 <= n <= 2 ^ 63 - 1 ->
  resp_Get (resp_Header resp) "Content-Length" = Itoa n ->
  let run := Object lib llib RoundTrip cont obj c w in
  let get := resp_Get (resp_Header resp) in
  let parsed := time_Parse llib http_TimeFormat (get "Last-Modified") in
  run.2.1.2 = hs /\
  run.2.2 = parsed.2 /\
  run.2.1.1 = mkObject obj (get "Content-Type") n (get "Last-Modified")
                parsed.1
                (match parsed.2 with None => get "Etag" | Some _ => "" end)
                false "".
Proof.
  intros Hst Hn Hv run get parsed. subst run get parsed.
  unfold Object. rewrite Hst. cbn [ret_err ret_resp ret_headers].
  rewrite (getInt64FromHeader_Itoa lib resp _ n Hn Hv).
  destruct (time_Parse llib http_TimeFormat _) as [t [e|]];
    repeat split.
Qed.

(** The object of the comment in the source, read by a clock that
    knows hours only. *)
Lemma Object_reads_headers_witness :
  (Object demoLib (demoListLib [] io_EOF [] None)
          (constTransport headResponse) "box" "greeting" liveConnection
          unitWorld).2
  = (mkObject "greeting" "text/plain" 512000 "13:40" 13
              "8a964ee2a5e88be344f36c22562a6486" false "",
     Some (readHeaders headResponse), None).
Proof.
  destruct (Object_reads_headers demoLib unit Z (demoListLib [] io_EOF [] None)
              (constTransport headResponse) "box" "greeting"
              (Some (readHeaders headResponse)) liveConnection liveConnection
              unitWorld
              (storage demoLib (constTransport headResponse)
                 (Object_opts "box" "greeting") liveConnection unitWorld).1.2
              (Response_Close headResponse).1 512000) as (Hh & He & Hi).
  - vm_compute. reflexivity.
  - lia.
  - reflexivity.
  - destruct (Object _ _ _ _ _ _ _) as [[c1 w1] [[info h] e]]. simpl in *.
    rewrite Hi, Hh, He. reflexivity.
Defined.

(** ** An upload across a retry *)

Lemma string_drop_drop a b (s : string) :
  string_drop b (string_drop a s) = string_drop (a + b) s.
Proof.
  revert s. induction a as [|a IH]; intros s; [reflexivity|].
  destruct s as [|c s]; simpl; [destruct b; reflexivity | apply IH].
Qed.

Lemma string_take_take_drop a b (s : string) :
  string_take a s +:+ string_take b (string_drop a s) = string_take (a + b) s.
Proof.
  revert s. induction a as [|a IH]; intros s; [reflexivity|].
  destruct s as [|c s]; simpl; [destruct b; reflexivity|].
  rewrite string_app_cons, IH. reflexivity.
Qed.

Lemma string_length_drop a (s : string) :
  String.length (string_drop a s) = (String.length s - a)%nat.
Proof.
  revert s. induction a as [|a IH]; intros s; simpl; [lia|].
  destruct s as [|c s]; simpl; [reflexivity | apply IH].
Qed.

Section Retry.
Context (lib : GoLib) {T : Type} (RoundTrip : T -> Request -> T * Reply).

Lemma client_Do_tee (w : World T) req t' n o r :
  req_Body req = Some TeeContents ->
  RoundTrip (net w) req = (t', mkReplyWith n o r) ->
  let k := Nat.min n (String.length (contents w)) in
  client_Do RoundTrip w req
  = (mkWorld t' (string_drop k (contents w))
             (hashed w +:+ string_take k (contents w))
             (handshakes w) (idleFlushes w) (closes w) (sent w ++ [req]), o).
Proof.
  intros Hb HRT k. unfold client_Do. rewrite HRT, Hb. reflexivity.
Qed.

(** One expired token: the request, the handshake, the request again. *)
Lemma storage_loop_one_retry p c (w : World T) t1 n resp1 t2 k gr t3 m resp3 :
  Authenticated c = true ->
  (forall method url, NewRequest_err lib method url = None) ->
  RoundTrip (net w) (storage_request lib c p) = (t1, mkReply n (inr resp1)) ->
  resp_StatusCode resp1 = 401 ->
  0 < retryBudget p c ->
  RoundTrip t1 (handshakeRequest (setDefaults (UnAuthenticate c)))
    = (t2, mkReply k (inr gr)) ->
  grants gr ->
  let c2 := setSession (setDefaults (UnAuthenticate c))
              (resp_Get (resp_Header gr) "X-Storage-Url")
              (resp_Get (resp_Header gr) "X-Auth-Token") in
  let w1 := (client_Do RoundTrip w (storage_request lib c p)).1 in
  let w2 := afterHandshake (UnAuthenticate c) (countClose w1) t2 in
  RoundTrip t2 (storage_request lib c2 p) = (t3, mkReply m (inr resp3)) ->
  resp_StatusCode resp3 <> 401 ->
  storage_loop lib RoundTrip p (retryBudget p c) c w None
  = (c2, (client_Do RoundTrip w2 (storage_request lib c2 p)).1, inr resp3).
Proof.
  intros Ha Hn HRT1 H401 Hr HRT2 (Hp & Hs & Ht & Hcl) c2 w1 w2 HRT3 Hne.
  rewrite storage_loop_step.
  rewrite (storage_attempt_live lib RoundTrip p c w None Ha (Hn _ _)).
  pose proof (client_Do_outcome RoundTrip w (storage_request lib c p)) as Ho.
  rewrite HRT1 in Ho. simpl in Ho. fold w1.
  assert (Hnet : net w1 = t1).
  { subst w1. unfold client_Do. rewrite HRT1.
    destruct (req_Body _) as [[|]|]; reflexivity. }
  rewrite Ho, H401. simpl.
  destruct (Z.gtb_spec (retryBudget p c) 0) as [_|]; [|lia].
  rewrite storage_loop_step. unfold storage_attempt.
  change (Authenticated (UnAuthenticate c)) with false. simpl.
  rewrite (Authenticate_answered lib RoundTrip (UnAuthenticate c)
             (countClose w1) t2 k gr (Hn _ _)) by (simpl; rewrite Hnet; exact HRT2).
  rewrite Hp. cbn zeta. fold c2.
  assert (Hc2 : Authenticated c2 = true).
  { unfold Authenticated, c2. simpl. by rewrite Hs, Ht. }
  rewrite Hc2, Hcl. fold w2.
  unfold NewRequest. rewrite Hn. unfold setHeader. simpl.
  change (mkRequest (operation p) (storage_url lib c2 p)
            (storage_headers lib c2 p) (body p))
    with (storage_request lib c2 p).
  pose proof (client_Do_outcome RoundTrip w2 (storage_request lib c2 p)) as Ho3.
  change (net w2) with t2 in Ho3. rewrite HRT3 in Ho3. simpl in Ho3.
  destruct (client_Do RoundTrip w2 (storage_request lib c2 p)) as [w3 r3].
  simpl in *. subst r3.
  destruct (Z.eqb_spec (resp_StatusCode resp3) 401) as [E|_];
    [contradiction|].
  reflexivity.
Qed.
End Retry.

(** X22.  An upload with [checkHash] across an expired token.  When the
    first request is answered 401 after the transport has read [n] bytes
    of the body, the handshake is granted, and the second request is
    answered with an accepted status after [m] more bytes: the second
    request had only what the first left of the reader to send, and the
    digest [ObjectPut] compares with the [Etag] covers the bytes read by
    both requests, the refused one included. *)
Theorem ObjectPut_retry_resumes_reader lib (T : Type)
    (RoundTrip : T -> Request -> T * Reply)
    (cont obj data contentType : string) (h : option Headers)
    (c : Connection) (w : World T) (t1 t2 t3 : T) (n k m : nat)
    (resp1 gr resp3 : Response) :
  let p := ObjectPut_opts cont obj true "" contentType h in
  let c2 := setSession (setDefaults (UnAuthenticate c))
              (resp_Get (resp_Header gr) "X-Storage-Url")
              (resp_Get (resp_Header gr) "X-Auth-Token") in
  Authenticated c = true ->
  (forall method url, NewRequest_err lib method url = None) ->
  0 < Retries c ->
  RoundTrip (net w) (storage_request lib c p) = (t1, mkReply n (inr resp1)) ->
  resp_StatusCode resp1 = 401 ->
  RoundTrip t1 (handshakeRequest (setDefaults (UnAuthenticate c)))
    = (t2, mkReply k (inr gr)) ->
  grants gr ->
  RoundTrip t2 (storage_request lib c2 p) = (t3, mkReply m (inr resp3)) ->
  succeeds p resp3 -> resp_StatusCode resp3 <> 401 ->
  let run := ObjectPut lib RoundTrip cont obj data true "" contentType h c w in
  let n' := Nat.min n (String.length data) in
  let m' := Nat.min m (String.length data - n') in
  hashed run.1.2 = string_take (n' + m') data /\
  contents run.1.2 = string_drop (n' + m') data /\
  sent run.1.2 = sent w ++ [storage_request lib c p;
                            handshakeRequest (setDefaults (UnAuthenticate c));
                            storage_request lib c2 p] /\
  run.2.2 = (if String.eqb (ToLower lib (resp_Get (resp_Header resp3) "Etag"))
                           (hex (md5_Sum lib (string_take (n' + m') data)))
             then None else Some (Swift ObjectCorrupted)).
Proof.
  intros p c2 Ha Hn Hr HRT1 H401 HRT2 Hg HRT3 [Hp3 Hc3] Hne3 run n' m'.
  assert (Hb : body p = Some TeeContents) by reflexivity.
  assert (Hbudget : 0 < retryBudget p c) by exact Hr.
  pose proof (storage_loop_one_retry lib RoundTrip p c (ObjectPut_begin data w)
                t1 n resp1 t2 k gr t3 m resp3 Ha Hn HRT1 H401 Hbudget
                HRT2 Hg HRT3 Hne3) as Hloop.
  cbv zeta in Hloop.
  rewrite (client_Do_tee RoundTrip (ObjectPut_begin data w)
             (storage_request lib c p) t1 n (inr resp1) None Hb HRT1) in Hloop.
  cbn [fst contents hashed ObjectPut_begin] in Hloop. fold n' in Hloop.
  match type of Hloop with
  | context [client_Do RoundTrip ?w2 ?r] =>
      rewrite (client_Do_tee RoundTrip w2 r t3 m (inr resp3) None Hb HRT3)
        in Hloop
  end.
  cbn [fst snd contents hashed afterHandshake countClose sent net handshakes
       idleFlushes closes ObjectPut_begin] in Hloop.
  rewrite string_length_drop in Hloop. fold m' in Hloop.
  rewrite string_drop_drop, string_app_nil_l, string_take_take_drop in Hloop.
  subst run. unfold ObjectPut. fold p. unfold storage. rewrite Hloop.
  rewrite Hp3. change (noResponse p) with true. cbn iota.
  unfold Response_Close, Body_Close. rewrite (Hc3 eq_refl).
  cbn -[string_take string_drop String.eqb hex].
  unfold calculatedMd5. rewrite <- !app_assoc.
  destruct (String.eqb _ _); repeat split.
Qed.

(** Five bytes, one expired token: the refused request read two of them,
    the accepted one the other three; the digest is over all five. *)
Lemma ObjectPut_retry_resumes_reader_witness :
  let run := ObjectPut demoLib (hungryTransport (demoResponse 201 "201 Created"))
               "box" "greeting" "hello" true "" "text/plain" None
               liveConnection (demoWorld 1) in
  hashed run.1.2 = "hello" /\ contents run.1.2 = "" /\
  length (sent run.1.2) = 3%nat /\ run.2.2 = None.
Proof.
  intros run.
  destruct (ObjectPut_retry_resumes_reader demoLib nat
              (hungryTransport (demoResponse 201 "201 Created"))
              "box" "greeting" "hello" "text/plain" None liveConnection
              (demoWorld 1) 0%nat 0%nat 0%nat 2%nat 0%nat 3%nat
              deniedResponse grantResponse (demoResponse 201 "201 Created"))
    as (Hh & Hc & Hs & He).
  - reflexivity.
  - reflexivity.
  - reflexivity.
  - reflexivity.
  - reflexivity.
  - reflexivity.
  - repeat split.
  - reflexivity.
  - split; [reflexivity | reflexivity].
  - simpl. lia.
  - fold run in Hh, Hc, Hs, He. rewrite Hh, Hc, Hs, He. repeat split.
Defined.

Lemma storage_live_result lib (T : Type)
    (RoundTrip : T -> Request -> T * Reply) p c (w : World T) t' n resp :
  Authenticated c = true ->
  NewRequest_err lib (operation p) (storage_url lib c p) = None ->
  RoundTrip (net w) (storage_request lib c p) = (t', mkReply n (inr resp)) ->
  resp_StatusCode resp <> 401 ->
  noResponse p = false ->
  storage lib RoundTrip p c w
  = let w1 := (client_Do RoundTrip w (storage_request lib c p)).1 in
    match parseHeaders resp (opt_errorMap p) with
    | Some err => (c, countClose w1, mkRet None None (Some err))
    | None => (c, w1, mkRet (Some resp) (Some (readHeaders resp)) None)
    end.
Proof.
  intros Ha Hn HRT H401 Hnr. unfold storage. rewrite storage_loop_step.
  rewrite (storage_attempt_live lib RoundTrip p c w None Ha Hn).
  pose proof (client_Do_outcome RoundTrip w (storage_request lib c p)) as Ho.
  rewrite HRT in Ho. simpl in Ho.
  destruct (client_Do RoundTrip w (storage_request lib c p)) as [w1 r].
  simpl in *. subst r.
  destruct (Z.eqb_spec (resp_StatusCode resp) 401); [contradiction|]. simpl.
  rewrite Hnr. reflexivity.
Qed.

(** X23.  [ObjectNames] on a live session, answered with a status other
    than 401: it sends one GET and closes the body of the answer exactly
    once, whether the answer is accepted or not.  An answer the container
    table rejects gives no names and the table's error (404 is
    [ContainerNotFound]); an accepted one gives what [readLines] makes of
    its body. *)
Theorem ObjectNames_lists_once lib (T Time : Type) (llib : ListLib Time)
    (RoundTrip : T -> Request -> T * Reply) (cont : string)
    (opts : option ObjectsOpts.t) (c : Connection) (w : World T) (t' : T)
    (n : nat) (resp : Response) :
  let p := ObjectNames_opts cont opts in
  Authenticated c = true ->
  NewRequest_err lib "GET" (storage_url lib c p) = None ->
  RoundTrip (net w) (storage_request lib c p) = (t', mkReply n (inr resp)) ->
  resp_StatusCode resp <> 401 ->
  let run := ObjectNames lib llib RoundTrip cont opts c w in
  run.1.1 = c /\
  sent run.1.2 = sent w ++ [storage_request lib c p] /\
  req_Method (storage_request lib c p) = "GET" /\
  closes run.1.2 = S (closes w) /\
  (forall e, parseHeaders resp containerErrorMap = Some e ->
     run.2 = ([], Some e)) /\
  (resp_StatusCode resp = 404 -> run.2 = ([], Some (Swift ContainerNotFound))) /\
  (parseHeaders resp containerErrorMap = None ->
     run.2 = (readLines llib resp w).2).
Proof.
  intros p Ha Hn HRT H401 run.
  assert (Hop : operation p = "GET").
  { subst p. unfold ObjectNames_opts.
    destruct (ObjectsOpts.parse opts); reflexivity. }
  assert (Hem : opt_errorMap p = containerErrorMap).
  { subst p. unfold ObjectNames_opts.
    destruct (ObjectsOpts.parse opts); reflexivity. }
  assert (Hnr : noResponse p = false).
  { subst p. unfold ObjectNames_opts.
    destruct (ObjectsOpts.parse opts); reflexivity. }
  assert (Hn' : NewRequest_err lib (operation p) (storage_url lib c p) = None)
    by (rewrite Hop; exact Hn).
  pose proof (storage_live_result lib T RoundTrip p c w t' n resp Ha Hn' HRT
                H401 Hnr) as Hst.
  destruct (client_Do_counts RoundTrip w (storage_request lib c p))
    as (Hs & _ & Hc & _).
  cbv zeta in Hst. rewrite Hem in Hst.
  subst run. unfold ObjectNames. fold p. rewrite Hst.
  assert (H404 : resp_StatusCode resp = 404 ->
                 parseHeaders resp containerErrorMap
                 = Some (Swift ContainerNotFound)).
  { intros E. unfold parseHeaders. rewrite E. reflexivity. }
  destruct (parseHeaders resp containerErrorMap) as [e|] eqn:Hp; simpl.
  - rewrite Hs, Hc, Hop. repeat split; try congruence.
    intros E. specialize (H404 E). congruence.
  - unfold readLines.
    destruct (bufio_ReadLine llib (resp_Body resp)) as [results ending].
    simpl. rewrite Hs, Hc, Hop. repeat split; try congruence.
    intros E. specialize (H404 E). congruence.
Qed.

(** A container of two objects, and a container that does not exist. *)
Lemma ObjectNames_lists_once_witness :
  let llib := demoListLib [("a.txt", false); ("b.txt", false)] io_EOF [] None in
  let found := ObjectNames demoLib llib
                 (constTransport (demoResponse 200 "200 OK")) "box" None
                 liveConnection unitWorld in
  let missing := ObjectNames demoLib llib
                   (constTransport (demoResponse 404 "404 Not Found")) "box"
                   None liveConnection unitWorld in
  found.2 = (["a.txt"; "b.txt"], None) /\ closes found.1.2 = 1%nat /\
  missing.2 = ([], Some (Swift ContainerNotFound)) /\
  closes missing.1.2 = 1%nat.
Proof.
  intros llib found missing.
  destruct (ObjectNames_lists_once demoLib unit Z llib
              (constTransport (demoResponse 200 "200 OK")) "box" None
              liveConnection unitWorld tt 0%nat (demoResponse 200 "200 OK"))
    as (_ & _ & _ & Hc & _ & _ & Hr); [reflexivity.. | simpl; lia |].
  destruct (ObjectNames_lists_once demoLib unit Z llib
              (constTransport (demoResponse 404 "404 Not Found")) "box" None
              liveConnection unitWorld tt 0%nat
              (demoResponse 404 "404 Not Found"))
    as (_ & _ & _ & Hc' & _ & Hr' & _); [reflexivity.. | simpl; lia |].
  fold found in Hc, Hr. fold missing in Hc', Hr'.
  rewrite Hc, Hc', (Hr eq_refl), (Hr' eq_refl). repeat split.
Defined.
